(** * Session state, transport client, notification store, event bus and
      route guard of the Suraksh dashboard front end

    Shallow embedding of
      - [lib/api/client.ts]: the class [ApiClient] with [getToken],
        [clearToken], [setToken] and the two axios interceptors
        (the first file of [src/unnamed/part_007]),
      - [store/auth-store.ts]: the zustand store [useAuthStore] with its
        [persist] middleware and the registration of the accessors (it
        follows [notifications.ts] in [src/frontend/src/lib/utils/]),
      - [lib/utils/notifications.ts],
      - [app/dashboard/layout.tsx]: the client side route guard,
      - the [graph-data-updated] custom event, raised by the vault page
        ([src/unnamed/part_003]) and consumed by the graph page (it follows
        the login page in [src/frontend/src/app/auth/login/page.tsx]),
      - [lib/api/auth.ts]: [authApi], with the login page and the logout
        handlers of the settings page ([src/unnamed/part_003]) and of the
        side bar that call it,
      - [lib/api/vault.ts] ([src/unnamed/part_009]): the token that
        [openFilePreview] sends,
      - [lib/api/search.ts], [lib/api/deepsearch.ts] (the second file of
        [src/unnamed/part_007]) and [lib/api/ingest.ts]
        ([src/unnamed/part_008]): the checks made before a request, with
        the search box and the chat that call them,
      - the ages and sizes the requests page and the vault page print.

    The browser is modelled by explicit state: [localStorage] is a finite map
    from keys to strings, [JSON.parse] and [JSON.stringify] are a parser and
    a printer on those strings, exceptions are a result type and
    [try]/[catch] is a combinator on computations.  The clock and
    [Math.random] are inputs of the calls that read them. *)

From Stdlib Require Import ZArith NArith Ascii String List Bool Lia.
From stdpp Require Import base option list strings pretty gmap.

Local Open Scope string_scope.
Local Open Scope Z_scope.

(** ** Characters *)

Definition dquote : ascii := "034"%char.
Definition backslash : ascii := "092"%char.

(** The characters 0 to 9 have the codes 48 to 57. *)
Definition digit_of (c : ascii) : option N :=
  let n := N_of_ascii c in
  if ((48 <=? n) && (n <=? 57))%N then Some (n - 48)%N else None.

(** Hexadecimal digits: also a to f (97 to 102) and A to F (65 to 70). *)
Definition hex_of (c : ascii) : option N :=
  let n := N_of_ascii c in
  if ((48 <=? n) && (n <=? 57))%N then Some (n - 48)%N
  else if ((97 <=? n) && (n <=? 102))%N then Some (n - 87)%N
  else if ((65 <=? n) && (n <=? 70))%N then Some (n - 55)%N
  else None.

Definition hex_char (n : N) : ascii :=
  match n with
  | 0 => "0" | 1 => "1" | 2 => "2" | 3 => "3" | 4 => "4" | 5 => "5"
  | 6 => "6" | 7 => "7" | 8 => "8" | 9 => "9" | 10 => "a" | 11 => "b"
  | 12 => "c" | 13 => "d" | 14 => "e" | _ => "f"
  end%char%N.

Definition is_space (c : ascii) : bool :=
  match c with
  | " " | "009" | "010" | "013" => true
  | _ => false
  end%char.

(** ** JSON values

    A value is what [JSON.parse] returns.  Numbers are the integer valued
    ones, exact and printed in plain decimal (JavaScript rounds beyond 2^53
    and prints an exponent from 10^21 on); a number literal with a fraction
    or an exponent, and a [\u] escape above code 255, lie outside this model
    (characters are 8-bit code units): [JSON_parse] below has no value for
    them, [JSON_valid] recognises them as the JSON they are, and [modelled]
    says of a text that the model reads it as [JSON.parse] does.  An
    object keeps its members as the text lists them; a property read takes
    the last member of that name, as JavaScript does for a repeated key. *)

#[warnings="-register-all"]
Inductive json : Type :=
| JNull
| JBool (b : bool)
| JNum (z : Z)
| JStr (s : string)
| JArr (elems : list json)
| JObj (members : list (string * json)).

Section json_induction.
Variable P : json -> Prop.
Hypothesis Hnull : P JNull.
Hypothesis Hbool : forall b, P (JBool b).
Hypothesis Hnum : forall z, P (JNum z).
Hypothesis Hstr : forall s, P (JStr s).
Hypothesis Harr : forall l, Forall P l -> P (JArr l).
Hypothesis Hobj : forall l, Forall (fun kv => P (snd kv)) l -> P (JObj l).

Fixpoint json_nested_ind (v : json) : P v :=
  match v with
  | JNull => Hnull
  | JBool b => Hbool b
  | JNum z => Hnum z
  | JStr s => Hstr s
  | JArr l =>
      Harr l ((fix go (l : list json) : Forall P l :=
                 match l with
                 | [] => @List.Forall_nil _ P
                 | x :: l' => @List.Forall_cons _ P x l' (json_nested_ind x) (go l')
                 end) l)
  | JObj l =>
      Hobj l ((fix go (l : list (string * json))
               : Forall (fun kv => P (snd kv)) l :=
                 match l with
                 | [] => @List.Forall_nil _ _
                 | kv :: l' =>
                     @List.Forall_cons _ (fun kv => P (snd kv)) kv l'
                                 (json_nested_ind (snd kv)) (go l')
                 end) l)
  end.
End json_induction.

(** ** [JSON.stringify] *)

Definition escape_char (c : ascii) : string :=
  if Ascii.eqb c dquote then String backslash (String dquote "")
  else if Ascii.eqb c backslash then String backslash (String backslash "")
  else
    match N_of_ascii c with
    | 8%N => String backslash "b"
    | 9%N => String backslash "t"
    | 10%N => String backslash "n"
    | 12%N => String backslash "f"
    | 13%N => String backslash "r"
    | n =>
        if (n <? 32)%N
        then String backslash
               (String "u" (String "0" (String "0"
                  (String (hex_char (n / 16)) (String (hex_char (n mod 16)) "")))))
        else String c ""
    end.

Fixpoint escape (s : string) : string :=
  match s with
  | "" => ""
  | String c s' => escape_char c +:+ escape s'
  end.

Definition quote (s : string) : string :=
  String dquote (escape s +:+ String dquote "").

Fixpoint sep_tail (l : list string) : string :=
  match l with
  | [] => ""
  | x :: l' => "," +:+ x +:+ sep_tail l'
  end.

(** [sep_by l] is [l.join(",")]. *)
Definition sep_by (l : list string) : string :=
  match l with
  | [] => ""
  | x :: l' => x +:+ sep_tail l'
  end.

Fixpoint JSON_stringify (v : json) : string :=
  match v with
  | JNull => "null"
  | JBool true => "true"
  | JBool false => "false"
  | JNum z => pretty z
  | JStr s => quote s
  | JArr l => "[" +:+ sep_by (map JSON_stringify l) +:+ "]"
  | JObj l =>
      "{" +:+ sep_by (map (fun kv => quote (fst kv) +:+ ":" +:+ JSON_stringify (snd kv)) l)
          +:+ "}"
  end.

(** ** [JSON.parse]

    One pass over the text.  The lexer state says which token is being read,
    the parser state holds the stack of the arrays and objects still open;
    each character may complete tokens, which are fed to the parser at once. *)

Inductive lexeme : Type :=
| TLBrace | TRBrace | TLBrack | TRBrack | TColon | TComma
| TStr (s : string) | TNum (z : Z) | TTrue | TFalse | TNull.

Inductive lstate : Type :=
| LIdle
| LMinus
| LNum (neg lead0 : bool) (acc : N)
| LStr (acc : list ascii)
| LEsc (acc : list ascii)
| LHex (acc : list ascii) (k : nat) (h : N)
| LWord (expect : string) (t : lexeme).

Definition num_val (neg : bool) (acc : N) : Z :=
  if neg then - Z.of_N acc else Z.of_N acc.

Definition string_of_rev (acc : list ascii) : string :=
  string_of_list_ascii (rev acc).

(** A number literal that goes on with a fraction or an exponent. *)
Definition is_frac_or_exp (c : ascii) : bool :=
  match c with
  | "." | "e" | "E" => true
  | _ => false
  end%char.

Definition idle_step (c : ascii) : option (list lexeme * lstate) :=
  if is_space c then Some ([], LIdle)
  else if Ascii.eqb c dquote then Some ([], LStr [])
  else
    match digit_of c with
    | Some d => Some ([], LNum false (d =? 0)%N d)
    | None =>
        match c with
        | "{" => Some ([TLBrace], LIdle)
        | "}" => Some ([TRBrace], LIdle)
        | "[" => Some ([TLBrack], LIdle)
        | "]" => Some ([TRBrack], LIdle)
        | ":" => Some ([TColon], LIdle)
        | "," => Some ([TComma], LIdle)
        | "-" => Some ([], LMinus)
        | "t" => Some ([], LWord "rue" TTrue)
        | "f" => Some ([], LWord "alse" TFalse)
        | "n" => Some ([], LWord "ull" TNull)
        | _ => None
        end%char
    end.

Definition esc_step (acc : list ascii) (c : ascii) : option (list lexeme * lstate) :=
  if Ascii.eqb c dquote then Some ([], LStr (dquote :: acc))
  else if Ascii.eqb c backslash then Some ([], LStr (backslash :: acc))
  else
    match c with
    | "/" => Some ([], LStr ("/" :: acc))
    | "b" => Some ([], LStr ("008" :: acc))
    | "f" => Some ([], LStr ("012" :: acc))
    | "n" => Some ([], LStr ("010" :: acc))
    | "r" => Some ([], LStr ("013" :: acc))
    | "t" => Some ([], LStr ("009" :: acc))
    | "u" => Some ([], LHex acc 4 0%N)
    | _ => None
    end%char.

Definition lex_step (st : lstate) (c : ascii) : option (list lexeme * lstate) :=
  match st with
  | LIdle => idle_step c
  | LMinus =>
      match digit_of c with
      | Some d => Some ([], LNum true (d =? 0)%N d)
      | None => None
      end
  | LNum neg lead0 acc =>
      match digit_of c with
      | Some d => if lead0 then None else Some ([], LNum neg false (10 * acc + d)%N)
      | None =>
          if is_frac_or_exp c then None
          else
            match idle_step c with
            | Some (ts, st') => Some (TNum (num_val neg acc) :: ts, st')
            | None => None
            end
      end
  | LStr acc =>
      if Ascii.eqb c dquote then Some ([TStr (string_of_rev acc)], LIdle)
      else if Ascii.eqb c backslash then Some ([], LEsc acc)
      else if (N_of_ascii c <? 32)%N then None
      else Some ([], LStr (c :: acc))
  | LEsc acc => esc_step acc c
  | LHex acc k h =>
      match hex_of c, k with
      | Some d, S O =>
          let n := (16 * h + d)%N in
          if (n <? 256)%N then Some ([], LStr (ascii_of_N n :: acc)) else None
      | Some d, S k' => Some ([], LHex acc k' (16 * h + d)%N)
      | _, _ => None
      end
  | LWord expect t =>
      match expect with
      | String e "" => if Ascii.eqb c e then Some ([t], LIdle) else None
      | String e rest => if Ascii.eqb c e then Some ([], LWord rest t) else None
      | "" => None
      end
  end.

Definition lex_end (st : lstate) : option (list lexeme) :=
  match st with
  | LIdle => Some []
  | LNum neg _ acc => Some [TNum (num_val neg acc)]
  | _ => None
  end.

Inductive frame : Type :=
| FArr (acc : list json)
| FObj (acc : list (string * json)) (key : string).

Inductive pstate : Type :=
| PValue (stk : list frame)
| PArrFirst (stk : list frame)
| PObjFirst (stk : list frame)
| PObjKey (acc : list (string * json)) (stk : list frame)
| PColon (acc : list (string * json)) (key : string) (stk : list frame)
| PAfter (v : json) (stk : list frame).

Definition value_step (stk : list frame) (t : lexeme) : option pstate :=
  match t with
  | TNull => Some (PAfter JNull stk)
  | TTrue => Some (PAfter (JBool true) stk)
  | TFalse => Some (PAfter (JBool false) stk)
  | TNum z => Some (PAfter (JNum z) stk)
  | TStr s => Some (PAfter (JStr s) stk)
  | TLBrack => Some (PArrFirst stk)
  | TLBrace => Some (PObjFirst stk)
  | _ => None
  end.

Definition parse_step (st : pstate) (t : lexeme) : option pstate :=
  match st with
  | PValue stk => value_step stk t
  | PArrFirst stk =>
      match t with
      | TRBrack => Some (PAfter (JArr []) stk)
      | _ => value_step (FArr [] :: stk) t
      end
  | PObjFirst stk =>
      match t with
      | TRBrace => Some (PAfter (JObj []) stk)
      | TStr k => Some (PColon [] k stk)
      | _ => None
      end
  | PObjKey acc stk =>
      match t with
      | TStr k => Some (PColon acc k stk)
      | _ => None
      end
  | PColon acc k stk =>
      match t with
      | TColon => Some (PValue (FObj acc k :: stk))
      | _ => None
      end
  | PAfter v stk =>
      match stk, t with
      | FArr acc :: stk', TComma => Some (PValue (FArr (v :: acc) :: stk'))
      | FArr acc :: stk', TRBrack => Some (PAfter (JArr (rev (v :: acc))) stk')
      | FObj acc k :: stk', TComma => Some (PObjKey ((k, v) :: acc) stk')
      | FObj acc k :: stk', TRBrace => Some (PAfter (JObj (rev ((k, v) :: acc))) stk')
      | _, _ => None
      end
  end.

Fixpoint feed (ps : pstate) (ts : list lexeme) : option pstate :=
  match ts with
  | [] => Some ps
  | t :: ts' =>
      match parse_step ps t with
      | Some ps' => feed ps' ts'
      | None => None
      end
  end.

Definition parse_end (ps : pstate) : option json :=
  match ps with
  | PAfter v [] => Some v
  | _ => None
  end.

Fixpoint parse_run (ls : lstate) (ps : pstate) (text : string) : option json :=
  match text with
  | "" =>
      match lex_end ls with
      | Some ts =>
          match feed ps ts with
          | Some ps' => parse_end ps'
          | None => None
          end
      | None => None
      end
  | String c text' =>
      match lex_step ls c with
      | Some (ts, ls') =>
          match feed ps ts with
          | Some ps' => parse_run ls' ps' text'
          | None => None
          end
      | None => None
      end
  end.

(** [JSON.parse text]: [None] stands for the [SyntaxError] it throws on a
    text that is not JSON.  On a text that is JSON and outside the model
    (see [JSON_valid] and [modelled] below) the result is [None] as well,
    where [JSON.parse] returns a value. *)
Definition JSON_parse (text : string) : option json :=
  parse_run LIdle (PValue []) text.

(** ** The grammar of JSON

    The texts [JSON.parse] accepts, also those whose value the model lacks:
    the lexer above, extended by the fraction and the exponent of a number
    and by the [\u] escapes above code 255.  The tokens of such literals
    carry a placeholder for the value, which plays no part in whether the
    text is accepted. *)

Inductive vstate : Type :=
| VIn (ls : lstate)      (* where the lexer of the model is *)
| VFrac0                 (* after the point *)
| VFrac                  (* in the digits of the fraction *)
| VExp0                  (* after [e] or [E] *)
| VExpSign               (* after the sign of the exponent *)
| VExp.                  (* in the digits of the exponent *)

(** The end of a number literal with a fraction or an exponent. *)
Definition vnum_end (c : ascii) : option (list lexeme * vstate) :=
  match idle_step c with
  | Some (ts, st') => Some (TNum 0 :: ts, VIn st')
  | None => None
  end.

Definition vlex_step (vs : vstate) (c : ascii) : option (list lexeme * vstate) :=
  match vs with
  | VIn ls =>
      match lex_step ls c with
      | Some (ts, ls') => Some (ts, VIn ls')
      | None =>
          match ls with
          | LNum _ _ _ =>
              match c with
              | "." => Some ([], VFrac0)
              | "e" | "E" => Some ([], VExp0)
              | _ => None
              end%char
          | LHex acc (S O) h =>
              match hex_of c with
              | Some _ => Some ([], VIn (LStr ("?"%char :: acc)))
              | None => None
              end
          | _ => None
          end
      end
  | VFrac0 =>
      match digit_of c with
      | Some _ => Some ([], VFrac)
      | None => None
      end
  | VFrac =>
      match digit_of c with
      | Some _ => Some ([], VFrac)
      | None =>
          match c with
          | "e" | "E" => Some ([], VExp0)
          | _ => vnum_end c
          end%char
      end
  | VExp0 =>
      match digit_of c with
      | Some _ => Some ([], VExp)
      | None =>
          match c with
          | "+" | "-" => Some ([], VExpSign)
          | _ => None
          end%char
      end
  | VExpSign =>
      match digit_of c with
      | Some _ => Some ([], VExp)
      | None => None
      end
  | VExp =>
      match digit_of c with
      | Some _ => Some ([], VExp)
      | None => vnum_end c
      end
  end.

Definition vlex_end (vs : vstate) : option (list lexeme) :=
  match vs with
  | VIn ls => lex_end ls
  | VFrac | VExp => Some [TNum 0]
  | _ => None
  end.

Fixpoint valid_run (vs : vstate) (ps : pstate) (text : string) : bool :=
  match text with
  | "" =>
      match vlex_end vs with
      | Some ts =>
          match feed ps ts with
          | Some ps' => match parse_end ps' with Some _ => true | None => false end
          | None => false
          end
      | None => false
      end
  | String c text' =>
      match vlex_step vs c with
      | Some (ts, vs') =>
          match feed ps ts with
          | Some ps' => valid_run vs' ps' text'
          | None => false
          end
      | None => false
      end
  end.

(** [JSON.parse text] does not throw. *)
Definition JSON_valid (text : string) : bool :=
  valid_run (VIn LIdle) (PValue []) text.

(** The model reads the text as [JSON.parse] does: the text is not JSON
    and [JSON.parse] throws, or [JSON_parse] has its value. *)
Definition modelled (text : string) : bool :=
  negb (JSON_valid text)
  || match JSON_parse text with Some _ => true | None => false end.

(** ** The JavaScript operators the code applies to parsed values

    [option json] is a JavaScript value that is either [undefined] ([None])
    or a JSON value. *)

Inductive exn : Type := SyntaxError | TypeError.

Inductive outcome (A : Type) : Type :=
| Ok (a : A)
| Throw (e : exn).
Arguments Ok {A} a.
Arguments Throw {A} e.

(** [if (v)], [!!v]. *)
Definition truthy (v : option json) : bool :=
  match v with
  | None | Some JNull => false
  | Some (JBool b) => b
  | Some (JNum z) => negb (z =? 0)
  | Some (JStr s) => negb (String.eqb s "")
  | Some (JArr _) | Some (JObj _) => true
  end.

(** [if (s)] for [s : string | null], as [getItem] returns it. *)
Definition truthy_str (s : option string) : bool :=
  match s with
  | Some s => negb (String.eqb s "")
  | None => false
  end.

(** [String(v)], the conversion [localStorage.setItem] applies to its value. *)
Fixpoint js_to_string (v : json) : string :=
  match v with
  | JNull => "null"
  | JBool true => "true"
  | JBool false => "false"
  | JNum z => pretty z
  | JStr s => s
  | JArr l =>
      sep_by (map (fun x => match x with JNull => "" | _ => js_to_string x end) l)
  | JObj _ => "[object Object]"
  end.

Fixpoint lookup_last (k : string) (l : list (string * json)) : option json :=
  match l with
  | [] => None
  | (k', v) :: l' =>
      match lookup_last k l' with
      | Some v' => Some v'
      | None => if String.eqb k' k then Some v else None
      end
  end.

(** [v.k] for the names [state] and [token], which no string, array, number
    or boolean carries: reading them off [null] throws, off an object looks
    the member up, off anything else gives [undefined]. *)
Definition js_get (v : json) (k : string) : outcome (option json) :=
  match v with
  | JNull => Throw TypeError
  | JObj l => Ok (lookup_last k l)
  | _ => Ok None
  end.

(** [v?.k] on a value that may be [undefined]. *)
Definition js_get_opt (v : option json) (k : string) : option json :=
  match v with
  | None | Some JNull => None
  | Some v => match js_get v k with Ok r => r | Throw _ => None end
  end.

(** The members [{...v}] copies: the own enumerable properties of [v]. *)
Definition spread (v : option json) : list (string * json) :=
  match v with
  | Some (JObj l) => l
  | Some (JArr l) => imap (fun i x => (pretty i, x)) l
  | Some (JStr s) =>
      imap (fun i c => (pretty i, JStr (String c ""))) (list_ascii_of_string s)
  | _ => []
  end.

(** [{...members, k: v}]: the member [k] is (re)defined to be [v].  A member
    that was there keeps its place in JavaScript and moves to the end here;
    no read of a member can tell the two apart. *)
Definition set_member (k : string) (v : json) (l : list (string * json))
  : list (string * json) :=
  List.filter (fun kv => negb (String.eqb kv.1 k)) l ++ [(k, v)].

(** ** The browser and the module state *)

(** State of the zustand store [useAuthStore].  [user] is the profile object
    the server sent, [None] is [null]. *)
Record AuthState : Type := mkAuthState {
  user : option json;
  token : option string;
  isAuthenticated : bool;
}.

(** The two closures [auth-store.ts] registers as [clearAuthToken]. *)
Inductive clear_fn : Type :=
| ClearByLogout      (* () => { store.logout(); } *)
| ClearBySetters.    (* () => { state.setToken(null); state.setUser(null); } *)

(** [getAuthToken] is, when registered, [() => store.token] for the state
    object [store] read at registration: a zustand [set] builds a new state
    object and leaves that one as it was, so the closure answers with the
    token of registration time, kept here. *)
Record World : Type := mkWorld {
  window_defined : bool;                  (* typeof window !== "undefined" *)
  localStorage : gmap string string;
  pathname : string;                      (* window.location.pathname *)
  href_log : list string;                 (* assignments to window.location.href *)
  auth : AuthState;                       (* useAuthStore.getState() *)
  getAuthToken : option (option string);
  clearAuthToken : option clear_fn;
}.

(** Computations over the world that may throw. *)
Definition M (A : Type) : Type := World -> outcome A * World.

Definition ret {A} (a : A) : M A := fun w => (Ok a, w).

Definition bind {A B} (m : M A) (k : A -> M B) : M B :=
  fun w => match m w with
           | (Ok a, w') => k a w'
           | (Throw e, w') => (Throw e, w')
           end.

Definition throw {A} (e : exn) : M A := fun w => (Throw e, w).

(** [try { body } catch (e) { handler }]: what [body] wrote before it threw
    stays written. *)
Definition try_catch {A} (body : M A) (handler : exn -> M A) : M A :=
  fun w => match body w with
           | (Ok a, w') => (Ok a, w')
           | (Throw e, w') => handler e w'
           end.

Declare Scope js_scope.
Delimit Scope js_scope with js.
Notation "x <- m ;; k" := (bind m (fun x => k))
  (at level 100, m at next level, right associativity) : js_scope.
Notation "m ;;; k" := (bind m (fun _ => k))
  (at level 100, right associativity) : js_scope.
Local Open Scope js_scope.

Definition lift {A} (o : outcome A) : M A := fun w => (o, w).

Definition typeof_window : M bool := fun w => (Ok (window_defined w), w).

Definition getItem (k : string) : M (option string) :=
  fun w => (Ok (localStorage w !! k), w).

Definition with_storage (f : gmap string string -> gmap string string) (w : World)
  : World :=
  mkWorld (window_defined w) (f (localStorage w)) (pathname w) (href_log w)
          (auth w) (getAuthToken w) (clearAuthToken w).

Definition setItem (k v : string) : M unit :=
  fun w => (Ok tt, with_storage (insert k v) w).

Definition removeItem (k : string) : M unit :=
  fun w => (Ok tt, with_storage (delete k) w).

Definition location_pathname : M string := fun w => (Ok (pathname w), w).

(** [window.location.href = url] asks for a navigation; the document, and
    [pathname] with it, stay as they are until that navigation commits. *)
Definition assign_href (url : string) : M unit :=
  fun w => (Ok tt,
            mkWorld (window_defined w) (localStorage w) (pathname w)
                    (url :: href_log w) (auth w) (getAuthToken w)
                    (clearAuthToken w)).

Definition parse (text : string) : M json :=
  match JSON_parse text with
  | Some v => ret v
  | None => throw SyntaxError
  end.

(** ** [store/auth-store.ts]: the zustand store [useAuthStore] *)

Definition json_of_token (t : option string) : json :=
  match t with Some t => JStr t | None => JNull end.

Definition json_of_user (u : option json) : json :=
  match u with Some u => u | None => JNull end.

(** What the [persist] middleware stores under its [name]:
    [{ state: partialize(state), version }], with
    [partialize: (state) => ({ token: state.token, user: state.user })] and
    the default version 0. *)
Definition persisted (s : AuthState) : json :=
  JObj [("state", JObj [("token", json_of_token (token s));
                        ("user", json_of_user (user s))]);
        ("version", JNum 0)].

(** Modelled from the spec: [set(partial)] of a zustand store wrapped in
    [persist]; the library is not part of the repository.  Section 3 has the
    session record "persisted after every mutation": the state is replaced
    and, where [createJSONStorage(() => localStorage)] finds a storage, the
    partialized state is written to the key [auth-storage] before [set]
    returns. *)
Definition zustand_set (f : AuthState -> AuthState) : M unit :=
  fun w =>
    let s := f (auth w) in
    (Ok tt,
     mkWorld (window_defined w)
             (if window_defined w
              then <["auth-storage" := JSON_stringify (persisted s)]> (localStorage w)
              else localStorage w)
             (pathname w) (href_log w) s (getAuthToken w) (clearAuthToken w)).

Definition getState : M AuthState := fun w => (Ok (auth w), w).

Module useAuthStore.

Definition setUser (u : option json) : M unit :=
  zustand_set (fun s => mkAuthState u (token s) (truthy u)).

Definition setToken (t : option string) : M unit :=
  zustand_set (fun s => mkAuthState (user s) t (isAuthenticated s)) ;;;
  win <- typeof_window ;;
  if win then
    match t with
    | Some t' => if truthy_str t then setItem "auth_token" t'
                 else removeItem "auth_token"
    | None => removeItem "auth_token"
    end
  else ret tt.

Definition logout : M unit :=
  zustand_set (fun _ => mkAuthState None None false) ;;;
  win <- typeof_window ;;
  if win then removeItem "auth_token" else ret tt.

End useAuthStore.

(** [registerAuthTokenAccessors(getToken, clearToken)] of [client.ts], called
    with [() => store.token] for a state object whose token is [snapshot]. *)
Definition registerAuthTokenAccessors (snapshot : option string) (c : clear_fn)
  : M unit :=
  fun w => (Ok tt,
            mkWorld (window_defined w) (localStorage w) (pathname w) (href_log w)
                    (auth w) (Some snapshot) (Some c)).

Definition sync_legacy (t : option string) : M unit :=
  match t with
  | Some t' => if truthy_str t then setItem "auth_token" t' else ret tt
  | None => ret tt
  end.

(** The statements at the end of [auth-store.ts], run when the module loads. *)
Definition auth_store_init : M unit :=
  win <- typeof_window ;;
  if win then
    try_catch
      (st <- getState ;;
       registerAuthTokenAccessors (token st) ClearByLogout ;;;
       sync_legacy (token st))
      (fun _ => ret tt)
  else ret tt.


Definition run_clear (c : clear_fn) : M unit :=
  match c with
  | ClearByLogout => useAuthStore.logout
  | ClearBySetters => useAuthStore.setToken None ;;; useAuthStore.setUser None
  end.

(** ** [lib/api/client.ts]: class [ApiClient] *)

(** [{ ...parsed, state: { ...parsed.state, token: t, ... } }]. *)
Definition with_state (parsed : json) (state_members : list (string * json)) : json :=
  JObj (set_member "state" (JObj state_members) (spread (Some parsed))).

Definition fresh_record (t : json) : json :=
  JObj [("state", JObj [("token", t); ("user", JNull)]); ("version", JNum 0)].

Module ApiClient.

(** The result is the token, [None] for [null]; the outer [option] of the
    three stages says whether the function has returned. *)
Definition token_from_store : M (option json) :=
  try_catch
    (authStorage <- getItem "auth-storage" ;;
     match authStorage with
     | Some text =>
         if truthy_str authStorage then
           parsed <- parse text ;;
           st <- lift (js_get parsed "state") ;;
           match js_get_opt st "token" with
           | Some t =>
               if truthy (Some t)
               then setItem "auth_token" (js_to_string t) ;;; ret (Some t)
               else ret None
           | None => ret None
           end
         else ret None
     | None => ret None
     end)
    (fun _ => ret None).

Definition token_from_accessor : M (option json) :=
  fun w =>
    match getAuthToken w with
    | Some (Some t) =>
        if truthy_str (Some t)
        then (setItem "auth_token" t ;;; ret (Some (JStr t))) w
        else (Ok None, w)
    | _ => (Ok None, w)
    end.

Definition migrate (legacyToken : string) : M unit :=
  try_catch
    (authStorage <- getItem "auth-storage" ;;
     match authStorage with
     | Some text =>
         if truthy_str authStorage then
           parsed <- parse text ;;
           st <- lift (js_get parsed "state") ;;
           if negb (truthy (js_get_opt st "token")) then
             setItem "auth-storage"
               (JSON_stringify
                  (with_state parsed
                     (set_member "token" (JStr legacyToken) (spread st))))
           else ret tt
         else
           setItem "auth-storage" (JSON_stringify (fresh_record (JStr legacyToken)))
     | None =>
         setItem "auth-storage" (JSON_stringify (fresh_record (JStr legacyToken)))
     end)
    (fun _ => ret tt).

Definition token_from_legacy : M (option json) :=
  legacyToken <- getItem "auth_token" ;;
  match legacyToken with
  | Some t =>
      if truthy_str legacyToken then migrate t ;;; ret (Some (JStr t))
      else ret None
  | None => ret None
  end.

Definition getToken : M (option json) :=
  win <- typeof_window ;;
  if negb win then ret None
  else
    r <- token_from_store ;;
    match r with
    | Some t => ret (Some t)
    | None =>
        r <- token_from_accessor ;;
        match r with
        | Some t => ret (Some t)
        | None => token_from_legacy
        end
    end.

Definition clearToken : M unit :=
  win <- typeof_window ;;
  if negb win then ret tt
  else
    (fun w =>
       match clearAuthToken w with
       | Some c => run_clear c w
       | None => (Ok tt, w)
       end) ;;;
    removeItem "auth_token".

Definition setToken (t : string) : M unit :=
  win <- typeof_window ;;
  if negb win then ret tt
  else
    fun w =>
      match getAuthToken w with
      | Some _ =>
          try_catch
            (authStorage <- getItem "auth-storage" ;;
             match authStorage with
             | Some text =>
                 if truthy_str authStorage then
                   parsed <- parse text ;;
                   st <- lift (js_get parsed "state") ;;
                   setItem "auth-storage"
                     (JSON_stringify
                        (with_state parsed (set_member "token" (JStr t) (spread st))))
                 else
                   setItem "auth-storage" (JSON_stringify (fresh_record (JStr t)))
             | None =>
                 setItem "auth-storage" (JSON_stringify (fresh_record (JStr t)))
             end)
            (fun _ => setItem "auth_token" t) w
      | None => setItem "auth_token" t w
      end.

(** The request interceptor: the [Authorization] header it sets, if any. *)
Definition request_interceptor (has_headers : bool) : M (option string) :=
  t <- getToken ;;
  match t with
  | Some t' =>
      if truthy t && has_headers
      then ret (Some ("Bearer " +:+ js_to_string t'))
      else ret None
  | None => ret None
  end.

(** What axios hands to the interceptors: a response, or an error whose
    [response?.status] is [status] ([None] when there is no response). *)
Inductive settled : Type :=
| Fulfilled
| Rejected (status : option Z).

Definition clear_persisted_session : M unit :=
  try_catch
    (authStorage <- getItem "auth-storage" ;;
     match authStorage with
     | Some text =>
         if truthy_str authStorage then
           parsed <- parse text ;;
           st <- lift (js_get parsed "state") ;;
           setItem "auth-storage"
             (JSON_stringify
                (with_state parsed
                   (set_member "user" JNull
                      (set_member "token" JNull (spread st)))))
         else ret tt
     | None => ret tt
     end)
    (fun _ => ret tt).

Definition is_401 (status : option Z) : bool :=
  match status with
  | Some n => n =? 401
  | None => false
  end.

(** The response interceptor.  Both handlers hand the response or the
    error on unchanged, so only the effect on the world is kept. *)
Definition response_interceptor (r : settled) : M unit :=
  match r with
  | Fulfilled => ret tt
  | Rejected status =>
      if is_401 status then
        win <- typeof_window ;;
        path <- location_pathname ;;
        if win && negb (String.prefix "/auth/login" path) then
          clearToken ;;;
          clear_persisted_session ;;;
          assign_href "/auth/login"
        else ret tt
      else ret tt
  end.

End ApiClient.

(** ** [lib/utils/notifications.ts] *)

Module Notifications.

Inductive kind : Type := info | success | warning | error.

(** [timestamp] is the [Date] as its millisecond count ([getTime()]). *)
Record Notification : Type := mkNotification {
  id : string;
  type : kind;
  title : string;
  message : string;
  timestamp : Z;
  read : bool;
  actionUrl : option string;
}.

Definition NOTIFICATIONS_STORAGE_KEY : string := "notifications".
Definition MAX_NOTIFICATIONS : nat := 50.

(** The two readings of the clock and the draw of [Math.random] that one
    call of [createNotification] makes: [Date.now()] and
    [Math.random().toString(36).substr(2, 9)] for the id, [new Date()] for
    the timestamp. *)
Record Draw : Type := mkDraw {
  id_now : Z;
  id_suffix : string;
  created : Z;
}.

Definition generateNotificationId (now : Z) (suffix : string) : string :=
  "notif-" +:+ pretty now +:+ "-" +:+ suffix.

Definition kind_name (k : kind) : string :=
  match k with
  | info => "info" | success => "success"
  | warning => "warning" | error => "error"
  end.

Definition kind_of_name (s : string) : option kind :=
  if String.eqb s "info" then Some info
  else if String.eqb s "success" then Some success
  else if String.eqb s "warning" then Some warning
  else if String.eqb s "error" then Some error
  else None.

(** The object [JSON.stringify] sees.  The [Date] is written as its
    millisecond count, which [new Date(n.timestamp)] reads back to the same
    instant as it does the ISO text the browser writes. *)
Definition encode (n : Notification) : json :=
  JObj ([("id", JStr (id n)); ("type", JStr (kind_name (type n)));
         ("title", JStr (title n)); ("message", JStr (message n));
         ("timestamp", JNum (timestamp n)); ("read", JBool (read n))]
        ++ match actionUrl n with
           | Some u => [("actionUrl", JStr u)]
           | None => []
           end).

(** [{ ...n, timestamp: new Date(n.timestamp) }] read at the type
    [Notification]; an element that is no such record is outside the
    model. *)
Definition decode (v : json) : option Notification :=
  match v with
  | JObj l =>
      match lookup_last "id" l, lookup_last "type" l, lookup_last "title" l,
            lookup_last "message" l, lookup_last "timestamp" l,
            lookup_last "read" l with
      | Some (JStr i), Some (JStr k), Some (JStr t), Some (JStr m),
        Some (JNum ts), Some (JBool r) =>
          match kind_of_name k, lookup_last "actionUrl" l with
          | Some k', None => Some (mkNotification i k' t m ts r None)
          | Some k', Some (JStr u) => Some (mkNotification i k' t m ts r (Some u))
          | _, _ => None
          end
      | _, _, _, _, _, _ => None
      end
  | _ => None
  end.

Fixpoint decode_all (l : list json) : option (list Notification) :=
  match l with
  | [] => Some []
  | v :: l' =>
      match decode v, decode_all l' with
      | Some n, Some ns => Some (n :: ns)
      | _, _ => None
      end
  end.

Definition getNotifications : M (list Notification) :=
  win <- typeof_window ;;
  if negb win then ret []
  else
    try_catch
      (stored <- getItem NOTIFICATIONS_STORAGE_KEY ;;
       match stored with
       | Some text =>
           if truthy_str stored then
             parsed <- parse text ;;
             match parsed with
             | JArr l =>
                 match decode_all l with
                 | Some ns => ret ns
                 | None => throw TypeError
                 end
             | _ => throw TypeError     (* parsed.map is not a function *)
             end
           else ret []
       | None => ret []
       end)
      (fun _ => ret []).

(** [Array.prototype.sort] with the comparator
    [(a, b) => b.timestamp.getTime() - a.timestamp.getTime()]: a stable
    sort, newest first. *)
Fixpoint insert_desc (n : Notification) (l : list Notification)
  : list Notification :=
  match l with
  | [] => [n]
  | m :: l' =>
      if timestamp m <=? timestamp n then n :: m :: l'
      else m :: insert_desc n l'
  end.

Fixpoint sort_desc (l : list Notification) : list Notification :=
  match l with
  | [] => []
  | n :: l' => insert_desc n (sort_desc l')
  end.

Definition saveNotifications (notifications : list Notification) : M unit :=
  win <- typeof_window ;;
  if negb win then ret tt
  else
    try_catch
      (let limited := take MAX_NOTIFICATIONS (sort_desc notifications) in
       setItem NOTIFICATIONS_STORAGE_KEY
               (JSON_stringify (JArr (map encode limited))))
      (fun _ => ret tt).

Definition createNotification (d : Draw) (k : kind) (ttl msg : string)
           (url : option string) : M Notification :=
  let notification :=
    mkNotification (generateNotificationId (id_now d) (id_suffix d))
                   k ttl msg (created d) false url in
  existing <- getNotifications ;;
  let updated := notification :: existing in
  saveNotifications updated ;;;
  ret notification.

Definition mark_read (n : Notification) : Notification :=
  mkNotification (id n) (type n) (title n) (message n) (timestamp n) true
                 (actionUrl n).

Definition markNotificationAsRead (i : string) : M unit :=
  notifications <- getNotifications ;;
  saveNotifications
    (map (fun n => if String.eqb (id n) i then mark_read n else n) notifications).

Definition deleteNotification (i : string) : M unit :=
  notifications <- getNotifications ;;
  saveNotifications (List.filter (fun n => negb (String.eqb (id n) i)) notifications).

Definition markAllAsRead : M unit :=
  notifications <- getNotifications ;;
  saveNotifications (map mark_read notifications).

Definition clearAllNotifications : M unit := saveNotifications [].

Definition getUnreadCount : M nat :=
  notifications <- getNotifications ;;
  ret (length (List.filter (fun n => negb (read n)) notifications)).

End Notifications.

(** ** The event bus: [window] as an event target *)

Module EventBus.

Record Event : Type := mkEvent {
  name : string;
  detail : json;
  occurrence : nat;          (* which call of [dispatchEvent] made it *)
}.

(** Modelled from the spec: the bus is the browser's [window] object, whose
    [addEventListener], [removeEventListener] and [dispatchEvent] are not
    code of the repository.  Following section 4.4, [publish] delivers the
    event synchronously to every listener registered for the name at that
    moment, in registration order, and keeps nothing: no queue, no replay.
    A listener is the name it listens to and the identity of its handler;
    [deliveries] records which handler was run with which event. *)
Record Bus : Type := mkBus {
  listeners : list (string * nat);
  dispatched : nat;
  deliveries : list (nat * Event);
}.

Definition empty : Bus := mkBus [] 0 [].

Definition same_listener (a b : string * nat) : bool :=
  String.eqb a.1 b.1 && Nat.eqb a.2 b.2.

(** Modelled from the spec: [subscribe(name, handler)] registers the handler
    after those already there; registering a listener twice has no effect. *)
Definition addEventListener (n : string) (h : nat) (b : Bus) : Bus :=
  if existsb (same_listener (n, h)) (listeners b) then b
  else mkBus (listeners b ++ [(n, h)]) (dispatched b) (deliveries b).

(** Modelled from the spec: [unsubscribe()] takes the handler off the bus. *)
Definition removeEventListener (n : string) (h : nat) (b : Bus) : Bus :=
  mkBus (List.filter (fun l => negb (same_listener (n, h) l)) (listeners b))
        (dispatched b) (deliveries b).

(** Modelled from the spec: [publish(name, payload)] runs, before it returns
    and in registration order, every handler registered for [name] at the
    call, and stores nothing of the event on the bus. *)
Definition dispatchEvent (n : string) (d : json) (b : Bus) : Bus :=
  let e := mkEvent n d (dispatched b) in
  mkBus (listeners b) (S (dispatched b))
        (deliveries b
         ++ map (fun l => (l.2, e))
                (List.filter (fun l => String.eqb l.1 n) (listeners b))).

(** The one event of the application.  The vault page raises it when an
    ingestion has finished; the graph page listens from mount to unmount
    with its handler [handleGraphUpdate]. *)
Definition GRAPH_DATA_UPDATED : string := "graph-data-updated".

Definition ingestion_done (entities_extracted relations_extracted : Z) : Bus -> Bus :=
  dispatchEvent GRAPH_DATA_UPDATED
    (JObj [("entities_extracted", JNum entities_extracted);
           ("relations_extracted", JNum relations_extracted)]).

Definition GraphPage_mount (handleGraphUpdate : nat) : Bus -> Bus :=
  addEventListener GRAPH_DATA_UPDATED handleGraphUpdate.

Definition GraphPage_unmount (handleGraphUpdate : nat) : Bus -> Bus :=
  removeEventListener GRAPH_DATA_UPDATED handleGraphUpdate.

Inductive op : Type :=
| Subscribe (n : string) (h : nat)
| Unsubscribe (n : string) (h : nat)
| Publish (n : string) (d : json).

Definition step (b : Bus) (o : op) : Bus :=
  match o with
  | Subscribe n h => addEventListener n h b
  | Unsubscribe n h => removeEventListener n h b
  | Publish n d => dispatchEvent n d b
  end.

Definition run (ops : list op) (b : Bus) : Bus := fold_left step ops b.

Definition subscribed (n : string) (h : nat) (b : Bus) : bool :=
  existsb (same_listener (n, h)) (listeners b).

(** Handler [h] was run with the event of occurrence [k]. *)
Definition received (h k : nat) (b : Bus) : bool :=
  existsb (fun d => Nat.eqb d.1 h && Nat.eqb (occurrence d.2) k) (deliveries b).

End EventBus.

(** ** [app/dashboard/layout.tsx]: the route guard [DashboardLayout] *)

Module DashboardLayout.

(** The component between two steps: its two [useState] cells, the values
    of [token] and [isAuthenticated] its last render read from the store,
    the dependencies the auth effect last ran with, the pending
    [setTimeout(checkAuth, 0)] with the values its closure captured, and
    the calls of [router.push]. *)
Record State : Type := mkState {
  isClient : bool;
  hasCheckedAuth : bool;
  committed : bool;
  last_deps : option (option string * bool * bool);
  timer : option (option string * bool);
  pushed : list string;
}.

Inductive view : Type := Loading | Shell.

Definition render (s : State) : view :=
  if negb (isClient s) || negb (hasCheckedAuth s) then Loading else Shell.

Inductive phase : Type := UNINITIALIZED | HYDRATING | AUTHORIZED | UNAUTHORIZED.

Definition phase_of (s : State) : phase :=
  match pushed s with
  | _ :: _ => UNAUTHORIZED
  | [] =>
      if negb (isClient s) then UNINITIALIZED
      else if hasCheckedAuth s then AUTHORIZED
      else HYDRATING
  end.

Definition mount : State := mkState false false false None None [].

Definition deps_eqb (a b : option string * bool * bool) : bool :=
  bool_decide (a = b).

(** The effects of one commit, for a render that read [tok] and [auth] from
    the store.  The first commit runs [setIsClient(true)].  The auth effect
    runs when one of its dependencies changed: it clears the timer of its
    last run and, on the client, sets a new one. *)
Definition commit (tok : option string) (auth : bool) (s : State) : State :=
  let deps := (tok, auth, isClient s) in
  let rerun :=
    match last_deps s with
    | Some d => negb (deps_eqb d deps)
    | None => true
    end in
  mkState (if committed s then isClient s else true)
          (hasCheckedAuth s)
          true
          (if rerun then Some deps else last_deps s)
          (if rerun then (if isClient s then Some (tok, auth) else None)
           else timer s)
          (pushed s).

(** [checkAuth] with the captured [tok] and [auth], and what
    [localStorage.getItem("auth_token")] returns when the timer fires. *)
Definition checkAuth (tok : option string) (auth : bool) (legacy : option string)
           (s : State) : State :=
  let currentToken := if truthy_str tok then tok else legacy in
  let hasAuth := auth || truthy_str currentToken in
  if negb hasAuth
  then mkState (isClient s) (hasCheckedAuth s) (committed s) (last_deps s)
               (timer s) ("/auth/login" :: pushed s)
  else mkState (isClient s) true (committed s) (last_deps s) (timer s) (pushed s).

Definition fire (legacy : option string) (s : State) : State :=
  match timer s with
  | Some (tok, auth) =>
      checkAuth tok auth legacy
        (mkState (isClient s) (hasCheckedAuth s) (committed s) (last_deps s)
                 None (pushed s))
  | None => s
  end.

(** Unmounting runs the cleanup of the auth effect: [clearTimeout]. *)
Definition unmount (s : State) : State :=
  mkState (isClient s) (hasCheckedAuth s) (committed s) (last_deps s) None
          (pushed s).

Inductive event : Type :=
| Commit (tok : option string) (auth : bool)
| TimerFires (legacy : option string)
| Unmount.

Definition step (s : State) (e : event) : State :=
  match e with
  | Commit tok auth => commit tok auth s
  | TimerFires legacy => fire legacy s
  | Unmount => unmount s
  end.

Definition run (es : list event) (s : State) : State := fold_left step es s.

Definition is_timer (e : event) : bool :=
  match e with TimerFires _ => true | _ => false end.

Definition decided (p : phase) : bool :=
  match p with AUTHORIZED | UNAUTHORIZED => true | _ => false end.

End DashboardLayout.

(** ** Reading the persisted state *)

(** [parsed.state?.k] for the record stored under [auth-storage], by the
    steps the code takes: a missing or empty text gives [undefined], a text
    that does not parse or parses to [null] throws. *)
Definition record_member (w : World) (k : string) : outcome (option json) :=
  match localStorage w !! "auth-storage" with
  | Some text =>
      if truthy_str (Some text) then
        match JSON_parse text with
        | Some parsed =>
            match js_get parsed "state" with
            | Ok st => Ok (js_get_opt st k)
            | Throw e => Throw e
            end
        | None => Throw SyntaxError
        end
      else Ok None
  | None => Ok None
  end.

(** The legacy mirror as [getToken] takes it: an empty text counts as none. *)
Definition legacy_token (w : World) : option json :=
  match localStorage w !! "auth_token" with
  | Some t => if truthy_str (Some t) then Some (JStr t) else None
  | None => None
  end.

(** The token of the store, as the mirror should hold it. *)
Definition mirrored (t : option string) : option string :=
  match t with
  | Some t' => if truthy_str t then Some t' else None
  | None => None
  end.

(** The calls that set or drop the token of the session: [setToken] and
    [logout] of the store, and [setToken] of the transport client, which
    [client.ts] keeps "for backward compatibility". *)
Inductive session_op : Type :=
| SetToken (t : option string)
| Logout
| ClientSetToken (t : string).

Definition session_step (w : World) (o : session_op) : World :=
  match o with
  | SetToken t => (useAuthStore.setToken t w).2
  | Logout => (useAuthStore.logout w).2
  | ClientSetToken t => (ApiClient.setToken t w).2
  end.

(** The call is one of the store's own. *)
Definition store_call (o : session_op) : bool :=
  match o with
  | ClientSetToken _ => false
  | _ => true
  end.

Definition session_run (ops : list session_op) (w : World) : World :=
  fold_left session_step ops w.

(** The stored record is one the migration of [getToken] can extend: there
    is none, or its text is empty, or it parses to a value other than
    [null]. *)
Definition migratable (w : World) : bool :=
  match localStorage w !! "auth-storage" with
  | Some text =>
      if truthy_str (Some text) then
        match JSON_parse text with
        | Some JNull | None => false
        | Some _ => true
        end
      else true
  | None => true
  end.

(** A browser tab on the dashboard. *)
Definition browser (ls : list (string * string)) (a : AuthState)
           (g : option (option string)) (c : option clear_fn) : World :=
  mkWorld true (list_to_map ls) "/dashboard" [] a g c.

Definition signed_out : AuthState := mkAuthState None None false.

(** The text under [auth-storage], where there is one, is a text the model
    reads as [JSON.parse] does. *)
Definition record_modelled (w : World) : bool :=
  match localStorage w !! "auth-storage" with
  | Some text => modelled text
  | None => true
  end.

(** [client.ts] holds a registered [getAuthToken]. *)
Definition registered (w : World) : bool :=
  match getAuthToken w with
  | Some _ => true
  | None => false
  end.



(** ** Sequences of notifications *)

(** One call of [createNotification]: its arguments and what the clock and
    [Math.random] answer during the call. *)
Record creation : Type := mkCreation {
  draw : Notifications.Draw;
  c_kind : Notifications.kind;
  c_title : string;
  c_message : string;
  c_url : option string;
}.

Definition create (c : creation) : M Notifications.Notification :=
  Notifications.createNotification (draw c) (c_kind c) (c_title c) (c_message c)
                                   (c_url c).

(** The calls one after the other; the result lists the notifications the
    calls returned, oldest first. *)
Fixpoint create_all (cs : list creation) (w : World)
  : outcome (list Notifications.Notification) * World :=
  match cs with
  | [] => (Ok [], w)
  | c :: cs' =>
      match create c w with
      | (Ok n, w1) =>
          match create_all cs' w1 with
          | (Ok ns, w2) => (Ok (n :: ns), w2)
          | (Throw e, w2) => (Throw e, w2)
          end
      | (Throw e, w1) => (Throw e, w1)
      end
  end.

(** The notification a call builds before it touches the store. *)
Definition notification_of (c : creation) : Notifications.Notification :=
  Notifications.mkNotification
    (Notifications.generateNotificationId (Notifications.id_now (draw c))
                                          (Notifications.id_suffix (draw c)))
    (c_kind c) (c_title c) (c_message c) (Notifications.created (draw c))
    false (c_url c).

(** The text [saveNotifications] writes for a list, and the world it leaves. *)
Definition stored_list (l : list Notifications.Notification) : string :=
  JSON_stringify (JArr (map Notifications.encode l)).

Definition saved (l : list Notifications.Notification) (w : World) : World :=
  if window_defined w
  then with_storage
         (insert "notifications"
            (stored_list (take Notifications.MAX_NOTIFICATIONS
                               (Notifications.sort_desc l)))) w
  else w.

(** Sixty calls, one per millisecond. *)
Definition sixty_calls : list creation :=
  map (fun i => mkCreation (Notifications.mkDraw i "k3x9q0a7b" i)
                           Notifications.info "File Ingested" "done" None)
      (seqZ 1700000000000 60).

(** The clock does not run backwards from one call to the next. *)
Fixpoint nondecreasing (l : list Z) : bool :=
  match l with
  | a :: l' =>
      match l' with
      | b :: _ => (a <=? b) && nondecreasing l'
      | [] => true
      end
  | [] => true
  end.

Definition clock_of (cs : list creation) : list Z :=
  map (fun c => Notifications.created (draw c)) cs.

(** Newest first: each entry is at least as recent as all that follow. *)
Fixpoint desc_sorted (l : list Notifications.Notification) : Prop :=
  match l with
  | [] => True
  | n :: l' =>
      Forall (fun m => Notifications.timestamp m <= Notifications.timestamp n) l'
      /\ desc_sorted l'
  end.

Fixpoint no_dash (s : string) : Prop :=
  match s with
  | "" => True
  | String c s' => c <> "-"%char /\ no_dash s'
  end.

(** No delivery on the bus is of an occurrence still to come. *)
Definition bus_bounded (b : EventBus.Bus) : Prop :=
  Forall (fun d => (EventBus.occurrence d.2 < EventBus.dispatched b)%nat)
         (EventBus.deliveries b).

(** ** Vocabulary of the proofs *)

(** What may follow a number literal for it to end there. *)
Definition num_end (r : string) : Prop :=
  match r with
  | "" => True
  | String c _ => digit_of c = None /\ is_frac_or_exp c = false
  end.

(** The parser states in which a value may start. *)
Definition expects_value (ps : pstate) (stk : list frame) : Prop :=
  forall t, t <> TRBrack -> parse_step ps t = value_step stk t.


(** Nobody is signed in: the store is empty, the legacy key is absent and,
    in the browser, the record under [auth-storage] is the one the store
    persists for its empty state. *)
Definition logged_out (w : World) : Prop :=
  auth w = signed_out
  /\ localStorage w !! "auth_token" = None
  /\ (window_defined w = true ->
      localStorage w !! "auth-storage" = Some (JSON_stringify (persisted signed_out))).

(** ** [lib/api/auth.ts]: [authApi], and the components that sign in and out *)

(** What the server makes of one request: a response with its [data], or an
    error whose [response?.status] is [status]. *)
Inductive reply (A : Type) : Type :=
| Response (data : A)
| Failure (status : option Z).
Arguments Response {A} data.
Arguments Failure {A} status.

Definition settled_of {A} (r : reply A) : ApiClient.settled :=
  match r with
  | Response _ => ApiClient.Fulfilled
  | Failure status => ApiClient.Rejected status
  end.

(** One request through [apiClient.axiosInstance]: the request interceptor
    runs, the server answers with [r], the response interceptor runs.  The
    result is the [Authorization] header the request went out with. *)
Definition axios_request {A} (r : reply A) : M (option string) :=
  authorization <- ApiClient.request_interceptor true ;;
  ApiClient.response_interceptor (settled_of r) ;;;
  ret authorization.

Module authApi.

(** [login]: the [access_token] of the response, [None] when the promise is
    rejected. *)
Definition login (r : reply string) : M (option string) :=
  axios_request r ;;;
  match r with
  | Response access_token =>
      (if truthy_str (Some access_token)
       then ApiClient.setToken access_token
       else ret tt) ;;;
      ret (Some access_token)
  | Failure _ => ret None
  end.

(** [getCurrentUser]: the header of the request, and the profile, [None]
    when the promise is rejected. *)
Definition getCurrentUser (r : reply json) : M (option string * option json) :=
  authorization <- axios_request r ;;
  match r with
  | Response profile => ret (authorization, Some profile)
  | Failure _ => ret (authorization, None)
  end.

Definition logout : M unit :=
  ApiClient.setToken "" ;;;
  win <- typeof_window ;;
  if win then assign_href "/auth/login" else ret tt.

End authApi.

(** [app/auth/login/page.tsx]. *)
Module LoginPage.

(** [checkAuth] with the [token] and [isAuthenticated] its closure
    captured and what [localStorage.getItem("auth_token")] returns when the
    timer fires; the result lists the calls of [router.push]. *)
Definition checkAuth (tok : option string) (auth : bool) (legacy : option string)
           (pushed : list string) : list string :=
  let currentToken := if truthy_str tok then tok else legacy in
  let hasAuth := auth || truthy_str currentToken in
  if hasAuth then "/dashboard" :: pushed else pushed.

(** [handleSubmit], for the answers of the server to the two requests it
    makes.  The result is the [Authorization] header of the profile request,
    [None] when that request is not made. *)
Definition handleSubmit (signin : reply string) (me : reply json)
  : M (option string) :=
  response <- authApi.login signin ;;
  match response with
  | Some access_token =>
      useAuthStore.setToken (Some access_token) ;;;
      fetched <- authApi.getCurrentUser me ;;
      match fetched.2 with
      | Some profile => useAuthStore.setUser (Some profile)
      | None => ret tt
      end ;;;
      assign_href "/dashboard" ;;;
      ret fetched.1
  | None => ret None
  end.

End LoginPage.

(** [handleLogout] of the settings page. *)
Module SettingsPage.

Definition handleLogout : M unit :=
  authApi.logout ;;;
  useAuthStore.logout.

End SettingsPage.

(** [handleLogout] of the side bar; the result is the route it hands to
    [router.push]. *)
Module Sidebar.

Definition handleLogout : M string :=
  useAuthStore.logout ;;;
  ret "/auth/login".

End Sidebar.

(** The login view in a browser tab. *)
Definition login_view (ls : list (string * string)) (a : AuthState)
           (g : option (option string)) (c : option clear_fn) : World :=
  mkWorld true (list_to_map ls) "/auth/login" [] a g c.

(** ** [lib/api/vault.ts]: the token [openFilePreview] sends *)

Module vaultApi.

(** How far [openFilePreview] gets before it waits for the server: it
    throws [Error("Authentication token not found")], or it calls [fetch]
    with an [Authorization] header. *)
Inductive preview : Type :=
| TokenNotFound
| Fetch (authorization : string).

Definition legacy_item : M (option json) :=
  t <- getItem "auth_token" ;;
  ret (option_map JStr t).

Definition openFilePreview : M preview :=
  win <- typeof_window ;;
  token <-
    (if win then
       try_catch
         (authStorage <- getItem "auth-storage" ;;
          token <-
            match authStorage with
            | Some text =>
                if truthy_str authStorage then
                  parsed <- parse text ;;
                  st <- lift (js_get parsed "state") ;;
                  ret (js_get_opt st "token")
                else ret None
            | None => ret None
            end ;;
          if negb (truthy token) then legacy_item else ret token)
         (fun _ => legacy_item)
     else ret None) ;;
  match token with
  | Some t =>
      if negb (truthy token) then ret TokenNotFound
      else ret (Fetch ("Bearer " +:+ js_to_string t))
  | None => ret TokenNotFound
  end.

End vaultApi.

(** ** [lib/api/search.ts], [lib/api/deepsearch.ts], [lib/api/ingest.ts]:
       what is checked before a request is made *)

(** [String.prototype.trim] on the code units below 256: the white space
    and line terminators of ECMAScript there are U+0009 to U+000D, U+0020
    and U+00A0. *)
Definition is_white_space (c : ascii) : bool :=
  let n := N_of_ascii c in
  ((9 <=? n) && (n <=? 13) || (n =? 32) || (n =? 160))%N.

Fixpoint trimStart (s : string) : string :=
  match s with
  | String c s' => if is_white_space c then trimStart s' else s
  | EmptyString => s
  end.

Fixpoint trimEnd (s : string) : string :=
  match s with
  | String c s' =>
      match trimEnd s' with
      | EmptyString => if is_white_space c then EmptyString else String c EmptyString
      | r => String c r
      end
  | EmptyString => s
  end.

Definition trim (s : string) : string := trimEnd (trimStart s).

(** A function of the API layer up to its request: it throws an [Error]
    with a message, or it posts a body to a path. *)
Inductive call : Type :=
| Rejects (message : string)
| Posts (url : string) (body : json).

(** The checks [search] and [deepSearch] share, on a numeric [topK] that is
    an integer. *)
Definition checked_query (url query : string) (topK : Z) : call :=
  if negb (truthy_str (Some query)) || (String.length (trim query) <? 3)%nat
  then Rejects "Query must be at least 3 characters long"
  else if (topK <? 1) || (50 <? topK)
  then Rejects "top_k must be between 1 and 50"
  else Posts url (JObj [("query", JStr (trim query)); ("top_k", JNum topK)]).

Definition search (query : string) (topK : Z) : call :=
  checked_query "/api/v1/search/" query topK.

Definition deepSearch (query : string) (topK : Z) : call :=
  checked_query "/api/v1/deepsearch/" query topK.

(** [typeof v === 'string']. *)
Definition is_string (v : option json) : bool :=
  match v with
  | Some (JStr _) => true
  | _ => false
  end.

(** [ingestFile], on whatever value the caller passes for [fileId]. *)
Definition ingestFile (fileId : option json) (extractGraph : bool) : call :=
  match fileId with
  | Some v =>
      if negb (truthy fileId) || negb (is_string fileId)
      then Rejects "file_id must be a non-empty string"
      else
        let normalizedFileId := trim (js_to_string v) in
        if negb (truthy_str (Some normalizedFileId))
           || String.eqb normalizedFileId "undefined"
           || String.eqb normalizedFileId "null"
        then Rejects "file_id cannot be empty or invalid"
        else Posts "/api/v1/ingest/file"
                   (JObj [("file_id", JStr normalizedFileId);
                          ("extract_graph", JBool extractGraph)])
  | None => Rejects "file_id must be a non-empty string"
  end.

(** No white space at either end. *)
Definition trimmed (s : string) : Prop :=
  match s with
  | String c _ =>
      is_white_space c = false
      /\ match last (list_ascii_of_string s) with
         | Some d => is_white_space d = false
         | None => True
         end
  | EmptyString => True
  end.

(** ** Ages, as the pages print them

    [now] and [past] are the two [getTime()] values, in milliseconds, of
    two valid dates.  For times less than 2^53 ms apart the difference and
    its quotients are exact in the number type, and [Math.floor] of a
    quotient is the quotient of [Z]. *)

Definition plural (n : Z) : string := if 1 <? n then "s" else "".

(** [formatTimeAgo] of [app/dashboard/requests/page.tsx]. *)
Module RequestsPage.

Definition formatTimeAgo (now past : Z) : string :=
  let diffMs := now - past in
  let diffMinutes := diffMs / (1000 * 60) in
  let diffHours := diffMs / (1000 * 60 * 60) in
  if diffMinutes <? 1 then "Just now"
  else if diffMinutes <? 60
  then pretty diffMinutes +:+ " minute" +:+ plural diffMinutes +:+ " ago"
  else if diffHours <? 24
  then pretty diffHours +:+ " hour" +:+ plural diffHours +:+ " ago"
  else pretty (diffHours / 24) +:+ " day" +:+ plural (diffHours / 24) +:+ " ago".

End RequestsPage.

(** [formatTimeAgo] of the vault page. *)
Module VaultPage.

Definition formatTimeAgo (now uploaded : Z) : string :=
  let diffMs := now - uploaded in
  let diffHours := diffMs / (1000 * 60 * 60) in
  let diffDays := diffHours / 24 in
  if diffHours <? 1 then "Just now"
  else if diffHours <? 24
  then pretty diffHours +:+ " hour" +:+ plural diffHours +:+ " ago"
  else pretty diffDays +:+ " day" +:+ plural diffDays +:+ " ago".

End VaultPage.

(** ** Sizes, as the pages print them *)

(** [x.toFixed(1)] for [x = num / den], with [0 <= num < 2^53] and [den]
    a power of two, so that the quotient of the two numbers is exact: the
    digits of the integer [n] for which [n / 10] is nearest to [x], the
    larger one of two that are as near, with the point before the last
    digit. *)
Definition toFixed1 (num den : Z) : string :=
  let n := (2 * 10 * num + den) / (2 * den) in
  pretty (n / 10) +:+ "." +:+ pretty (n mod 10).

(** [formatFileSize] of the requests page and of the vault page, on a whole
    number of bytes. *)
Definition formatFileSize (bytes : Z) : string :=
  if bytes <? 1024 then pretty bytes +:+ " B"
  else if bytes <? 1024 * 1024 then toFixed1 bytes 1024 +:+ " KB"
  else toFixed1 bytes (1024 * 1024) +:+ " MB".

(** ** [lib/api/deepsearch.ts]: message ids, and the two components that
       call [search] and [deepSearch] *)

(** [generateMessageId], for what [Date.now()] and
    [Math.random().toString(36).substr(2, 9)] answer. *)
Definition generateMessageId (now : Z) (suffix : string) : string :=
  "msg_" +:+ pretty now +:+ "_" +:+ suffix.

Fixpoint lacks (c : ascii) (s : string) : Prop :=
  match s with
  | String c' s' => c' <> c /\ lacks c s'
  | EmptyString => True
  end.

(** [SearchInterface] of [components/layout/top-bar.tsx]. *)
Module SearchInterface.

(** What [handleSearch] does with the text of the input: nothing, or it
    shows an error, or it calls [search]. *)
Inductive handled : Type :=
| Ignored
| ShowsError (message : string)
| Calls (c : call).

Definition handleSearch (query : string) (isSearching : bool) : handled :=
  if negb (truthy_str (Some (trim query))) || isSearching then Ignored
  else if (String.length (trim query) <? 3)%nat
  then ShowsError "Query must be at least 3 characters long"
  else Calls (search query 5).

End SearchInterface.

(** [RAGChatbot] of [components/chat/rag-chatbot.tsx]. *)
Module RAGChatbot.

(** [sendMessage] up to its call of [deepSearch]: [None] when it returns
    before adding a message. *)
Definition sendMessage (queryOverride : option string) (input : string)
           (isLoading : bool) : option call :=
  let query :=
    match queryOverride with
    | Some q => if truthy_str queryOverride then q else trim input
    | None => trim input
    end in
  if negb (truthy_str (Some query)) || isLoading then None
  else Some (deepSearch query 5).

End RAGChatbot.

(** ** Sequences of calls on the notification store *)

Inductive notification_op : Type :=
| NCreate (c : creation)
| NMarkRead (i : string)
| NDelete (i : string)
| NMarkAll
| NClear.

Definition notification_step (w : World) (o : notification_op) : World :=
  match o with
  | NCreate c => (create c w).2
  | NMarkRead i => (Notifications.markNotificationAsRead i w).2
  | NDelete i => (Notifications.deleteNotification i w).2
  | NMarkAll => (Notifications.markAllAsRead w).2
  | NClear => (Notifications.clearAllNotifications w).2
  end.

Definition notification_run (ops : list notification_op) (w : World) : World :=
  fold_left notification_step ops w.

(** The entries of a list that are not read. *)
Definition unread (l : list Notifications.Notification) : nat :=
  length (List.filter (fun n => negb (Notifications.read n)) l).

(** The store holds [l], as a call of [saveNotifications] leaves it: the
    text under the key is the one written for [l] (or the key is absent and
    [l] is empty), with at most [MAX_NOTIFICATIONS] entries, newest first. *)
Definition holds (w : World) (l : list Notifications.Notification) : Prop :=
  window_defined w = true
  /\ (localStorage w !! "notifications" = Some (stored_list l)
      \/ (l = [] /\ localStorage w !! "notifications" = None))
  /\ desc_sorted l
  /\ (length l <= Notifications.MAX_NOTIFICATIONS)%nat.

(** If the key [notifications] holds an array, its elements are
    notification records. *)
Definition records_only (w : World) : Prop :=
  match localStorage w !! "notifications" with
  | Some text =>
      match JSON_parse text with
      | Some (JArr l) => Notifications.decode_all l <> None
      | _ => True
      end
  | None => True
  end.

(** ** Sequences of calls on the session *)

Inductive store_op : Type :=
| OSetToken (t : option string)
| OSetUser (u : option json)
| OLogout
| OUnauthorized.     (* a response with status 401 reaches the interceptor *)

Definition store_step (w : World) (o : store_op) : World :=
  match o with
  | OSetToken t => (useAuthStore.setToken t w).2
  | OSetUser u => (useAuthStore.setUser u w).2
  | OLogout => (useAuthStore.logout w).2
  | OUnauthorized =>
      (ApiClient.response_interceptor (ApiClient.Rejected (Some 401)) w).2
  end.

Definition store_run (ops : list store_op) (w : World) : World :=
  fold_left store_step ops w.

(** The store, the legacy key and the persisted record tell the same
    session. *)
Definition consistent (w : World) : Prop :=
  localStorage w !! "auth_token" = mirrored (token (auth w))
  /\ record_member w "token" = Ok (Some (json_of_token (token (auth w))))
  /\ record_member w "user" = Ok (Some (json_of_user (user (auth w)))).

(** What the route guard of the dashboard reads when its timer fires in
    [w], for a render that read the store of [w]. *)
Definition guard_check (w : World) (s : DashboardLayout.State)
  : DashboardLayout.State :=
  DashboardLayout.checkAuth (token (auth w)) (isAuthenticated (auth w))
                            (localStorage w !! "auth_token") s.

Definition login_check (w : World) (pushed : list string) : list string :=
  LoginPage.checkAuth (token (auth w)) (isAuthenticated (auth w))
                      (localStorage w !! "auth_token") pushed.

(** ** The dashboard page while the store rehydrates *)







(** * Properties *)

(** ** [JSON.parse] reads back what [JSON.stringify] writes *)

Lemma str_app_cons c s r : String c s +:+ r = String c (s +:+ r).
Proof. reflexivity. Qed.

Lemma str_app_assoc s1 s2 s3 : (s1 +:+ s2) +:+ s3 = s1 +:+ (s2 +:+ s3).
Proof. induction s1 as [|c s1 IH]; [reflexivity|]. rewrite !str_app_cons, IH. reflexivity. Qed.

Lemma str_app_nil_r s : s +:+ "" = s.
Proof. induction s as [|c s IH]; [reflexivity|]. rewrite str_app_cons, IH. reflexivity. Qed.

Lemma run_silent ls ls' ps c r :
  lex_step ls c = Some ([], ls') ->
  parse_run ls ps (String c r) = parse_run ls' ps r.
Proof. intros H. simpl. rewrite H. reflexivity. Qed.

Lemma run_emit ls ps ps' c t r :
  lex_step ls c = Some ([t], LIdle) ->
  parse_step ps t = Some ps' ->
  parse_run ls ps (String c r) = parse_run LIdle ps' r.
Proof. intros H1 H2. simpl. rewrite H1. simpl. rewrite H2. reflexivity. Qed.

Lemma run_escape_char c acc ps r :
  parse_run (LStr acc) ps (escape_char c +:+ r) = parse_run (LStr (c :: acc)) ps r.
Proof. destruct c as [[] [] [] [] [] [] [] []]; reflexivity. Qed.

Lemma run_escape s : forall acc ps r,
  parse_run (LStr acc) ps (escape s +:+ r)
  = parse_run (LStr (rev (list_ascii_of_string s) ++ acc)) ps r.
Proof.
  induction s as [|c s IH]; intros acc ps r; [reflexivity|].
  cbn [escape list_ascii_of_string].
  rewrite str_app_assoc, run_escape_char, IH.
  cbn [rev]. rewrite <- (assoc_L (++)). reflexivity.
Qed.

Lemma run_quote s ps ps' r :
  parse_step ps (TStr s) = Some ps' ->
  parse_run LIdle ps (quote s +:+ r) = parse_run LIdle ps' r.
Proof.
  intros Hstep. unfold quote. rewrite str_app_cons.
  rewrite (run_silent LIdle (LStr [])) by reflexivity.
  rewrite str_app_assoc, run_escape, str_app_cons.
  apply (run_emit _ _ _ _ (TStr s)); [|exact Hstep].
  cbn. unfold string_of_rev.
  rewrite (right_id_L [] (++)), rev_involutive, string_of_list_ascii_of_string.
  reflexivity.
Qed.

Lemma digit_of_pretty d : (d < 10)%N -> digit_of (pretty_N_char d) = Some d.
Proof.
  intros H.
  assert (d = 0 \/ d = 1 \/ d = 2 \/ d = 3 \/ d = 4 \/ d = 5 \/ d = 6 \/ d = 7
          \/ d = 8 \/ d = 9)%N as Hd by lia.
  repeat (destruct Hd as [-> | Hd]; [reflexivity|]). subst d. reflexivity.
Qed.

Lemma run_digits (x : N) : (0 < x)%N -> forall (neg : bool) s ps r,
  parse_run (if neg then LMinus else LIdle) ps (pretty_N_go x s +:+ r)
  = parse_run (LNum neg false x) ps (s +:+ r).
Proof.
  induction (N.lt_wf_0 x) as [x _ IH]; intros Hx neg s ps r.
  rewrite pretty_N_go_step by done.
  assert (Hd : (x `mod` 10 < 10)%N) by (apply N.mod_lt; lia).
  assert (x < 10 \/ 10 <= x)%N as [Hlt | Hge] by lia.
  - rewrite N.div_small, N.mod_small by done. rewrite pretty_N_go_0.
    rewrite str_app_cons. apply run_silent.
    assert (x = 1 \/ x = 2 \/ x = 3 \/ x = 4 \/ x = 5 \/ x = 6 \/ x = 7
            \/ x = 8 \/ x = 9)%N as Hc by lia.
    repeat (destruct Hc as [-> | Hc]; [destruct neg; reflexivity|]).
    subst x. destruct neg; reflexivity.
  - rewrite IH; [| apply N.div_lt; lia | apply N.div_str_pos; lia].
    rewrite str_app_cons. apply run_silent.
    cbn [lex_step]. rewrite digit_of_pretty by done.
    do 3 f_equal. symmetry. rewrite N.add_comm, N.mul_comm.
    rewrite (N.div_mod x 10) at 1 by done. lia.
Qed.

Lemma run_num_end neg lead0 x ps ps' r :
  num_end r ->
  parse_step ps (TNum (num_val neg x)) = Some ps' ->
  parse_run (LNum neg lead0 x) ps r = parse_run LIdle ps' r.
Proof.
  intros Hr Hstep. destruct r as [|c r]; simpl.
  - rewrite Hstep. reflexivity.
  - destruct Hr as [-> ->]. destruct (idle_step c) as [[ts ls]|]; [|reflexivity].
    simpl. rewrite Hstep. reflexivity.
Qed.

Lemma run_number z ps ps' r :
  num_end r ->
  parse_step ps (TNum z) = Some ps' ->
  parse_run LIdle ps (pretty z +:+ r) = parse_run LIdle ps' r.
Proof.
  intros Hr Hstep. destruct z as [|p|p].
  - change (pretty 0) with "0". rewrite str_app_cons.
    rewrite (run_silent LIdle (LNum false true 0)) by reflexivity.
    apply run_num_end; done.
  - change (pretty (Z.pos p)) with (pretty_N_go (N.pos p) "").
    rewrite (run_digits (N.pos p) ltac:(lia) false).
    apply run_num_end; done.
  - change (pretty (Z.neg p)) with ("-" +:+ pretty_N_go (N.pos p) "").
    rewrite str_app_assoc, str_app_cons.
    rewrite (run_silent LIdle LMinus) by reflexivity.
    change ("" +:+ ?s) with s.
    rewrite (run_digits (N.pos p) ltac:(lia) true).
    apply run_num_end; done.
Qed.

Lemma expects_value_PValue stk : expects_value (PValue stk) stk.
Proof. intros t _. reflexivity. Qed.

Lemma expects_value_PArrFirst stk : expects_value (PArrFirst stk) (FArr [] :: stk).
Proof. intros t Ht. destruct t; try reflexivity. done. Qed.

Lemma run_value v : forall ps stk r,
  expects_value ps stk -> num_end r ->
  parse_run LIdle ps (JSON_stringify v +:+ r) = parse_run LIdle (PAfter v stk) r.
Proof.
  induction v as [| b | z | s | l IH | l IH] using json_nested_ind;
    intros ps stk r Hps Hr.
  - simpl. rewrite (Hps TNull) by done. reflexivity.
  - destruct b; simpl; [rewrite (Hps TTrue) by done | rewrite (Hps TFalse) by done];
      reflexivity.
  - apply run_number; [done|]. rewrite Hps by done. reflexivity.
  - apply run_quote. rewrite Hps by done. reflexivity.
  - cbn [JSON_stringify]. rewrite !str_app_assoc, str_app_cons.
    change ("" +:+ ?s) with s.
    rewrite (run_emit LIdle ps (PArrFirst stk) _ TLBrack);
      [| reflexivity | rewrite Hps by done; reflexivity].
    assert (Htail : forall l', Forall (fun v => forall ps stk r,
                expects_value ps stk -> num_end r ->
                parse_run LIdle ps (JSON_stringify v +:+ r)
                = parse_run LIdle (PAfter v stk) r) l' ->
              forall acc x,
              parse_run LIdle (PAfter x (FArr acc :: stk))
                (sep_tail (map JSON_stringify l') +:+ "]" +:+ r)
              = parse_run LIdle (PAfter (JArr (rev acc ++ x :: l')) stk) r).
    { induction l' as [|y l' IHl]; intros Hall acc x.
      - reflexivity.
      - inversion Hall as [|? ? Hy Hl']; subst.
        cbn [map sep_tail]. rewrite !str_app_assoc, str_app_cons.
        change ("" +:+ ?s) with s.
        rewrite (run_emit LIdle _ (PValue (FArr (x :: acc) :: stk)) _ TComma)
          by reflexivity.
        rewrite (Hy _ (FArr (x :: acc) :: stk)).
        + rewrite IHl by done. cbn [rev]. rewrite <- (assoc_L (++)). reflexivity.
        + apply expects_value_PValue.
        + destruct l'; split; reflexivity. }
    destruct l as [|x l].
    + reflexivity.
    + inversion IH as [|? ? Hx Hl]; subst.
      cbn [map sep_by]. rewrite str_app_assoc.
      rewrite (Hx _ (FArr [] :: stk)).
      * rewrite Htail by done. reflexivity.
      * apply expects_value_PArrFirst.
      * destruct l; split; reflexivity.
  - cbn [JSON_stringify]. rewrite !str_app_assoc, str_app_cons.
    change ("" +:+ ?s) with s.
    rewrite (run_emit LIdle ps (PObjFirst stk) _ TLBrace);
      [| reflexivity | rewrite Hps by done; reflexivity].
    set (member := fun kv : string * json =>
                     quote kv.1 +:+ ":" +:+ JSON_stringify kv.2).
    assert (Htail : forall l', Forall (fun kv => forall ps stk r,
                expects_value ps stk -> num_end r ->
                parse_run LIdle ps (JSON_stringify kv.2 +:+ r)
                = parse_run LIdle (PAfter kv.2 stk) r) l' ->
              forall acc k x,
              parse_run LIdle (PAfter x (FObj acc k :: stk))
                (sep_tail (map member l') +:+ "}" +:+ r)
              = parse_run LIdle (PAfter (JObj (rev acc ++ (k, x) :: l')) stk) r).
    { induction l' as [|[k' y] l' IHl]; intros Hall acc k x.
      - reflexivity.
      - inversion Hall as [|? ? Hy Hl']; subst.
        cbn [map sep_tail]. unfold member at 1. cbn [fst snd].
        rewrite !str_app_assoc, str_app_cons.
        change ("" +:+ ?s) with s.
        rewrite (run_emit LIdle _ (PObjKey ((k, x) :: acc) stk) _ TComma)
          by reflexivity.
        rewrite (run_quote k' _ (PColon ((k, x) :: acc) k' stk)) by reflexivity.
        rewrite str_app_cons. change ("" +:+ ?s) with s.
        rewrite (run_emit LIdle _ (PValue (FObj ((k, x) :: acc) k' :: stk)) _ TColon)
          by reflexivity.
        rewrite (Hy _ (FObj ((k, x) :: acc) k' :: stk)).
        + rewrite IHl by done. cbn [rev]. rewrite <- (assoc_L (++)). reflexivity.
        + apply expects_value_PValue.
        + destruct l'; split; reflexivity. }
    destruct l as [|[k x] l].
    + reflexivity.
    + inversion IH as [|? ? Hx Hl]; subst.
      cbn [map sep_by]. unfold member at 1. cbn [fst snd].
      rewrite !str_app_assoc.
      rewrite (run_quote k _ (PColon [] k stk)) by reflexivity.
      rewrite str_app_cons. change ("" +:+ ?s) with s.
      rewrite (run_emit LIdle _ (PValue (FObj [] k :: stk)) _ TColon) by reflexivity.
      rewrite (Hx _ (FObj [] k :: stk)).
      * rewrite Htail by done. reflexivity.
      * apply expects_value_PValue.
      * destruct l; split; reflexivity.
Qed.

Theorem JSON_parse_stringify v : JSON_parse (JSON_stringify v) = Some v.
Proof.
  unfold JSON_parse.
  rewrite <- (str_app_nil_r (JSON_stringify v)).
  rewrite (run_value v _ []); [reflexivity | apply expects_value_PValue | exact I].
Qed.

(** ** What [JSON_parse] reads is JSON *)

Lemma valid_run_of_parse_run text : forall ls ps v,
  parse_run ls ps text = Some v -> valid_run (VIn ls) ps text = true.
Proof.
  induction text as [|c text IH]; intros ls ps v H; cbn [parse_run valid_run vlex_end vlex_step] in *.
  - destruct (lex_end ls) as [ts|]; [|discriminate].
    destruct (feed ps ts) as [ps'|]; [|discriminate]. rewrite H. reflexivity.
  - destruct (lex_step ls c) as [[ts ls']|]; [|discriminate].
    destruct (feed ps ts) as [ps'|]; [|discriminate]. exact (IH _ _ _ H).
Qed.

Lemma JSON_parse_valid text v : JSON_parse text = Some v -> JSON_valid text = true.
Proof. apply valid_run_of_parse_run. Qed.

Lemma JSON_invalid_no_parse text : JSON_valid text = false -> JSON_parse text = None.
Proof.
  intros H. destruct (JSON_parse text) as [v|] eqn:Hv; [|reflexivity].
  rewrite (JSON_parse_valid text v Hv) in H. discriminate.
Qed.

Lemma modelled_stringify v : modelled (JSON_stringify v) = true.
Proof. unfold modelled. rewrite JSON_parse_stringify. apply orb_true_r. Qed.

(** On a text the model reads, a failure of [JSON_parse] is a text that is
    not JSON. *)
Lemma modelled_no_parse text :
  modelled text = true -> JSON_parse text = None -> JSON_valid text = false.
Proof.
  unfold modelled. intros H Hp. rewrite Hp, orb_false_r in H.
  apply negb_true_iff in H. exact H.
Qed.

(** ** Objects *)

Lemma lookup_last_app k l v :
  lookup_last k (l ++ [(k, v)]) = Some v.
Proof.
  induction l as [|[k' v'] l IH]; simpl.
  - rewrite String.eqb_refl. reflexivity.
  - rewrite IH. reflexivity.
Qed.

Lemma lookup_last_set_member k v l : lookup_last k (set_member k v l) = Some v.
Proof. apply lookup_last_app. Qed.

Lemma lookup_last_app_ne k k' l v :
  k' <> k -> lookup_last k (l ++ [(k', v)]) = lookup_last k l.
Proof.
  intros Hne. induction l as [|[k1 v1] l IH]; simpl.
  - apply String.eqb_neq in Hne. rewrite Hne. reflexivity.
  - rewrite IH. reflexivity.
Qed.

Lemma lookup_last_filter_ne k k' l :
  k' <> k ->
  lookup_last k (List.filter (fun kv => negb (String.eqb kv.1 k')) l) = lookup_last k l.
Proof.
  intros Hne. induction l as [|[k1 v1] l IH]; simpl; [reflexivity|].
  destruct (String.eqb_spec k1 k') as [-> | Hk1]; simpl.
  - rewrite IH. apply String.eqb_neq in Hne. rewrite Hne.
    destruct (lookup_last k l); reflexivity.
  - rewrite IH. reflexivity.
Qed.

Lemma lookup_last_set_member_ne k k' v l :
  k' <> k -> lookup_last k (set_member k' v l) = lookup_last k l.
Proof.
  intros Hne. unfold set_member.
  rewrite lookup_last_app_ne by done. apply lookup_last_filter_ne. done.
Qed.

Lemma js_get_with_state parsed ms :
  js_get (with_state parsed ms) "state" = Ok (Some (JObj ms)).
Proof. unfold with_state. simpl. rewrite lookup_last_set_member. reflexivity. Qed.

(** ** The three stages of [getToken] *)

Ltac unfold_m :=
  unfold try_catch, bind, ret, throw, lift, parse, getItem, setItem, removeItem,
    typeof_window, location_pathname, assign_href, getState in *.

Lemma token_from_store_eq w :
  ApiClient.token_from_store w =
  match record_member w "token" with
  | Ok (Some t) =>
      if truthy (Some t)
      then (Ok (Some t), with_storage (insert "auth_token" (js_to_string t)) w)
      else (Ok None, w)
  | _ => (Ok None, w)
  end.
Proof.
  unfold ApiClient.token_from_store, record_member. unfold_m.
  destruct (localStorage w !! "auth-storage") as [text|]; [|reflexivity].
  destruct (truthy_str (Some text)); [|reflexivity].
  destruct (JSON_parse text) as [parsed|]; [|reflexivity].
  unfold_m. destruct (js_get parsed "state") as [st|e]; [|reflexivity].
  destruct (js_get_opt st "token") as [t|]; [|reflexivity].
  destruct (truthy (Some t)); reflexivity.
Qed.

Lemma token_from_accessor_eq w :
  ApiClient.token_from_accessor w =
  match getAuthToken w with
  | Some (Some t) =>
      if truthy_str (Some t)
      then (Ok (Some (JStr t)), with_storage (insert "auth_token" t) w)
      else (Ok None, w)
  | _ => (Ok None, w)
  end.
Proof.
  unfold ApiClient.token_from_accessor.
  destruct (getAuthToken w) as [[t|]|]; reflexivity.
Qed.

(** The migration writes at most the key [auth-storage] and never throws. *)
Lemma migrate_eq t w :
  ApiClient.migrate t w =
  match localStorage w !! "auth-storage" with
  | Some text =>
      if truthy_str (Some text) then
        match JSON_parse text with
        | Some parsed =>
            match js_get parsed "state" with
            | Ok st =>
                if negb (truthy (js_get_opt st "token")) then
                  (Ok tt,
                   with_storage
                     (insert "auth-storage"
                        (JSON_stringify
                           (with_state parsed
                              (set_member "token" (JStr t) (spread st))))) w)
                else (Ok tt, w)
            | Throw _ => (Ok tt, w)
            end
        | None => (Ok tt, w)
        end
      else
        (Ok tt,
         with_storage
           (insert "auth-storage" (JSON_stringify (fresh_record (JStr t)))) w)
  | None =>
      (Ok tt,
       with_storage
         (insert "auth-storage" (JSON_stringify (fresh_record (JStr t)))) w)
  end.
Proof.
  unfold ApiClient.migrate. unfold_m.
  destruct (localStorage w !! "auth-storage") as [text|]; [|reflexivity].
  destruct (truthy_str (Some text)); [|reflexivity].
  destruct (JSON_parse text) as [parsed|]; [|reflexivity].
  unfold_m. destruct (js_get parsed "state") as [st|e]; [|reflexivity].
  destruct (negb (truthy (js_get_opt st "token"))); reflexivity.
Qed.

Lemma migrate_ok t w : (ApiClient.migrate t w).1 = Ok tt.
Proof.
  rewrite migrate_eq.
  repeat (match goal with |- context [match ?x with _ => _ end] => destruct x end);
    reflexivity.
Qed.

Lemma migrate_frame t w :
  window_defined (ApiClient.migrate t w).2 = window_defined w
  /\ localStorage (ApiClient.migrate t w).2 !! "auth_token"
     = localStorage w !! "auth_token"
  /\ getAuthToken (ApiClient.migrate t w).2 = getAuthToken w.
Proof.
  rewrite migrate_eq.
  repeat (match goal with |- context [match ?x with _ => _ end] => destruct x end);
    simpl; rewrite ?lookup_insert_ne by done; auto.
Qed.

Lemma token_from_legacy_eq w :
  ApiClient.token_from_legacy w =
  match localStorage w !! "auth_token" with
  | Some t =>
      if truthy_str (Some t)
      then (Ok (Some (JStr t)), (ApiClient.migrate t w).2)
      else (Ok None, w)
  | None => (Ok None, w)
  end.
Proof.
  unfold ApiClient.token_from_legacy. unfold_m.
  destruct (localStorage w !! "auth_token") as [t|]; [|reflexivity].
  destruct (truthy_str (Some t)); [|reflexivity].
  pose proof (migrate_ok t w) as H.
  destruct (ApiClient.migrate t w) as [[[]|e] w']; simpl in *; [reflexivity | discriminate].
Qed.

Lemma getToken_eq w :
  ApiClient.getToken w =
  if negb (window_defined w) then (Ok None, w)
  else
    match ApiClient.token_from_store w with
    | (Ok (Some t), w1) => (Ok (Some t), w1)
    | (Ok None, w1) =>
        match ApiClient.token_from_accessor w1 with
        | (Ok (Some t), w2) => (Ok (Some t), w2)
        | (Ok None, w2) => ApiClient.token_from_legacy w2
        | (Throw e, w2) => (Throw e, w2)
        end
    | (Throw e, w1) => (Throw e, w1)
    end.
Proof.
  unfold ApiClient.getToken. unfold_m.
  destruct (window_defined w); simpl; [|reflexivity].
  destruct (ApiClient.token_from_store w) as [[[t|]|e] w1]; try reflexivity.
  destruct (ApiClient.token_from_accessor w1) as [[[t|]|e] w2]; reflexivity.
Qed.

Lemma stage_store_none w :
  (ApiClient.token_from_store w).1 = Ok None ->
  ApiClient.token_from_store w = (Ok None, w).
Proof.
  rewrite token_from_store_eq.
  destruct (record_member w "token") as [[t|]|e]; try reflexivity.
  destruct (truthy (Some t)); [discriminate | reflexivity].
Qed.

Lemma stage_accessor_none w :
  (ApiClient.token_from_accessor w).1 = Ok None ->
  ApiClient.token_from_accessor w = (Ok None, w).
Proof.
  rewrite token_from_accessor_eq.
  destruct (getAuthToken w) as [[t|]|]; try reflexivity.
  destruct (truthy_str (Some t)); [discriminate | reflexivity].
Qed.







(** ** A structured record that is not valid JSON *)

Lemma corrupt_record_no_token w text :
  localStorage w !! "auth-storage" = Some text ->
  JSON_parse text = None ->
  ApiClient.token_from_store w = (Ok None, w).
Proof.
  intros Hget Hparse. rewrite token_from_store_eq. unfold record_member.
  rewrite Hget, Hparse. destruct (truthy_str (Some text)); reflexivity.
Qed.

(** C3, as the code has it: with a structured record that is not valid JSON,
    [getToken] does not throw; it returns the token of the registered
    accessor when there is one and it is not empty, otherwise the value of
    the legacy key when that key is present and not empty, otherwise [null]. *)
Theorem getToken_corrupt_record w text :
  window_defined w = true ->
  localStorage w !! "auth-storage" = Some text ->
  JSON_valid text = false ->
  (ApiClient.getToken w).1 =
  Ok match getAuthToken w with
     | Some (Some a) => if truthy_str (Some a) then Some (JStr a) else legacy_token w
     | _ => legacy_token w
     end.
Proof.
  intros Hwin Hget Hbad. pose proof (JSON_invalid_no_parse text Hbad) as Hparse.
  rewrite getToken_eq, Hwin. simpl.
  rewrite (corrupt_record_no_token w text Hget Hparse).
  rewrite token_from_accessor_eq.
  assert (Hlegacy : (ApiClient.token_from_legacy w).1 = Ok (legacy_token w)).
  { rewrite token_from_legacy_eq. unfold legacy_token.
    destruct (localStorage w !! "auth_token") as [l|]; [|reflexivity].
    destruct (truthy_str (Some l)); reflexivity. }
  destruct (getAuthToken w) as [[a|]|]; try exact Hlegacy.
  cbn [truthy_str]. destruct (negb (String.eqb a "")); [reflexivity | exact Hlegacy].
Qed.

Lemma getToken_corrupt_record_witness :
  let w := browser [("auth-storage", "{bad"); ("auth_token", "abc")] signed_out None None in
  (ApiClient.getToken w).1 = Ok (Some (JStr "abc")).
Proof.
  intros w.
  rewrite (getToken_corrupt_record w "{bad");
    [reflexivity | reflexivity | reflexivity | reflexivity].
Defined.

(** C3 fails as stated: the structured record is not valid JSON and the
    legacy key is absent, yet [getToken] returns the token the registered
    accessor holds, not [null]. *)
Lemma getToken_corrupt_record_counterexample :
  let w := browser [("auth-storage", "{bad")]
                   (mkAuthState None (Some "abc") false)
                   (Some (Some "abc")) (Some ClearByLogout) in
  localStorage w !! "auth-storage" = Some "{bad"
  /\ JSON_valid "{bad" = false
  /\ localStorage w !! "auth_token" = None
  /\ (ApiClient.getToken w).1 = Ok (Some (JStr "abc")).
Proof. vm_compute. repeat split. Qed.

(** ** Migration of a token found under the legacy key *)

Lemma read_back_member w parsed t k :
  localStorage w !! "auth-storage" = Some (JSON_stringify parsed) ->
  truthy_str (Some (JSON_stringify parsed)) = true ->
  js_get parsed "state" = Ok (Some (JObj t)) ->
  record_member w k = Ok (lookup_last k t).
Proof.
  intros Hget Htruthy Hstate. unfold record_member.
  rewrite Hget, Htruthy, JSON_parse_stringify, Hstate. reflexivity.
Qed.

Lemma migrate_then_store w t :
  truthy_str (Some t) = true ->
  (ApiClient.token_from_store w).1 = Ok None ->
  migratable w = true ->
  (ApiClient.token_from_store (ApiClient.migrate t w).2).1 = Ok (Some (JStr t)).
Proof.
  intros Ht Hnone Hmig.
  assert (Hfresh : forall m,
    (ApiClient.token_from_store
       (with_storage (insert "auth-storage"
                        (JSON_stringify (fresh_record (JStr t)))) m)).1
    = Ok (Some (JStr t))).
  { intros m. rewrite token_from_store_eq.
    rewrite (read_back_member _ (fresh_record (JStr t))
               [("token", JStr t); ("user", JNull)]);
      [| simpl; apply lookup_insert_eq | reflexivity | reflexivity].
    cbn [lookup_last]. cbn. cbn in Ht. rewrite Ht. reflexivity. }
  rewrite token_from_store_eq in Hnone. unfold migratable in Hmig.
  rewrite migrate_eq. unfold record_member in Hnone.
  destruct (localStorage w !! "auth-storage") as [text|]; [|apply Hfresh].
  destruct (truthy_str (Some text)); [|apply Hfresh].
  destruct (JSON_parse text) as [parsed|]; [|discriminate].
  destruct (js_get parsed "state") as [st|e] eqn:Hst.
  - destruct (truthy (js_get_opt st "token")) eqn:Htok.
    + destruct (js_get_opt st "token"); [|discriminate Htok].
      rewrite Htok in Hnone. discriminate Hnone.
    + simpl. rewrite token_from_store_eq.
      rewrite (read_back_member _
                 (with_state parsed (set_member "token" (JStr t) (spread st)))
                 (set_member "token" (JStr t) (spread st)));
        [| simpl; apply lookup_insert_eq | reflexivity | apply js_get_with_state].
      rewrite lookup_last_set_member. cbn. cbn in Ht. rewrite Ht. reflexivity.
  - destruct parsed; try discriminate Hst. discriminate Hmig.
Qed.

Lemma migrate_not_migratable w t :
  migratable w = false -> ApiClient.migrate t w = (Ok tt, w).
Proof.
  intros Hmig. rewrite migrate_eq. unfold migratable in Hmig.
  destruct (localStorage w !! "auth-storage") as [text|]; [|discriminate].
  destruct (truthy_str (Some text)); [|discriminate].
  destruct (JSON_parse text) as [[]|]; try discriminate; reflexivity.
Qed.

Lemma getToken_from_legacy w t :
  window_defined w = true ->
  (ApiClient.token_from_store w).1 = Ok None ->
  (ApiClient.token_from_accessor w).1 = Ok None ->
  localStorage w !! "auth_token" = Some t ->
  truthy_str (Some t) = true ->
  ApiClient.getToken w = (Ok (Some (JStr t)), (ApiClient.migrate t w).2).
Proof.
  intros Hwin Hstore Hacc Hleg Ht.
  rewrite getToken_eq, Hwin. simpl.
  rewrite (stage_store_none w Hstore), (stage_accessor_none w Hacc).
  rewrite token_from_legacy_eq, Hleg, Ht. reflexivity.
Qed.

Lemma getToken_from_store w t :
  window_defined w = true ->
  (ApiClient.token_from_store w).1 = Ok (Some t) ->
  (ApiClient.getToken w).1 = Ok (Some t).
Proof.
  intros Hwin Hstore. rewrite getToken_eq, Hwin. simpl.
  destruct (ApiClient.token_from_store w) as [[[t'|]|e] w1]; simpl in *;
    congruence.
Qed.

(** C4, as the code has it, for a structured record whose text the model
    reads as [JSON.parse] does: when [getToken] falls back to the legacy key and
    reads a token [t] there, it returns [t]; if the structured record is
    absent or empty, or parses to a value other than [null], it has by then
    written [t] into that record, and the call that follows finds [t] in the
    record; if the record is not valid JSON, or is [null], the call leaves
    the storage as it was and the call that follows finds no token in the
    record and returns [t] from the legacy key again. *)
Theorem getToken_migrates_legacy_token w t :
  window_defined w = true ->
  record_modelled w = true ->
  (ApiClient.token_from_store w).1 = Ok None ->
  (ApiClient.token_from_accessor w).1 = Ok None ->
  localStorage w !! "auth_token" = Some t ->
  truthy_str (Some t) = true ->
  let w1 := (ApiClient.getToken w).2 in
  (ApiClient.getToken w).1 = Ok (Some (JStr t))
  /\ (if migratable w
      then (ApiClient.token_from_store w1).1 = Ok (Some (JStr t))
      else localStorage w1 = localStorage w
           /\ (ApiClient.token_from_store w1).1 = Ok None)
  /\ (ApiClient.getToken w1).1 = Ok (Some (JStr t)).
Proof.
  intros Hwin _ Hstore Hacc Hleg Ht w1. subst w1.
  rewrite (getToken_from_legacy w t) by done. simpl.
  split; [reflexivity|].
  destruct (migratable w) eqn:Hmig.
  - pose proof (migrate_then_store w t Ht Hstore Hmig) as Hnext.
    split; [exact Hnext|].
    apply getToken_from_store; [|exact Hnext].
    destruct (migrate_frame t w) as (-> & _ & _). exact Hwin.
  - rewrite (migrate_not_migratable w t Hmig). simpl.
    split; [split; [reflexivity | exact Hstore]|].
    rewrite (getToken_from_legacy w t) by done. reflexivity.
Qed.

Lemma getToken_migrates_legacy_token_witness :
  let w := browser [("auth_token", "abc")] signed_out None None in
  (ApiClient.token_from_store (ApiClient.getToken w).2).1 = Ok (Some (JStr "abc")).
Proof.
  intros w.
  pose proof (getToken_migrates_legacy_token w "abc"
                eq_refl eq_refl eq_refl eq_refl eq_refl eq_refl) as H.
  exact (proj1 (proj2 H)).
Defined.

(** C4 fails as stated: the structured record is not valid JSON, [getToken]
    reads the token from the legacy key, and the record is as it was after
    the call, so the call that follows finds no token in it. *)
Lemma getToken_migrates_legacy_token_counterexample :
  let w := browser [("auth-storage", "{bad"); ("auth_token", "abc")]
                   signed_out None None in
  let w1 := (ApiClient.getToken w).2 in
  JSON_valid "{bad" = false
  /\ (ApiClient.getToken w).1 = Ok (Some (JStr "abc"))
  /\ localStorage w1 !! "auth-storage" = Some "{bad"
  /\ (ApiClient.token_from_store w1).1 = Ok None.
Proof. vm_compute. repeat split. Qed.

(** ** What [getToken] writes *)




(** ** The session manager: [setToken] and [logout] of the store *)

Lemma setToken_eq t w :
  useAuthStore.setToken t w =
  (Ok tt,
   mkWorld (window_defined w)
     (if window_defined w
      then
        let ls := <["auth-storage" :=
                     JSON_stringify
                       (persisted (mkAuthState (user (auth w)) t
                                               (isAuthenticated (auth w))))]>
                    (localStorage w) in
        match mirrored t with
        | Some t' => <["auth_token" := t']> ls
        | None => delete "auth_token" ls
        end
      else localStorage w)
     (pathname w) (href_log w)
     (mkAuthState (user (auth w)) t (isAuthenticated (auth w)))
     (getAuthToken w) (clearAuthToken w)).
Proof.
  unfold useAuthStore.setToken, zustand_set, with_storage. unfold_m. simpl.
  destruct (window_defined w); [|reflexivity].
  destruct t as [t|]; [|reflexivity]. simpl.
  destruct (negb (String.eqb t "")); reflexivity.
Qed.

Lemma logout_eq w :
  useAuthStore.logout w =
  (Ok tt,
   mkWorld (window_defined w)
     (if window_defined w
      then delete "auth_token"
             (<["auth-storage" := JSON_stringify (persisted signed_out)]>
                (localStorage w))
      else localStorage w)
     (pathname w) (href_log w) signed_out (getAuthToken w) (clearAuthToken w)).
Proof.
  unfold useAuthStore.logout, zustand_set, with_storage. unfold_m. simpl.
  destruct (window_defined w); reflexivity.
Qed.

Lemma persisted_token a :
  js_get (persisted a) "state"
  = Ok (Some (JObj [("token", json_of_token (token a)); ("user", json_of_user (user a))])).
Proof. reflexivity. Qed.

Lemma record_member_persisted w a k :
  localStorage w !! "auth-storage" = Some (JSON_stringify (persisted a)) ->
  record_member w k
  = Ok (lookup_last k [("token", json_of_token (token a));
                       ("user", json_of_user (user a))]).
Proof.
  intros Hget. unfold record_member. rewrite Hget.
  change (truthy_str (Some (JSON_stringify (persisted a)))) with true.
  cbv iota. rewrite JSON_parse_stringify, persisted_token. reflexivity.
Qed.

(** *** [setToken] of the transport client *)

Lemma ApiClient_setToken_eq t w :
  ApiClient.setToken t w =
  if negb (window_defined w) then (Ok tt, w)
  else
    match getAuthToken w with
    | Some _ =>
        match localStorage w !! "auth-storage" with
        | Some text =>
            if truthy_str (Some text) then
              match JSON_parse text with
              | Some parsed =>
                  match js_get parsed "state" with
                  | Ok st =>
                      (Ok tt,
                       with_storage
                         (insert "auth-storage"
                            (JSON_stringify
                               (with_state parsed
                                  (set_member "token" (JStr t) (spread st))))) w)
                  | Throw _ => (Ok tt, with_storage (insert "auth_token" t) w)
                  end
              | None => (Ok tt, with_storage (insert "auth_token" t) w)
              end
            else
              (Ok tt,
               with_storage
                 (insert "auth-storage" (JSON_stringify (fresh_record (JStr t)))) w)
        | None =>
            (Ok tt,
             with_storage
               (insert "auth-storage" (JSON_stringify (fresh_record (JStr t)))) w)
        end
    | None => (Ok tt, with_storage (insert "auth_token" t) w)
    end.
Proof.
  unfold ApiClient.setToken. unfold_m.
  destruct (window_defined w); cbn [negb]; [|reflexivity].
  destruct (getAuthToken w) as [g|]; [|reflexivity].
  destruct (localStorage w !! "auth-storage") as [text|]; [|reflexivity].
  destruct (truthy_str (Some text)); [|reflexivity].
  destruct (JSON_parse text) as [parsed|]; [|reflexivity].
  unfold_m. destruct (js_get parsed "state") as [st|e]; reflexivity.
Qed.

(** [ApiClient.setToken] never throws and writes to [localStorage] only. *)
Lemma ApiClient_setToken_storage t w :
  exists ls, ApiClient.setToken t w = (Ok tt, with_storage (fun _ => ls) w).
Proof.
  rewrite ApiClient_setToken_eq.
  assert (Hsame : with_storage (fun _ => localStorage w) w = w) by (destruct w; reflexivity).
  repeat (match goal with |- context [match ?x with _ => _ end] => destruct x end);
    try (exists (localStorage w); rewrite Hsame; reflexivity);
    eexists; reflexivity.
Qed.

Lemma ApiClient_setToken_record w t :
  window_defined w = true ->
  getAuthToken w <> None ->
  migratable w = true ->
  exists ls,
    ApiClient.setToken t w = (Ok tt, with_storage (fun _ => ls) w)
    /\ ls !! "auth_token" = localStorage w !! "auth_token"
    /\ record_member (with_storage (fun _ => ls) w) "token" = Ok (Some (JStr t)).
Proof.
  intros Hwin Hreg Hmig.
  rewrite ApiClient_setToken_eq, Hwin. cbn [negb].
  destruct (getAuthToken w) as [g|]; [clear Hreg | done].
  assert (Hfresh :
    exists ls,
      (Ok tt, with_storage
                (insert "auth-storage" (JSON_stringify (fresh_record (JStr t)))) w)
      = (Ok tt, with_storage (fun _ => ls) w)
      /\ ls !! "auth_token" = localStorage w !! "auth_token"
      /\ record_member (with_storage (fun _ => ls) w) "token" = Ok (Some (JStr t))).
  { eexists. split; [reflexivity|]. split; [apply lookup_insert_ne; done|].
    rewrite (read_back_member _ (fresh_record (JStr t))
               [("token", JStr t); ("user", JNull)]);
      [reflexivity | simpl; apply lookup_insert_eq | reflexivity | reflexivity]. }
  unfold migratable in Hmig.
  destruct (localStorage w !! "auth-storage") as [text|]; [|exact Hfresh].
  destruct (truthy_str (Some text)); [|exact Hfresh].
  destruct (JSON_parse text) as [parsed|]; [|discriminate].
  destruct (js_get parsed "state") as [st|e] eqn:Hst;
    [|destruct parsed; discriminate].
  eexists. split; [reflexivity|]. split; [apply lookup_insert_ne; done|].
  rewrite (read_back_member _
             (with_state parsed (set_member "token" (JStr t) (spread st)))
             (set_member "token" (JStr t) (spread st)));
    [| simpl; apply lookup_insert_eq | reflexivity | apply js_get_with_state].
  rewrite lookup_last_set_member. reflexivity.
Qed.

(** Otherwise it writes the legacy key, and that key alone. *)
Lemma ApiClient_setToken_legacy w t :
  window_defined w = true ->
  registered w && migratable w = false ->
  ApiClient.setToken t w = (Ok tt, with_storage (insert "auth_token" t) w).
Proof.
  intros Hwin Hno. rewrite ApiClient_setToken_eq, Hwin. cbn [negb].
  unfold registered, migratable in Hno.
  destruct (getAuthToken w) as [g|]; [|reflexivity]. cbn [andb] in Hno.
  destruct (localStorage w !! "auth-storage") as [text|]; [|discriminate].
  destruct (truthy_str (Some text)); [|discriminate].
  destruct (JSON_parse text) as [[]|]; try discriminate; reflexivity.
Qed.

(** *** Sequences of calls *)

Lemma session_step_window w o :
  window_defined (session_step w o) = window_defined w.
Proof.
  destruct o as [t| |t]; simpl; [rewrite setToken_eq | rewrite logout_eq |];
    try reflexivity.
  destruct (ApiClient_setToken_storage t w) as [ls ->]. reflexivity.
Qed.

Lemma session_run_window ops w :
  window_defined (session_run ops w) = window_defined w.
Proof.
  revert w. induction ops as [|o ops IH]; intros w; [reflexivity|].
  simpl. unfold session_run in IH. rewrite IH. apply session_step_window.
Qed.

Lemma session_step_consistent w o :
  window_defined w = true ->
  store_call o = true ->
  let w' := session_step w o in
  localStorage w' !! "auth_token" = mirrored (token (auth w'))
  /\ localStorage w' !! "auth-storage" = Some (JSON_stringify (persisted (auth w'))).
Proof.
  intros Hwin Ho. destruct o as [t| |t]; [| |discriminate]; simpl.
  - rewrite setToken_eq, Hwin. simpl.
    destruct (mirrored t) as [t'|]; simpl.
    + rewrite lookup_insert_eq, lookup_insert_ne by done.
      rewrite lookup_insert_eq. done.
    + rewrite lookup_delete_eq, lookup_delete_ne by done.
      rewrite lookup_insert_eq. done.
  - rewrite logout_eq, Hwin. simpl.
    rewrite lookup_delete_eq, lookup_delete_ne by done.
    rewrite lookup_insert_eq. done.
Qed.

(** Every call leaves a record the model reads. *)
Lemma session_step_modelled w o :
  window_defined w = true ->
  record_modelled w = true ->
  record_modelled (session_step w o) = true.
Proof.
  intros Hwin Hm.
  destruct (store_call o) eqn:Ho.
  - destruct (session_step_consistent w o Hwin Ho) as [_ Hrec].
    unfold record_modelled. rewrite Hrec. apply modelled_stringify.
  - destruct o as [| |t]; try discriminate. cbn [session_step].
    rewrite ApiClient_setToken_eq, Hwin. cbn [negb].
    assert (Hrecord : forall v,
              record_modelled (with_storage (insert "auth-storage" (JSON_stringify v)) w)
              = true).
    { intros v. unfold record_modelled. cbn [with_storage localStorage].
      rewrite lookup_insert_eq. apply modelled_stringify. }
    assert (Hlegacy :
              record_modelled (with_storage (insert "auth_token" t) w) = true).
    { unfold record_modelled in *. cbn [with_storage localStorage].
      rewrite lookup_insert_ne by discriminate. exact Hm. }
    destruct (getAuthToken w); [|exact Hlegacy].
    destruct (localStorage w !! "auth-storage") as [text|]; [|apply Hrecord].
    destruct (truthy_str (Some text)); [|apply Hrecord].
    destruct (JSON_parse text) as [parsed|]; [|exact Hlegacy].
    destruct (js_get parsed "state"); [apply Hrecord | exact Hlegacy].
Qed.

Lemma session_run_modelled ops : forall w,
  window_defined w = true ->
  record_modelled w = true ->
  record_modelled (session_run ops w) = true.
Proof.
  induction ops as [|o ops IH]; intros w Hwin Hm; [exact Hm|].
  apply IH; [rewrite session_step_window; exact Hwin|].
  apply session_step_modelled; assumption.
Qed.

(** C2, as the code has it: in the browser, in any sequence of calls of
    [setToken] and [logout] of the store and of [setToken] of the transport
    client, after each call of the store the legacy key [auth_token] is
    present exactly when the token of the session record is neither [null]
    nor the empty string, and then holds that token, and the record
    persisted under [auth-storage] carries the token of the store.  A call
    of [setToken] of the transport client leaves the store as it is and
    writes one place only: with an accessor registered and a record that is
    absent, empty, or parses to a value other than [null], the token goes
    into the record and no other key changes; otherwise it goes under the
    legacy key and no other key changes.  The record stays one the model
    reads throughout ([session_run_modelled]). *)
Theorem mirror_consistency ops o w :
  window_defined w = true ->
  record_modelled w = true ->
  let w0 := session_run ops w in
  let w' := session_run (ops ++ [o]) w in
  match o with
  | ClientSetToken t =>
      auth w' = auth w0
      /\ if registered w0 && migratable w0
         then record_member w' "token" = Ok (Some (JStr t))
              /\ forall k, k <> "auth-storage" ->
                           localStorage w' !! k = localStorage w0 !! k
         else localStorage w' = <["auth_token" := t]> (localStorage w0)
  | _ =>
      localStorage w' !! "auth_token" = mirrored (token (auth w'))
      /\ record_member w' "token" = Ok (Some (json_of_token (token (auth w'))))
  end.
Proof.
  intros Hwin _ w0 w'. subst w0 w'. unfold session_run. rewrite fold_left_app.
  cbn [fold_left]. fold (session_run ops w).
  pose proof (session_run_window ops w) as Hwin0. rewrite Hwin in Hwin0.
  set (w0 := session_run ops w) in *.
  assert (Hstore : forall o', store_call o' = true ->
            localStorage (session_step w0 o') !! "auth_token"
            = mirrored (token (auth (session_step w0 o')))
            /\ record_member (session_step w0 o') "token"
               = Ok (Some (json_of_token (token (auth (session_step w0 o')))))).
  { intros o' Ho'.
    destruct (session_step_consistent w0 o' Hwin0 Ho') as [Hmirror Hrecord].
    split; [exact Hmirror|].
    rewrite (record_member_persisted _ _ _ Hrecord). reflexivity. }
  destruct o as [t| |t];
    [exact (Hstore (SetToken t) eq_refl) | exact (Hstore Logout eq_refl) |].
  cbn [session_step].
  destruct (registered w0 && migratable w0) eqn:Hreg.
  - apply andb_prop in Hreg as [Hreg Hmig].
    destruct (ApiClient_setToken_record w0 t Hwin0) as (ls & Heq & _ & Hrec);
      [unfold registered in Hreg; destruct (getAuthToken w0); [discriminate | discriminate]
      | exact Hmig |].
    rewrite Heq. cbn [snd]. split; [reflexivity|]. split; [exact Hrec|].
    intros k Hk. clear Hrec.
    rewrite ApiClient_setToken_eq, Hwin0 in Heq. cbn [negb] in Heq.
    unfold registered in Hreg. unfold migratable in Hmig.
    destruct (getAuthToken w0); [|discriminate].
    destruct (localStorage w0 !! "auth-storage") as [text|];
      [destruct (truthy_str (Some text));
       [destruct (JSON_parse text) as [parsed|]; [|discriminate];
        destruct (js_get parsed "state") eqn:Hst;
        [|destruct parsed; discriminate]|]|];
      injection Heq as Heq; apply (f_equal (fun m => m !! k)) in Heq;
      cbn [with_storage localStorage] in *; rewrite <- Heq;
      apply lookup_insert_ne; congruence.
  - rewrite (ApiClient_setToken_legacy w0 t Hwin0 Hreg). split; reflexivity.
Qed.

Lemma mirror_consistency_witness :
  let w := session_run [SetToken (Some "abc"); ClientSetToken "old"; Logout;
                        SetToken (Some "xyz")]
                       (browser [] signed_out None None) in
  localStorage w !! "auth_token" = Some "xyz"
  /\ record_member w "token" = Ok (Some (JStr "xyz")).
Proof.
  exact (mirror_consistency [SetToken (Some "abc"); ClientSetToken "old"; Logout]
           (SetToken (Some "xyz"))
           (browser [] signed_out None None) eq_refl eq_refl).
Defined.

(** C2 fails as stated, twice.  After [setToken("")] of the store the token
    of the session record is the empty string, which is not [null], and the
    legacy key is absent.  And after [setToken("abc")] of the store,
    [setToken("xyz")] of the transport client, the accessors of
    [auth-store.ts] being registered, puts [xyz] into the record and leaves
    [abc] under the legacy key. *)
Lemma mirror_consistency_counterexample :
  let w := session_run [SetToken (Some "")] (browser [] signed_out None None) in
  let v := session_run [SetToken (Some "abc"); ClientSetToken "xyz"]
                       (auth_store_init (browser [] signed_out None None)).2 in
  (token (auth w) = Some ""
   /\ record_member w "token" = Ok (Some (JStr ""))
   /\ localStorage w !! "auth_token" = None)
  /\ (record_member v "token" = Ok (Some (JStr "xyz"))
      /\ localStorage v !! "auth_token" = Some "abc").
Proof. vm_compute. repeat split. Qed.

(** C6: [logout] never throws; two calls in succession leave the world (the
    store, the record under [auth-storage], the legacy key and all the rest)
    as one call leaves it; and where nobody is signed in the call changes
    nothing. *)
Theorem logout_idempotent :
  (forall w, (useAuthStore.logout w).1 = Ok tt)
  /\ (forall w, (useAuthStore.logout (useAuthStore.logout w).2).2
                = (useAuthStore.logout w).2)
  /\ (forall w, logged_out w -> (useAuthStore.logout w).2 = w).
Proof.
  split; [|split].
  - intros w. rewrite logout_eq. reflexivity.
  - intros w. rewrite !logout_eq. simpl.
    destruct (window_defined w); [|reflexivity].
    f_equal. apply map_eq. intros k.
    destruct (decide (k = "auth_token")) as [->|Hk1].
    { rewrite !lookup_delete_eq. reflexivity. }
    rewrite !lookup_delete_ne by done.
    destruct (decide (k = "auth-storage")) as [->|Hk2].
    { rewrite !lookup_insert_eq. reflexivity. }
    rewrite !lookup_insert_ne by done.
    rewrite lookup_delete_ne by done.
    rewrite lookup_insert_ne by done. reflexivity.
  - intros w (Hauth & Hleg & Hrec). rewrite logout_eq. simpl.
    destruct w as [win ls path hrefs a g c]. simpl in *. subst a.
    f_equal. destruct win; [|reflexivity].
    apply map_eq. intros k.
    destruct (decide (k = "auth_token")) as [->|Hk1].
    { rewrite lookup_delete_eq. symmetry. exact Hleg. }
    rewrite lookup_delete_ne by done.
    destruct (decide (k = "auth-storage")) as [->|Hk2].
    { rewrite lookup_insert_eq. symmetry. apply Hrec. reflexivity. }
    rewrite lookup_insert_ne by done. reflexivity.
Qed.

Lemma logout_idempotent_witness :
  let w := (useAuthStore.logout
              (browser [("auth_token", "abc")]
                       (mkAuthState None (Some "abc") true) None None)).2 in
  (useAuthStore.logout w).2 = w.
Proof.
  intros w. apply (proj2 (proj2 logout_idempotent)).
  unfold logged_out. split; [reflexivity|]. split; [reflexivity|].
  intros _. reflexivity.
Defined.

(** ** The response interceptor *)

Lemma run_clear_eq c w :
  run_clear c w =
  (Ok tt,
   mkWorld (window_defined w)
     (if window_defined w
      then delete "auth_token"
             (<["auth-storage" := JSON_stringify (persisted signed_out)]>
                (localStorage w))
      else localStorage w)
     (pathname w) (href_log w) signed_out (getAuthToken w) (clearAuthToken w)).
Proof.
  destruct c; unfold run_clear.
  - apply logout_eq.
  - unfold bind. rewrite setToken_eq.
    unfold useAuthStore.setUser, zustand_set. simpl.
    destruct (window_defined w); [|reflexivity].
    do 2 f_equal. apply map_eq. intros k.
    destruct (decide (k = "auth-storage")) as [->|Hk].
    + rewrite lookup_insert_eq, lookup_delete_ne by done.
      rewrite lookup_insert_eq. reflexivity.
    + rewrite lookup_insert_ne by done.
      destruct (decide (k = "auth_token")) as [->|Hk'].
      * rewrite !lookup_delete_eq. reflexivity.
      * rewrite !lookup_delete_ne by done. rewrite !lookup_insert_ne by done.
        reflexivity.
Qed.

(** The store module registers its accessors when it loads in the browser,
    and the interceptor finds them registered from then on. *)
Lemma auth_store_init_registers w :
  window_defined w = true ->
  clearAuthToken (auth_store_init w).2 = Some ClearByLogout
  /\ getAuthToken (auth_store_init w).2 = Some (token (auth w)).
Proof.
  intros Hwin. unfold auth_store_init, registerAuthTokenAccessors, sync_legacy.
  unfold_m. rewrite Hwin. simpl.
  destruct (token (auth w)) as [t|]; [|done].
  simpl. destruct (negb (String.eqb t "")); done.
Qed.

Lemma clearToken_eq w :
  window_defined w = true ->
  ApiClient.clearToken w
  = (Ok tt,
     with_storage (delete "auth_token")
       match clearAuthToken w with
       | Some c => (run_clear c w).2
       | None => w
       end).
Proof.
  intros Hwin. unfold ApiClient.clearToken. unfold_m. rewrite Hwin. cbn [negb].
  destruct (clearAuthToken w) as [c|]; [|reflexivity].
  rewrite run_clear_eq. reflexivity.
Qed.

Lemma clear_persisted_session_eq w :
  ApiClient.clear_persisted_session w =
  match localStorage w !! "auth-storage" with
  | Some text =>
      if truthy_str (Some text) then
        match JSON_parse text with
        | Some parsed =>
            match js_get parsed "state" with
            | Ok st =>
                (Ok tt,
                 with_storage
                   (insert "auth-storage"
                      (JSON_stringify
                         (with_state parsed
                            (set_member "user" JNull
                               (set_member "token" JNull (spread st)))))) w)
            | Throw _ => (Ok tt, w)
            end
        | None => (Ok tt, w)
        end
      else (Ok tt, w)
  | None => (Ok tt, w)
  end.
Proof.
  unfold ApiClient.clear_persisted_session. unfold_m.
  destruct (localStorage w !! "auth-storage") as [text|]; [|reflexivity].
  destruct (truthy_str (Some text)); [|reflexivity].
  destruct (JSON_parse text) as [parsed|]; [|reflexivity].
  unfold_m. destruct (js_get parsed "state") as [st|e]; reflexivity.
Qed.

(** Clearing the persisted record never throws and touches nothing but the
    key [auth-storage]. *)
Lemma clear_persisted_session_frame w :
  exists ls,
    ApiClient.clear_persisted_session w = (Ok tt, with_storage (fun _ => ls) w)
    /\ ls !! "auth_token" = localStorage w !! "auth_token".
Proof.
  rewrite clear_persisted_session_eq.
  assert (Hsame : with_storage (fun _ => localStorage w) w = w) by (destruct w; reflexivity).
  repeat (match goal with |- context [match ?x with _ => _ end] => destruct x end);
    try (exists (localStorage w); rewrite Hsame; done).
  eexists. split; [reflexivity|]. apply lookup_insert_ne. done.
Qed.

Lemma clear_persisted_session_after_logout w :
  localStorage w !! "auth-storage" = Some (JSON_stringify (persisted signed_out)) ->
  let w' := (ApiClient.clear_persisted_session w).2 in
  record_member w' "token" = Ok (Some JNull)
  /\ record_member w' "user" = Ok (Some JNull).
Proof.
  intros Hrec w'. subst w'. rewrite clear_persisted_session_eq, Hrec.
  change (truthy_str (Some (JSON_stringify (persisted signed_out)))) with true.
  cbv iota. rewrite JSON_parse_stringify, persisted_token. cbn [snd].
  split.
  - erewrite read_back_member;
      [| unfold with_storage; cbn [localStorage]; apply lookup_insert_eq
       | reflexivity | apply js_get_with_state].
    rewrite lookup_last_set_member_ne by done.
    rewrite lookup_last_set_member. reflexivity.
  - erewrite read_back_member;
      [| unfold with_storage; cbn [localStorage]; apply lookup_insert_eq
       | reflexivity | apply js_get_with_state].
    rewrite lookup_last_set_member. reflexivity.
Qed.

(** The interceptor's own clearing of the record: a record that parses to
    a value other than [null] has [null] for token and user afterwards. *)
Lemma clear_persisted_session_record w text parsed :
  localStorage w !! "auth-storage" = Some text ->
  JSON_parse text = Some parsed ->
  parsed <> JNull ->
  let w' := (ApiClient.clear_persisted_session w).2 in
  record_member w' "token" = Ok (Some JNull)
  /\ record_member w' "user" = Ok (Some JNull).
Proof.
  intros Hrec Hparse Hnull w'. subst w'.
  rewrite clear_persisted_session_eq, Hrec.
  assert (Htext : truthy_str (Some text) = true).
  { destruct text; [discriminate Hparse | reflexivity]. }
  rewrite Htext, Hparse.
  assert (Hst : exists st, js_get parsed "state" = Ok st).
  { destruct parsed; try (eexists; reflexivity). contradiction. }
  destruct Hst as [st Hst]. rewrite Hst. cbn [snd].
  split.
  - erewrite read_back_member;
      [| unfold with_storage; cbn [localStorage]; apply lookup_insert_eq
       | reflexivity | apply js_get_with_state].
    rewrite lookup_last_set_member_ne by done.
    rewrite lookup_last_set_member. reflexivity.
  - erewrite read_back_member;
      [| unfold with_storage; cbn [localStorage]; apply lookup_insert_eq
       | reflexivity | apply js_get_with_state].
    rewrite lookup_last_set_member. reflexivity.
Qed.

Lemma interceptor_401_eq w status :
  ApiClient.is_401 status = true ->
  window_defined w = true ->
  String.prefix "/auth/login" (pathname w) = false ->
  ApiClient.response_interceptor (ApiClient.Rejected status) w
  = (Ok tt,
     (assign_href "/auth/login"
        (ApiClient.clear_persisted_session (ApiClient.clearToken w).2).2).2).
Proof.
  intros H401 Hwin Hpath. unfold ApiClient.response_interceptor. rewrite H401.
  unfold bind at 1, typeof_window. unfold bind at 1, location_pathname.
  rewrite Hwin, Hpath. cbn [negb andb].
  unfold bind at 1. rewrite (clearToken_eq w Hwin). cbn [snd].
  unfold bind at 1.
  destruct (clear_persisted_session_frame
              (with_storage (delete "auth_token")
                 match clearAuthToken w with
                 | Some c => (run_clear c w).2
                 | None => w
                 end)) as (ls & -> & _).
  reflexivity.
Qed.

(** C1: a response with status 401 that arrives while the page is not the
    login view removes the legacy key and asks for the navigation to
    [/auth/login], and the interceptor itself rewrites the persisted record:
    a record that parses to a value other than [null] has [null] for token
    and for user afterwards, whether or not the store has registered its
    accessors.  With the accessors registered, as they are once the store
    module has loaded, the token and the user of the store are cleared too,
    and so is the record whatever it held; with none registered the store
    state is not touched and no record is made where there was none.  On the
    login view the interceptor changes nothing, and so it does for every
    response other than a 401. *)
Theorem unauthorized_response_tears_down :
  (forall w,
      window_defined w = true ->
      String.prefix "/auth/login" (pathname w) = false ->
      let r := ApiClient.response_interceptor (ApiClient.Rejected (Some 401)) w in
      r.1 = Ok tt
      /\ localStorage r.2 !! "auth_token" = None
      /\ href_log r.2 = "/auth/login" :: href_log w
      /\ (forall text parsed,
            localStorage w !! "auth-storage" = Some text ->
            JSON_parse text = Some parsed ->
            parsed <> JNull ->
            record_member r.2 "token" = Ok (Some JNull)
            /\ record_member r.2 "user" = Ok (Some JNull))
      /\ (clearAuthToken w <> None ->
          auth r.2 = signed_out
          /\ record_member r.2 "token" = Ok (Some JNull)
          /\ record_member r.2 "user" = Ok (Some JNull))
      /\ (clearAuthToken w = None ->
          auth r.2 = auth w
          /\ (localStorage w !! "auth-storage" = None ->
              localStorage r.2 !! "auth-storage" = None)))
  /\ (forall w r,
        String.prefix "/auth/login" (pathname w) = true ->
        ApiClient.response_interceptor r w = (Ok tt, w))
  /\ (forall w r,
        r <> ApiClient.Rejected (Some 401) ->
        ApiClient.response_interceptor r w = (Ok tt, w)).
Proof.
  split; [|split].
  - intros w Hwin Hpath r. subst r.
    rewrite (interceptor_401_eq w (Some 401) eq_refl Hwin Hpath).
    rewrite (clearToken_eq w Hwin). cbn [fst snd].
    set (w1 := with_storage (delete "auth_token")
                 match clearAuthToken w with
                 | Some c => (run_clear c w).2
                 | None => w
                 end).
    assert (Hleg1 : localStorage w1 !! "auth_token" = None).
    { unfold w1. simpl. apply lookup_delete_eq. }
    assert (Hcleared : clearAuthToken w <> None ->
              record_member (assign_href "/auth/login"
                               (ApiClient.clear_persisted_session w1).2).2 "token"
              = Ok (Some JNull)
              /\ record_member (assign_href "/auth/login"
                                  (ApiClient.clear_persisted_session w1).2).2 "user"
                 = Ok (Some JNull)).
    { intros Hreg. destruct (clearAuthToken w) as [c|] eqn:Hc; [|done].
      assert (Hrec1 : localStorage w1 !! "auth-storage"
                      = Some (JSON_stringify (persisted signed_out))).
      { unfold w1. rewrite run_clear_eq, Hwin. simpl.
        rewrite !lookup_delete_ne by done. apply lookup_insert_eq. }
      exact (clear_persisted_session_after_logout w1 Hrec1). }
    destruct (clear_persisted_session_frame w1) as (ls & Hcps & Hleg).
    split; [reflexivity|]. split; [|split; [|split; [|split]]].
    + rewrite Hcps. simpl. rewrite Hleg. exact Hleg1.
    + rewrite Hcps. simpl. unfold w1. destruct (clearAuthToken w) as [c|];
        [rewrite run_clear_eq|]; reflexivity.
    + intros text parsed Hrec Hparse Hnull.
      destruct (clearAuthToken w) as [c|] eqn:Hc; [apply Hcleared; done|].
      assert (Hrec1 : localStorage w1 !! "auth-storage" = Some text).
      { unfold w1. simpl. rewrite lookup_delete_ne by done. exact Hrec. }
      exact (clear_persisted_session_record w1 text parsed Hrec1 Hparse Hnull).
    + intros Hreg. destruct (Hcleared Hreg) as [Htok Husr].
      split; [|split; assumption].
      destruct (clearAuthToken w) as [c|] eqn:Hc; [|done].
      rewrite Hcps. simpl. unfold w1. rewrite run_clear_eq. reflexivity.
    + intros Hnone. split.
      * rewrite Hcps. simpl. unfold w1. rewrite Hnone. reflexivity.
      * intros Habsent. rewrite clear_persisted_session_eq.
        assert (Hrec1 : localStorage w1 !! "auth-storage" = None).
        { unfold w1. rewrite Hnone. simpl. rewrite lookup_delete_ne by done.
          exact Habsent. }
        rewrite Hrec1. exact Hrec1.
  - intros w r Hpath. unfold ApiClient.response_interceptor.
    destruct r as [|status]; [reflexivity|].
    destruct (ApiClient.is_401 status); [|reflexivity].
    unfold_m. rewrite Hpath. rewrite andb_false_r. reflexivity.
  - intros w r Hr. unfold ApiClient.response_interceptor.
    destruct r as [|status]; [reflexivity|].
    destruct status as [n|]; [|reflexivity]. simpl.
    destruct (Z.eqb_spec n 401) as [->|Hn]; [congruence | reflexivity].
Qed.

Lemma unauthorized_response_tears_down_witness :
  let session := mkAuthState None (Some "abc") false in
  let w := (auth_store_init
              (browser [("auth-storage", JSON_stringify (persisted session));
                        ("auth_token", "abc")]
                       session None None)).2 in
  let v := browser [("auth-storage", JSON_stringify (persisted session));
                    ("auth_token", "abc")]
                   session None None in
  let r := ApiClient.response_interceptor (ApiClient.Rejected (Some 401)) w in
  let q := ApiClient.response_interceptor (ApiClient.Rejected (Some 401)) v in
  (auth r.2 = signed_out /\ href_log r.2 = ["/auth/login"])
  /\ (record_member v "token" = Ok (Some (JStr "abc"))
      /\ record_member q.2 "token" = Ok (Some JNull)
      /\ localStorage q.2 !! "auth_token" = None).
Proof.
  intros session w v r q.
  destruct (proj1 unauthorized_response_tears_down w eq_refl eq_refl)
    as (_ & _ & Hhref & _ & Hreg & _).
  destruct (proj1 unauthorized_response_tears_down v eq_refl eq_refl)
    as (_ & Hleg & _ & Hrec & _).
  split; [split; [|exact Hhref]|].
  - apply Hreg. discriminate.
  - split; [reflexivity|]. split; [|exact Hleg].
    refine (proj1 (Hrec _ (persisted session) eq_refl _ _)).
    + reflexivity.
    + discriminate.
Defined.

(** ** Notification ids *)

Lemma no_dash_app s1 s2 : no_dash s1 -> no_dash s2 -> no_dash (s1 +:+ s2).
Proof.
  induction s1 as [|c s1 IH]; intros H1 H2; [exact H2|].
  destruct H1 as [Hc H1]. split; [exact Hc | apply IH; assumption].
Qed.

Lemma pretty_N_char_no_dash (d : N) : pretty_N_char d <> "-"%char.
Proof. unfold pretty_N_char. repeat case_match; discriminate. Qed.

(** The digits [pretty_N_go] puts in front of its accumulator. *)
Lemma pretty_N_go_digits x : forall s,
  exists d, pretty_N_go x s = d +:+ s /\ no_dash d /\ ((0 < x)%N -> d <> "").
Proof.
  induction (N.lt_wf_0 x) as [x _ IH]; intros s.
  assert (x = 0 \/ 0 < x)%N as [-> | Hx] by lia.
  - exists "". rewrite pretty_N_go_0. split; [reflexivity|]. split; [exact I|]. lia.
  - rewrite pretty_N_go_step by done.
    destruct (IH (x `div` 10)%N ltac:(apply N.div_lt; lia)
                 (String (pretty_N_char (x `mod` 10)) s)) as (d & -> & Hd & _).
    exists (d +:+ String (pretty_N_char (x `mod` 10)) "").
    split; [rewrite str_app_assoc; reflexivity|]. split.
    + apply no_dash_app; [exact Hd|]. split; [apply pretty_N_char_no_dash | exact I].
    + intros _. destruct d; discriminate.
Qed.

Lemma pretty_Z_shape (z : Z) :
  exists (neg : bool) d,
    pretty z = (if neg then "-" else "") +:+ d /\ no_dash d /\ d <> "".
Proof.
  destruct z as [|p|p].
  - exists false, "0". split; [reflexivity|]. split; [|discriminate].
    split; [discriminate | exact I].
  - destruct (pretty_N_go_digits (N.pos p) "") as (d & Hd & Hnd & Hne).
    exists false, d. rewrite str_app_nil_r in Hd.
    split; [exact Hd|]. split; [exact Hnd | apply Hne; lia].
  - destruct (pretty_N_go_digits (N.pos p) "") as (d & Hd & Hnd & Hne).
    exists true, d. rewrite str_app_nil_r in Hd.
    change (pretty (Z.neg p)) with ("-" +:+ pretty_N_go (N.pos p) "").
    rewrite Hd. split; [reflexivity|]. split; [exact Hnd | apply Hne; lia].
Qed.

Lemma split_at_dash d1 : forall d2 s1 s2,
  no_dash d1 -> no_dash d2 ->
  d1 +:+ String "-" s1 = d2 +:+ String "-" s2 ->
  d1 = d2 /\ s1 = s2.
Proof.
  induction d1 as [|c d1 IH]; intros [|c2 d2] s1 s2 H1 H2 Heq.
  - injection Heq as ->. done.
  - injection Heq as <- _. destruct H2 as [H2 _]. done.
  - injection Heq as -> _. destruct H1 as [H1 _]. done.
  - injection Heq as -> Heq. destruct H1 as [_ H1], H2 as [_ H2].
    destruct (IH d2 s1 s2 H1 H2 Heq) as [-> ->]. done.
Qed.

Lemma generateNotificationId_inj (n1 : Z) s1 (n2 : Z) s2 :
  Notifications.generateNotificationId n1 s1
  = Notifications.generateNotificationId n2 s2 ->
  n1 = n2 /\ s1 = s2.
Proof.
  unfold Notifications.generateNotificationId. intros Heq.
  apply (inj (String.app "notif-")) in Heq.
  destruct (pretty_Z_shape n1) as (b1 & d1 & E1 & Hd1 & Hne1).
  destruct (pretty_Z_shape n2) as (b2 & d2 & E2 & Hd2 & Hne2).
  rewrite E1, E2, !str_app_assoc in Heq.
  assert (b1 = b2 /\ d1 = d2 /\ s1 = s2) as (-> & -> & ->).
  { destruct b1, b2; cbn in Heq.
    - injection Heq as Heq.
      destruct (split_at_dash d1 d2 s1 s2 Hd1 Hd2 Heq) as [-> ->]. done.
    - destruct d2 as [|c d2]; [done|]. injection Heq as <- _.
      destruct Hd2 as [Hc _]. done.
    - destruct d1 as [|c d1]; [done|]. injection Heq as -> _.
      destruct Hd1 as [Hc _]. done.
    - destruct (split_at_dash d1 d2 s1 s2 Hd1 Hd2 Heq) as [-> ->]. done. }
  split; [|reflexivity]. apply (inj pretty). rewrite E1, E2. reflexivity.
Qed.

(** ** The notification store *)

Lemma decode_encode n : Notifications.decode (Notifications.encode n) = Some n.
Proof. destruct n as [i [] t m ts r [u|]]; reflexivity. Qed.

Lemma decode_all_encode l :
  Notifications.decode_all (map Notifications.encode l) = Some l.
Proof.
  induction l as [|n l IH]; [reflexivity|].
  cbn [map Notifications.decode_all]. rewrite decode_encode, IH. reflexivity.
Qed.

Lemma getNotifications_stored w l :
  window_defined w = true ->
  localStorage w !! "notifications" = Some (stored_list l) ->
  Notifications.getNotifications w = (Ok l, w).
Proof.
  intros Hwin Hget. unfold Notifications.getNotifications. unfold_m.
  rewrite Hwin. cbn [negb]. unfold Notifications.NOTIFICATIONS_STORAGE_KEY.
  rewrite Hget. change (truthy_str (Some (stored_list l))) with true. cbv iota.
  unfold stored_list. rewrite JSON_parse_stringify. cbv beta iota delta [ret].
  rewrite decode_all_encode. reflexivity.
Qed.

Lemma getNotifications_empty w :
  window_defined w = true ->
  localStorage w !! "notifications" = None ->
  Notifications.getNotifications w = (Ok [], w).
Proof.
  intros Hwin Hget. unfold Notifications.getNotifications. unfold_m.
  rewrite Hwin. cbn [negb]. unfold Notifications.NOTIFICATIONS_STORAGE_KEY.
  rewrite Hget. reflexivity.
Qed.

(** Reading the store never throws and leaves the world as it is. *)
Lemma getNotifications_total w : exists l, Notifications.getNotifications w = (Ok l, w).
Proof.
  unfold Notifications.getNotifications. unfold_m.
  destruct (window_defined w); cbn [negb]; [|eexists; reflexivity].
  destruct (localStorage w !! Notifications.NOTIFICATIONS_STORAGE_KEY) as [text|];
    [|eexists; reflexivity].
  destruct (truthy_str (Some text)); [|eexists; reflexivity].
  destruct (JSON_parse text) as [[]|]; try (eexists; reflexivity).
  unfold_m. destruct (Notifications.decode_all elems); eexists; reflexivity.
Qed.

Lemma saveNotifications_eq l w :
  Notifications.saveNotifications l w = (Ok tt, saved l w).
Proof.
  unfold Notifications.saveNotifications, saved. unfold_m.
  destruct (window_defined w); reflexivity.
Qed.

Lemma create_eq c w l :
  Notifications.getNotifications w = (Ok l, w) ->
  create c w = (Ok (notification_of c), saved (notification_of c :: l) w).
Proof.
  intros Hget. unfold create, Notifications.createNotification. unfold bind at 1.
  rewrite Hget. unfold bind at 1. rewrite saveNotifications_eq. reflexivity.
Qed.

Lemma saved_read l w :
  window_defined w = true ->
  Notifications.getNotifications (saved l w)
  = (Ok (take Notifications.MAX_NOTIFICATIONS (Notifications.sort_desc l)),
     saved l w).
Proof.
  intros Hwin. apply getNotifications_stored.
  - unfold saved. rewrite Hwin. exact Hwin.
  - unfold saved. rewrite Hwin. simpl. apply lookup_insert_eq.
Qed.

Lemma sort_desc_sorted l : desc_sorted l -> Notifications.sort_desc l = l.
Proof.
  induction l as [|n l IH]; intros Hs; [reflexivity|].
  destruct Hs as [Hall Hs]. cbn [Notifications.sort_desc]. rewrite IH by exact Hs.
  destruct l as [|m l]; [reflexivity|].
  cbn [Notifications.insert_desc].
  apply Forall_cons in Hall as [Hm _].
  apply Z.leb_le in Hm. rewrite Hm. reflexivity.
Qed.

Lemma insert_desc_perm n l : Notifications.insert_desc n l ≡ₚ n :: l.
Proof.
  induction l as [|m l IH]; [reflexivity|].
  cbn [Notifications.insert_desc].
  destruct (Notifications.timestamp m <=? Notifications.timestamp n);
    [reflexivity|].
  rewrite IH. apply Permutation_swap.
Qed.

Lemma sort_desc_perm l : Notifications.sort_desc l ≡ₚ l.
Proof.
  induction l as [|n l IH]; [reflexivity|].
  cbn [Notifications.sort_desc]. rewrite insert_desc_perm, IH. reflexivity.
Qed.

Lemma insert_desc_keeps_sorted n l :
  desc_sorted l -> desc_sorted (Notifications.insert_desc n l).
Proof.
  induction l as [|m l IH]; intros Hs.
  - split; [constructor | exact I].
  - destruct Hs as [Hall Hs]. cbn [Notifications.insert_desc].
    destruct (Z.leb_spec (Notifications.timestamp m) (Notifications.timestamp n))
      as [Hle | Hgt].
    + split; [|split; assumption].
      constructor; [exact Hle|].
      eapply Forall_impl; [exact Hall|]. intros x Hx. simpl in Hx. lia.
    + split; [|apply IH; exact Hs].
      rewrite insert_desc_perm. constructor; [lia | exact Hall].
Qed.

Lemma sort_desc_is_sorted l : desc_sorted (Notifications.sort_desc l).
Proof.
  induction l as [|n l IH]; [exact I|].
  cbn [Notifications.sort_desc]. apply insert_desc_keeps_sorted, IH.
Qed.

Lemma desc_sorted_take k l : desc_sorted l -> desc_sorted (take k l).
Proof.
  revert k. induction l as [|n l IH]; intros [|k] Hs; try exact I.
  destruct Hs as [Hall Hs]. cbn [take desc_sorted]. split; [|apply IH; exact Hs].
  apply Forall_take. exact Hall.
Qed.

(** In a list that is newest first, what lies behind a cut is no newer than
    what lies before it. *)
Lemma desc_sorted_cut k l :
  desc_sorted l ->
  Forall (fun e =>
            Forall (fun n => Notifications.timestamp e <= Notifications.timestamp n)
                   (take k l))
         (drop k l).
Proof.
  revert k. induction l as [|n l IH]; intros [|k] Hs.
  - constructor.
  - constructor.
  - cbn [take drop]. apply Forall_forall. intros e _. constructor.
  - destruct Hs as [Hall Hs]. cbn [take drop].
    specialize (IH k Hs). rewrite Forall_forall in IH |- *.
    intros e He. constructor; [|apply IH; exact He].
    rewrite Forall_forall in Hall. apply Hall.
    apply (subseteq_drop k l). exact He.
Qed.

Lemma desc_sorted_snoc l n :
  desc_sorted l ->
  Forall (fun m => Notifications.timestamp n <= Notifications.timestamp m) l ->
  desc_sorted (l ++ [n]).
Proof.
  induction l as [|m l IH]; intros Hs Hn.
  - split; [constructor | exact I].
  - destruct Hs as [Hall Hs]. apply Forall_cons in Hn as [Hm Hn].
    split; [|apply IH; assumption].
    apply Forall_app. split; [exact Hall|]. constructor; [exact Hm | constructor].
Qed.

Lemma take_insert_desc k n l :
  take k (Notifications.insert_desc n (take k l))
  = take k (Notifications.insert_desc n l).
Proof.
  revert k. induction l as [|m l IH]; intros [|k]; try reflexivity.
  cbn [take Notifications.insert_desc].
  destruct (Notifications.timestamp m <=? Notifications.timestamp n).
  - cbn [take]. f_equal. destruct k as [|k]; [reflexivity|].
    cbn [take]. f_equal. rewrite take_take. f_equal. lia.
  - cbn [take]. f_equal. apply IH.
Qed.

Lemma nondecreasing_head a l :
  nondecreasing (a :: l) = true -> Forall (fun b => a <= b) l /\ nondecreasing l = true.
Proof.
  revert a. induction l as [|b l IH]; intros a H; [split; [constructor | reflexivity]|].
  cbn [nondecreasing] in H. apply andb_prop in H as [Hab Hl].
  apply Z.leb_le in Hab. split; [|exact Hl].
  destruct (IH b Hl) as [Hall _]. constructor; [exact Hab|].
  eapply Forall_impl; [exact Hall|]. intros c Hc. simpl in Hc. lia.
Qed.

(** With a clock that does not run backwards the entries, newest first, are
    in the order the store keeps. *)
Lemma steady_clock_sorted cs :
  nondecreasing (clock_of cs) = true ->
  desc_sorted (reverse (map notification_of cs)).
Proof.
  induction cs as [|c cs IH]; intros Hclock; [exact I|].
  cbn [clock_of map] in Hclock. apply nondecreasing_head in Hclock as [Hlater Hclock].
  cbn [map]. rewrite reverse_cons. apply desc_sorted_snoc; [apply IH, Hclock|].
  apply Forall_reverse. rewrite List.Forall_map.
  unfold clock_of in Hlater. rewrite List.Forall_map in Hlater.
  exact Hlater.
Qed.

(** The store after a run of calls, whatever the clock: the first
    [MAX_NOTIFICATIONS] of all entries made, sorted newest first. *)
Lemma create_all_spec cs : forall w made_before,
  window_defined w = true ->
  Notifications.getNotifications w
  = (Ok (take Notifications.MAX_NOTIFICATIONS (Notifications.sort_desc made_before)),
     w) ->
  exists w',
    create_all cs w = (Ok (map notification_of cs), w')
    /\ window_defined w' = true
    /\ Notifications.getNotifications w'
       = (Ok (take Notifications.MAX_NOTIFICATIONS
                   (Notifications.sort_desc
                      (reverse (map notification_of cs) ++ made_before))), w').
Proof.
  induction cs as [|c cs IH]; intros w R Hwin Hget.
  - exists w. split; [reflexivity|]. split; [exact Hwin | exact Hget].
  - cbn [create_all]. rewrite (create_eq c w _ Hget).
    set (n := notification_of c).
    set (l := take Notifications.MAX_NOTIFICATIONS (Notifications.sort_desc R)).
    assert (Hread : Notifications.getNotifications (saved (n :: l) w)
                    = (Ok (take Notifications.MAX_NOTIFICATIONS
                                (Notifications.sort_desc (n :: R))),
                       saved (n :: l) w)).
    { rewrite saved_read by exact Hwin. cbn [Notifications.sort_desc].
      rewrite (sort_desc_sorted l)
        by (apply desc_sorted_take, sort_desc_is_sorted).
      unfold l. rewrite take_insert_desc. reflexivity. }
    assert (Hwin1 : window_defined (saved (n :: l) w) = true).
    { unfold saved. rewrite Hwin. exact Hwin. }
    destruct (IH (saved (n :: l) w) (n :: R) Hwin1 Hread) as (w' & -> & Hwin' & Hfinal).
    exists w'. split; [reflexivity|]. split; [exact Hwin'|].
    cbn [map]. rewrite reverse_cons, <- (assoc_L (++)). exact Hfinal.
Qed.

(** C5, as the code has it: from an empty store, every call of
    [createNotification] returns the entry it made and none throws; after
    the calls [getNotifications] lists [kept], the first fifty of all entries
    made when these are sorted by timestamp, newest first (the sort is
    stable with the later call first): at most fifty entries, exactly fifty
    after sixty calls, every entry left out being no newer than every entry
    kept.  So an entry that was made and is not listed, the one made last
    included, is no newer than any of the fifty that are.  With a clock that
    does not run backwards the entries listed are the ones made last, and
    the entry made last is at the head of the list: at the bound the oldest
    entry goes and the new one is kept. *)
Theorem bounded_log cs w :
  window_defined w = true ->
  localStorage w !! "notifications" = None ->
  let made := map notification_of cs in
  let sorted := Notifications.sort_desc (reverse made) in
  let kept := take Notifications.MAX_NOTIFICATIONS sorted in
  let evicted := drop Notifications.MAX_NOTIFICATIONS sorted in
  exists w',
    create_all cs w = (Ok made, w')
    /\ Notifications.getNotifications w' = (Ok kept, w')
    /\ kept ++ evicted ≡ₚ made
    /\ desc_sorted kept
    /\ Forall (fun e =>
                 Forall (fun n => Notifications.timestamp e
                                  <= Notifications.timestamp n) kept) evicted
    /\ length kept = Nat.min 50 (length cs)
    /\ (length cs = 60%nat -> length kept = 50%nat)
    /\ (forall n, n ∈ made ->
          n ∈ kept
          \/ (length kept = 50%nat
              /\ Forall (fun m => Notifications.timestamp n
                                  <= Notifications.timestamp m) kept))
    /\ (nondecreasing (clock_of cs) = true ->
        kept = take Notifications.MAX_NOTIFICATIONS (reverse made)
        /\ head kept = last made).
Proof.
  intros Hwin Hempty made sorted kept evicted.
  destruct (create_all_spec cs w [] Hwin (getNotifications_empty w Hwin Hempty))
    as (w' & Hall & _ & Hread).
  rewrite (right_id_L [] (++)) in Hread.
  assert (Hlen : length kept = Nat.min 50 (length cs)).
  { unfold kept, sorted, made, Notifications.MAX_NOTIFICATIONS.
    rewrite length_take, sort_desc_perm, length_reverse, length_map. reflexivity. }
  assert (Hperm : kept ++ evicted ≡ₚ made).
  { unfold kept, evicted. rewrite take_drop. unfold sorted.
    rewrite sort_desc_perm. apply reverse_Permutation. }
  assert (Hcut : Forall (fun e =>
                   Forall (fun n => Notifications.timestamp e
                                    <= Notifications.timestamp n) kept) evicted).
  { apply desc_sorted_cut, sort_desc_is_sorted. }
  exists w'. split; [exact Hall|]. split; [exact Hread|].
  split; [|split; [|split; [|split; [|split; [|split]]]]].
  - exact Hperm.
  - apply desc_sorted_take, sort_desc_is_sorted.
  - exact Hcut.
  - exact Hlen.
  - intros H60. rewrite Hlen, H60. reflexivity.
  - intros n Hn. rewrite <- Hperm in Hn. apply elem_of_app in Hn as [Hn|Hn];
      [left; exact Hn | right].
    split; [|exact (proj1 (Forall_forall _ _) Hcut n Hn)].
    assert (Hlong : (50 < length cs)%nat).
    { assert (Hsorted : length sorted = length cs).
      { unfold sorted, made. rewrite sort_desc_perm, length_reverse, length_map.
        reflexivity. }
      assert (Hdrop : (0 < length evicted)%nat).
      { destruct evicted; [inversion Hn | simpl; lia]. }
      unfold evicted, Notifications.MAX_NOTIFICATIONS in Hdrop.
      rewrite length_drop in Hdrop. lia. }
    rewrite Hlen. lia.
  - intros Hclock.
    assert (Hsorted : sorted = reverse made).
    { apply sort_desc_sorted, steady_clock_sorted, Hclock. }
    unfold kept. rewrite Hsorted. split; [reflexivity|].
    rewrite <- head_reverse. destruct (reverse made); reflexivity.
Qed.

Lemma bounded_log_witness :
  exists w',
    create_all sixty_calls (browser [] signed_out None None)
    = (Ok (map notification_of sixty_calls), w')
    /\ (Notifications.getNotifications w').1
       = Ok (take 50 (reverse (map notification_of sixty_calls))).
Proof.
  destruct (bounded_log sixty_calls (browser [] signed_out None None)
              eq_refl eq_refl)
    as (w' & Hall & Hread & _ & _ & _ & _ & _ & _ & Hsteady).
  exists w'. split; [exact Hall|]. rewrite Hread.
  destruct (Hsteady eq_refl) as [-> _]. reflexivity.
Defined.

(** C5 fails as stated: after fifty-nine calls, one per millisecond, a
    sixtieth whose clock reading lies before all of theirs returns its entry
    without an error, and the entry is not in the list: fifty of the earlier
    entries are, and it is the newly made entry that went. *)
Lemma bounded_log_counterexample :
  let before := take 59 sixty_calls in
  let late := mkCreation (Notifications.mkDraw 1700000000100 "zzzzzzzzz" 1600000000000)
                         Notifications.warning "late" "clock stepped back" None in
  let w := (create_all before (browser [] signed_out None None)).2 in
  let r := create late w in
  r.1 = Ok (notification_of late)
  /\ (Notifications.getNotifications r.2).1
     = Ok (reverse (map notification_of (drop 9 before)))
  /\ length (drop 9 before) = 50%nat
  /\ existsb (fun n => String.eqb (Notifications.id n)
                                  (Notifications.id (notification_of late)))
             (map notification_of (drop 9 before)) = false.
Proof. vm_compute. repeat split. Qed.

(** Every call of [createNotification] returns the entry it made, whose id
    is [notif-], the milliseconds [Date.now()] answered, a dash and the
    suffix drawn from [Math.random]; two calls get the same id exactly when
    they read the same millisecond and draw the same suffix.  Nothing but
    the draw keeps two ids of one millisecond apart. *)
Theorem notification_id_collisions :
  (forall c w, (create c w).1 = Ok (notification_of c))
  /\ (forall c1 c2,
        Notifications.id (notification_of c1) = Notifications.id (notification_of c2)
        <-> Notifications.id_now (draw c1) = Notifications.id_now (draw c2)
            /\ Notifications.id_suffix (draw c1) = Notifications.id_suffix (draw c2)).
Proof.
  split.
  - intros c w. destruct (getNotifications_total w) as [l Hl].
    rewrite (create_eq c w l Hl). reflexivity.
  - intros c1 c2. cbn [notification_of Notifications.id]. split.
    + apply generateNotificationId_inj.
    + intros [-> ->]. reflexivity.
Qed.

(** C7 fails on the code, whose [generateNotificationId] is to "generate a
    unique notification ID": two calls, one after the other, that read the
    same millisecond and draw the same suffix return two entries with the
    one id [notif-1700000000000-k3x9q0a7b], and both are in the list. *)
Theorem same_draw_same_id :
  let w := browser [] signed_out None None in
  let d := Notifications.mkDraw 1700000000000 "k3x9q0a7b" 1700000000000 in
  let first := create (mkCreation d Notifications.info "one" "first call" None) w in
  let second :=
    create (mkCreation d Notifications.error "two" "second call" None) first.2 in
  exists n1 n2,
    first.1 = Ok n1 /\ second.1 = Ok n2
    /\ Notifications.title n1 <> Notifications.title n2
    /\ Notifications.id n1 = "notif-1700000000000-k3x9q0a7b"
    /\ Notifications.id n2 = "notif-1700000000000-k3x9q0a7b"
    /\ (Notifications.getNotifications second.2).1 = Ok [n2; n1].
Proof.
  eexists _, _. split; [reflexivity|]. split; [reflexivity|].
  split; [discriminate|]. split; [reflexivity|]. split; reflexivity.
Qed.

(** ** The event bus *)

Lemma same_listener_eq a b : EventBus.same_listener a b = true <-> a = b.
Proof.
  destruct a as [n h], b as [n' h']. unfold EventBus.same_listener. simpl.
  rewrite andb_true_iff, String.eqb_eq, Nat.eqb_eq. split.
  - intros [-> ->]. reflexivity.
  - intros [= -> ->]. done.
Qed.

Lemma received_app h k l1 l2 disp ls :
  EventBus.received h k (EventBus.mkBus ls disp (l1 ++ l2))
  = EventBus.received h k (EventBus.mkBus ls disp l1)
    || EventBus.received h k (EventBus.mkBus ls disp l2).
Proof. unfold EventBus.received. simpl. apply existsb_app. Qed.

Lemma dispatch_delivers n h d b :
  EventBus.subscribed n h b = true ->
  EventBus.received h (EventBus.dispatched b) (EventBus.dispatchEvent n d b) = true.
Proof.
  unfold EventBus.subscribed, EventBus.received, EventBus.dispatchEvent. simpl.
  intros Hsub. apply existsb_exists in Hsub as (l & Hin & Hl).
  apply same_listener_eq in Hl. subst l.
  rewrite existsb_app. apply orb_true_iff. right.
  apply existsb_exists. exists (h, EventBus.mkEvent n d (EventBus.dispatched b)).
  split.
  - apply (in_map (fun l => (l.2, EventBus.mkEvent n d (EventBus.dispatched b)))
                  _ (n, h)).
    apply filter_In. split; [exact Hin|]. simpl. apply String.eqb_refl.
  - simpl. rewrite !Nat.eqb_refl. reflexivity.
Qed.

Lemma not_received_bounded h b :
  bus_bounded b -> EventBus.received h (EventBus.dispatched b) b = false.
Proof.
  unfold bus_bounded, EventBus.received. intros Hb.
  apply not_true_is_false. intros Hex.
  apply existsb_exists in Hex as (d & Hin & Hd).
  apply andb_true_iff in Hd as [_ Hd]. apply Nat.eqb_eq in Hd.
  rewrite Forall_forall in Hb. apply list_elem_of_In in Hin.
  specialize (Hb d Hin). simpl in Hb. lia.
Qed.

Lemma step_bounded b o : bus_bounded b -> bus_bounded (EventBus.step b o).
Proof.
  unfold bus_bounded. intros Hb. destruct o as [n h | n h | n d]; simpl.
  - unfold EventBus.addEventListener.
    destruct (existsb _ _); exact Hb.
  - exact Hb.
  - apply Forall_app. split.
    + eapply Forall_impl; [exact Hb|]. intros x Hx. simpl in Hx. lia.
    + apply Forall_forall. intros x Hx. apply list_elem_of_In in Hx.
      apply in_map_iff in Hx as (l & <- & _). simpl. lia.
Qed.

Lemma run_bounded ops : forall b, bus_bounded b -> bus_bounded (EventBus.run ops b).
Proof.
  induction ops as [|o ops IH]; intros b Hb; [exact Hb|].
  apply IH, step_bounded, Hb.
Qed.

Lemma step_keeps_missed h k b o :
  (k < EventBus.dispatched b)%nat ->
  EventBus.received h k b = false ->
  (k < EventBus.dispatched (EventBus.step b o))%nat
  /\ EventBus.received h k (EventBus.step b o) = false.
Proof.
  intros Hk Hmiss. destruct o as [n' h' | n' h' | n' d']; simpl.
  - unfold EventBus.addEventListener.
    destruct (existsb _ _); split; assumption.
  - split; assumption.
  - split; [simpl; lia|].
    unfold EventBus.dispatchEvent. rewrite received_app.
    apply orb_false_iff. split.
    + exact Hmiss.
    + unfold EventBus.received. simpl.
      apply not_true_is_false. intros Hex.
      apply existsb_exists in Hex as (x & Hin & Hx).
      apply in_map_iff in Hin as (l & <- & _). simpl in Hx.
      apply andb_true_iff in Hx as [_ Hx]. apply Nat.eqb_eq in Hx. lia.
Qed.

Lemma run_keeps_missed h k ops : forall b,
  (k < EventBus.dispatched b)%nat ->
  EventBus.received h k b = false ->
  EventBus.received h k (EventBus.run ops b) = false.
Proof.
  induction ops as [|o ops IH]; intros b Hk Hmiss; [exact Hmiss|].
  destruct (step_keeps_missed h k b o Hk Hmiss) as [Hk' Hmiss'].
  exact (IH _ Hk' Hmiss').
Qed.

Lemma dispatch_misses n h d b :
  bus_bounded b ->
  EventBus.subscribed n h b = false ->
  EventBus.received h (EventBus.dispatched b) (EventBus.dispatchEvent n d b) = false.
Proof.
  intros Hb Hsub. unfold EventBus.dispatchEvent. rewrite received_app.
  apply orb_false_iff. split.
  - pose proof (not_received_bounded h b Hb) as H.
    unfold EventBus.received in *. exact H.
  - unfold EventBus.received. simpl.
    apply not_true_is_false. intros Hex.
    apply existsb_exists in Hex as (x & Hin & Hx).
    apply in_map_iff in Hin as ([n' h'] & <- & Hin). simpl in Hx.
    apply filter_In in Hin as [Hin Hn]. simpl in Hn. apply String.eqb_eq in Hn.
    apply andb_true_iff in Hx as [Hh _]. apply Nat.eqb_eq in Hh. subst n' h'.
    unfold EventBus.subscribed in Hsub.
    assert (Hyes : existsb (EventBus.same_listener (n, h)) (EventBus.listeners b) = true).
    { apply existsb_exists. exists (n, h). split; [exact Hin|].
      apply same_listener_eq. reflexivity. }
    congruence.
Qed.

(** C8: on the bus, a handler that listens to a name when [dispatchEvent] is
    called for that name has been run with that occurrence by the time the
    call returns; a handler that does not listen to the name at that moment
    is not run with that occurrence, neither by the call nor by anything
    done on the bus afterwards, its own subscribing included. *)
Theorem event_delivery :
  (forall b n h d,
      EventBus.subscribed n h b = true ->
      EventBus.received h (EventBus.dispatched b) (EventBus.dispatchEvent n d b) = true)
  /\ (forall before after n h d,
        let b := EventBus.run before EventBus.empty in
        EventBus.subscribed n h b = false ->
        EventBus.received h (EventBus.dispatched b)
          (EventBus.run after (EventBus.dispatchEvent n d b))
        = false).
Proof.
  split.
  - intros b n h d. apply dispatch_delivers.
  - intros before after n h d b Hsub.
    assert (Hb : bus_bounded b).
    { apply run_bounded. constructor. }
    apply run_keeps_missed.
    + simpl. lia.
    + apply dispatch_misses; assumption.
Qed.

Lemma event_delivery_witness :
  let graph_page := 7%nat in
  let b := EventBus.GraphPage_mount graph_page EventBus.empty in
  EventBus.received graph_page 0 (EventBus.ingestion_done 3 5 b) = true
  /\ EventBus.received graph_page 0
       (EventBus.run [EventBus.Subscribe EventBus.GRAPH_DATA_UPDATED graph_page;
                      EventBus.Publish "other" JNull]
                     (EventBus.ingestion_done 3 5 EventBus.empty)) = false.
Proof.
  intros graph_page b. split.
  - exact (proj1 event_delivery b EventBus.GRAPH_DATA_UPDATED graph_page _ eq_refl).
  - exact (proj2 event_delivery []
             [EventBus.Subscribe EventBus.GRAPH_DATA_UPDATED graph_page;
              EventBus.Publish "other" JNull]
             EventBus.GRAPH_DATA_UPDATED graph_page _ eq_refl).
Defined.

(** ** The route guard *)

Lemma hydrating_inv s :
  DashboardLayout.phase_of s = DashboardLayout.HYDRATING ->
  DashboardLayout.isClient s = true
  /\ DashboardLayout.hasCheckedAuth s = false
  /\ DashboardLayout.pushed s = [].
Proof.
  unfold DashboardLayout.phase_of.
  destruct (DashboardLayout.pushed s); [|discriminate].
  destruct (DashboardLayout.isClient s); [|discriminate].
  destruct (DashboardLayout.hasCheckedAuth s); [discriminate|]. done.
Qed.

Lemma undecided_inv s :
  DashboardLayout.decided (DashboardLayout.phase_of s) = false <->
  DashboardLayout.pushed s = []
  /\ (DashboardLayout.isClient s = true -> DashboardLayout.hasCheckedAuth s = false).
Proof.
  unfold DashboardLayout.phase_of.
  destruct (DashboardLayout.pushed s), (DashboardLayout.isClient s),
    (DashboardLayout.hasCheckedAuth s); simpl; split; try done;
    try (intros [? ?]; discriminate); intros [_ H]; discriminate (H eq_refl).
Qed.

Lemma quiet_step_undecided s e :
  DashboardLayout.is_timer e = false ->
  DashboardLayout.hasCheckedAuth s = false ->
  DashboardLayout.pushed s = [] ->
  DashboardLayout.hasCheckedAuth (DashboardLayout.step s e) = false
  /\ DashboardLayout.pushed (DashboardLayout.step s e) = [].
Proof.
  intros He Hc Hp. destruct e as [tok auth | legacy |]; [|discriminate|];
    simpl; split; assumption.
Qed.

Lemma quiet_run_undecided es : forall s,
  forallb (fun e => negb (DashboardLayout.is_timer e)) es = true ->
  DashboardLayout.hasCheckedAuth s = false ->
  DashboardLayout.pushed s = [] ->
  DashboardLayout.hasCheckedAuth (DashboardLayout.run es s) = false
  /\ DashboardLayout.pushed (DashboardLayout.run es s) = [].
Proof.
  induction es as [|e es IH]; intros s Hq Hc Hp; [split; assumption|].
  cbn [forallb] in Hq. apply andb_prop in Hq as [He Hq].
  apply negb_true_iff in He.
  destruct (quiet_step_undecided s e He Hc Hp) as [Hc' Hp'].
  exact (IH _ Hq Hc' Hp').
Qed.

(** The guard on its own: while it is HYDRATING it renders the loading view
    and has called [router.push] not once; a step that takes it from
    HYDRATING to AUTHORIZED or UNAUTHORIZED is the firing of the timer the
    auth effect set; that timer is only ever set by a commit of a render
    that already had [isClient]; and from the mount on, no run of commits
    and unmounts without a timer firing reaches AUTHORIZED or UNAUTHORIZED,
    so what is rendered up to then is the loading view. *)
Theorem guard_hydrating :
  (forall s,
      DashboardLayout.phase_of s = DashboardLayout.HYDRATING ->
      DashboardLayout.render s = DashboardLayout.Loading
      /\ DashboardLayout.pushed s = [])
  /\ (forall s e,
        DashboardLayout.phase_of s = DashboardLayout.HYDRATING ->
        DashboardLayout.decided (DashboardLayout.phase_of (DashboardLayout.step s e))
        = true ->
        DashboardLayout.is_timer e = true /\ DashboardLayout.timer s <> None)
  /\ (forall s e,
        DashboardLayout.timer s = None ->
        DashboardLayout.timer (DashboardLayout.step s e) <> None ->
        DashboardLayout.isClient s = true
        /\ exists tok auth, e = DashboardLayout.Commit tok auth)
  /\ (forall es,
        forallb (fun e => negb (DashboardLayout.is_timer e)) es = true ->
        let s := DashboardLayout.run es DashboardLayout.mount in
        DashboardLayout.decided (DashboardLayout.phase_of s) = false
        /\ DashboardLayout.render s = DashboardLayout.Loading).
Proof.
  split; [|split; [|split]].
  - intros s Hs. destruct (hydrating_inv s Hs) as (Hc & Hh & Hp).
    split; [|exact Hp]. unfold DashboardLayout.render. rewrite Hc, Hh. reflexivity.
  - intros s e Hs Hdec. destruct (hydrating_inv s Hs) as (Hc & Hh & Hp).
    destruct e as [tok auth | legacy |].
    + exfalso. apply not_false_iff_true in Hdec. apply Hdec.
      apply undecided_inv. simpl. split; [exact Hp | intros _; exact Hh].
    + split; [reflexivity|]. intros Hnone. simpl in Hdec.
      unfold DashboardLayout.fire in Hdec. rewrite Hnone in Hdec.
      rewrite Hs in Hdec. discriminate.
    + exfalso. apply not_false_iff_true in Hdec. apply Hdec.
      apply undecided_inv. simpl. split; [exact Hp | intros _; exact Hh].
  - intros s e Hnone Hset. destruct e as [tok auth | legacy |].
    + split; [|eexists _, _; reflexivity].
      simpl in Hset. rewrite Hnone in Hset.
      destruct (DashboardLayout.isClient s); [reflexivity|].
      exfalso. apply Hset.
      destruct (match DashboardLayout.last_deps s with
                | Some d => negb (DashboardLayout.deps_eqb d (tok, auth, false))
                | None => true
                end); reflexivity.
    + exfalso. apply Hset. simpl. unfold DashboardLayout.fire.
      rewrite Hnone. exact Hnone.
    + exfalso. apply Hset. reflexivity.
  - intros es Hq s.
    destruct (quiet_run_undecided es DashboardLayout.mount Hq eq_refl eq_refl)
      as [Hc Hp].
    fold s in Hc, Hp. split.
    + apply undecided_inv. split; [exact Hp | intros _; exact Hc].
    + unfold DashboardLayout.render. rewrite Hc, orb_true_r. reflexivity.
Qed.

Lemma guard_hydrating_witness :
  let s := DashboardLayout.run
             [DashboardLayout.Commit None false; DashboardLayout.Commit None false]
             DashboardLayout.mount in
  DashboardLayout.phase_of s = DashboardLayout.HYDRATING
  /\ DashboardLayout.render s = DashboardLayout.Loading
  /\ DashboardLayout.phase_of (DashboardLayout.step s (DashboardLayout.TimerFires (Some "abc")))
     = DashboardLayout.AUTHORIZED
  /\ DashboardLayout.phase_of (DashboardLayout.step s (DashboardLayout.TimerFires None))
     = DashboardLayout.UNAUTHORIZED.
Proof.
  intros s. split; [reflexivity|]. split.
  - exact (proj1 (proj1 guard_hydrating s eq_refl)).
  - split; reflexivity.
Defined.


(** ** Scenarios *)

Example parse_spaced :
  JSON_parse " [ 1 , -20 ,true, { } ,null ] "
  = Some (JArr [JNum 1; JNum (-20); JBool true; JObj []; JNull]).
Proof. reflexivity. Qed.

Example parse_rejects :
  JSON_parse "{bad" = None /\ JSON_parse "01" = None /\ JSON_parse "" = None
  /\ JSON_parse "[1,]" = None /\ JSON_parse "nul" = None.
Proof. repeat split. Qed.

(** JSON outside the model: [JSON_valid] accepts it, [JSON_parse] has no
    value for it, and [modelled] tells. *)
Example parse_outside_model :
  map JSON_valid ["1.5"; "-0.5E+10"; "[1,2.5e-3,{}]"; "1."; ".5"; "1e"; "01"; "{bad"; ""]
  = [true; true; true; false; false; false; false; false; false]
  /\ map JSON_parse ["1.5"; "1e3"] = [None; None]
  /\ map modelled ["1.5"; "{bad"; "[1,[2]]"] = [false; true; true].
Proof. vm_compute. repeat split. Qed.

Example parse_reads_escapes :
  JSON_parse (JSON_stringify (JStr (String dquote (String backslash (String "010" "a")))))
  = Some (JStr (String dquote (String backslash (String "010" "a")))).
Proof. reflexivity. Qed.

(** Section 8 of the specification, "login then 401": the store module
    loads, [setToken("abc")] is called, a request comes back with status 401
    on the dashboard.  The session is empty afterwards and one navigation to
    the login view has been asked for. *)
Example login_then_401 :
  let w0 := (auth_store_init (browser [] signed_out None None)).2 in
  let w1 := (useAuthStore.setToken (Some "abc") w0).2 in
  let w2 := (ApiClient.response_interceptor (ApiClient.Rejected (Some 401)) w1).2 in
  localStorage w1 !! "auth_token" = Some "abc"
  /\ auth w2 = signed_out
  /\ localStorage w2 !! "auth_token" = None
  /\ record_member w2 "token" = Ok (Some JNull)
  /\ href_log w2 = ["/auth/login"].
Proof. vm_compute. repeat split. Qed.

(** [ApiClient.setToken] is not a call of the session manager: with the
    accessors registered it writes the token into the persisted record and
    leaves the legacy key alone. *)
Example ApiClient_setToken_skips_mirror :
  let w0 := (auth_store_init (browser [] signed_out None None)).2 in
  let w1 := (ApiClient.setToken "abc" w0).2 in
  record_member w1 "token" = Ok (Some (JStr "abc"))
  /\ localStorage w1 !! "auth_token" = None.
Proof. vm_compute. repeat split. Qed.

(** The registered [getAuthToken] answers with the token of the state object
    it closed over.  A page that loaded with a session and then logged out
    still gets the old token from [getToken], which writes it back under the
    legacy key. *)
Example accessor_outlives_logout :
  let session := mkAuthState None (Some "abc") false in
  let w0 := browser [("auth-storage", JSON_stringify (persisted session));
                     ("auth_token", "abc")] session None None in
  let w1 := (auth_store_init w0).2 in
  let w2 := (useAuthStore.logout w1).2 in
  let r := ApiClient.getToken w2 in
  token (auth w2) = None
  /\ localStorage w2 !! "auth_token" = None
  /\ r.1 = Ok (Some (JStr "abc"))
  /\ localStorage r.2 !! "auth_token" = Some "abc".
Proof. vm_compute. repeat split. Qed.

(** Section 8, "ingestion notifies unrelated viewer": the graph page is
    mounted, the vault page creates the notification and raises the event;
    the handler of the graph page has run with it and the store lists the
    new entry, unread. *)
Example ingestion_notifies_viewer :
  let graph_page := 1%nat in
  let bus := EventBus.ingestion_done 3 5
               (EventBus.GraphPage_mount graph_page EventBus.empty) in
  let c := mkCreation (Notifications.mkDraw 1700000000000 "k3x9q0a7b" 1700000000000)
                      Notifications.success "File Ingested" "3 entities" None in
  let r := create c (browser [] signed_out None None) in
  EventBus.received graph_page 0 bus = true
  /\ (Notifications.getNotifications r.2).1 = Ok [notification_of c]
  /\ Notifications.read (notification_of c) = false
  /\ (Notifications.getUnreadCount r.2).1 = Ok 1%nat.
Proof. vm_compute. repeat split. Qed.

(** * Further properties *)

(** ** The notification store under its five operations *)

Lemma getNotifications_no_window w :
  window_defined w = false -> Notifications.getNotifications w = (Ok [], w).
Proof.
  intros H. unfold Notifications.getNotifications. unfold_m. rewrite H. reflexivity.
Qed.

Lemma saved_window l w : window_defined (saved l w) = window_defined w.
Proof. unfold saved. destruct (window_defined w) eqn:H; [exact H | exact H]. Qed.

Lemma saved_read_any l w :
  Notifications.getNotifications (saved l w)
  = (Ok (if window_defined w
         then take Notifications.MAX_NOTIFICATIONS (Notifications.sort_desc l)
         else []),
     saved l w).
Proof.
  destruct (window_defined w) eqn:H.
  - apply saved_read, H.
  - apply getNotifications_no_window. rewrite saved_window. exact H.
Qed.

Lemma update_then_read g w l :
  Notifications.getNotifications w = (Ok l, w) ->
  ((existing <- Notifications.getNotifications ;;
    Notifications.saveNotifications (g existing)) ;;;
   Notifications.getNotifications) w
  = (Ok (if window_defined w
         then take Notifications.MAX_NOTIFICATIONS (Notifications.sort_desc (g l))
         else []),
     saved (g l) w).
Proof.
  intros Hget. unfold bind. rewrite Hget, saveNotifications_eq. apply saved_read_any.
Qed.

Lemma update_world g w l :
  Notifications.getNotifications w = (Ok l, w) ->
  (existing <- Notifications.getNotifications ;;
   Notifications.saveNotifications (g existing)) w
  = (Ok tt, saved (g l) w).
Proof. intros Hget. unfold bind. rewrite Hget. apply saveNotifications_eq. Qed.

Lemma getUnreadCount_eq w l :
  Notifications.getNotifications w = (Ok l, w) ->
  Notifications.getUnreadCount w = (Ok (unread l), w).
Proof. intros Hget. unfold Notifications.getUnreadCount, bind. rewrite Hget. reflexivity. Qed.

Lemma Forall_list_filter {A} (P : A -> Prop) p (l : list A) :
  Forall P l -> Forall P (List.filter p l).
Proof.
  induction 1 as [|x l Hx Hl IH]; simpl; [constructor|].
  destruct (p x); [constructor; assumption | exact IH].
Qed.

Lemma desc_sorted_map f l :
  (forall n, Notifications.timestamp (f n) = Notifications.timestamp n) ->
  desc_sorted l -> desc_sorted (map f l).
Proof.
  intros Hf. induction l as [|n l IH]; intros Hs; [exact I|].
  destruct Hs as [Hall Hs]. cbn [map desc_sorted]. split; [|apply IH, Hs].
  rewrite List.Forall_map, Hf.
  eapply Forall_impl; [exact Hall|]. intros x Hx. simpl in *. rewrite Hf. exact Hx.
Qed.

Lemma desc_sorted_filter p l : desc_sorted l -> desc_sorted (List.filter p l).
Proof.
  induction l as [|n l IH]; intros Hs; [exact I|].
  destruct Hs as [Hall Hs]. simpl. destruct (p n); [|apply IH, Hs].
  split; [apply Forall_list_filter, Hall | apply IH, Hs].
Qed.

Lemma kept_list l :
  desc_sorted l -> (length l <= Notifications.MAX_NOTIFICATIONS)%nat ->
  take Notifications.MAX_NOTIFICATIONS (Notifications.sort_desc l) = l.
Proof. intros Hs Hlen. rewrite sort_desc_sorted by exact Hs. apply take_ge, Hlen. Qed.

Lemma saved_holds l w :
  window_defined w = true ->
  holds (saved l w)
        (take Notifications.MAX_NOTIFICATIONS (Notifications.sort_desc l)).
Proof.
  intros Hwin. split; [|split; [|split]].
  - rewrite saved_window. exact Hwin.
  - left. unfold saved. rewrite Hwin. simpl. apply lookup_insert_eq.
  - apply desc_sorted_take, sort_desc_is_sorted.
  - rewrite length_take. lia.
Qed.

Lemma holds_read w l :
  holds w l -> Notifications.getNotifications w = (Ok l, w).
Proof.
  intros (Hwin & [Hst | [-> Hnone]] & _).
  - apply getNotifications_stored; assumption.
  - apply getNotifications_empty; assumption.
Qed.

Lemma unread_perm l l' : l ≡ₚ l' -> unread l = unread l'.
Proof.
  unfold unread. induction 1 as [|x l l' _ IH|x y l|l1 l2 l3 _ IH1 _ IH2]; simpl.
  - reflexivity.
  - destruct (negb (Notifications.read x)); simpl; congruence.
  - destruct (negb (Notifications.read x)), (negb (Notifications.read y)); reflexivity.
  - congruence.
Qed.

Lemma unread_zero l :
  Forall (fun n => Notifications.read n = true) l -> unread l = 0%nat.
Proof.
  unfold unread. induction 1 as [|x l Hx _ IH]; simpl; [reflexivity|].
  rewrite Hx. exact IH.
Qed.

Lemma kept_subset l n :
  n ∈ take Notifications.MAX_NOTIFICATIONS (Notifications.sort_desc l) -> n ∈ l.
Proof.
  intros Hin. rewrite <- (sort_desc_perm l).
  eapply subseteq_take, Hin.
Qed.

Lemma Forall_kept (P : Notifications.Notification -> Prop) l :
  Forall P l ->
  Forall P (take Notifications.MAX_NOTIFICATIONS (Notifications.sort_desc l)).
Proof.
  intros H. apply Forall_take. rewrite sort_desc_perm. exact H.
Qed.

(** X1: a text under the key [notifications] that is not JSON, or is JSON
    the model reads and not an array, reads as the empty list: [getNotifications]
    returns [[]] without throwing and without touching the world, the unread
    count is 0, and the next [createNotification] replaces the text by a
    list that holds the new entry alone. *)
Theorem getNotifications_unreadable_store w text c :
  window_defined w = true ->
  localStorage w !! "notifications" = Some text ->
  (JSON_valid text = false
   \/ exists v, JSON_parse text = Some v /\ forall l, v <> JArr l) ->
  Notifications.getNotifications w = (Ok [], w)
  /\ Notifications.getUnreadCount w = (Ok 0%nat, w)
  /\ (create c w).1 = Ok (notification_of c)
  /\ Notifications.getNotifications (create c w).2
     = (Ok [notification_of c], (create c w).2).
Proof.
  intros Hwin Hget Hbad.
  assert (Hnone : Notifications.getNotifications w = (Ok [], w)).
  { unfold Notifications.getNotifications. unfold_m.
    rewrite Hwin. cbn [negb]. unfold Notifications.NOTIFICATIONS_STORAGE_KEY.
    rewrite Hget. destruct (truthy_str (Some text)); [|reflexivity].
    destruct Hbad as [Hbad | (v & Hv & Hna)].
    - rewrite (JSON_invalid_no_parse text Hbad). reflexivity.
    - rewrite Hv. destruct v; try reflexivity. destruct (Hna elems eq_refl). }
  split; [exact Hnone|]. split; [apply (getUnreadCount_eq w [] Hnone)|].
  rewrite (create_eq c w [] Hnone). split; [reflexivity|].
  cbn [snd]. rewrite saved_read by exact Hwin. reflexivity.
Qed.

Lemma getNotifications_unreadable_store_witness :
  let w := browser [("notifications", "{bad")] signed_out None None in
  Notifications.getNotifications w = (Ok [], w).
Proof.
  intros w.
  exact (proj1 (getNotifications_unreadable_store w "{bad"
                  (mkCreation (Notifications.mkDraw 1 "a" 1) Notifications.info
                              "t" "m" None)
                  eq_refl eq_refl (or_introl eq_refl))).
Defined.

(** X2: what [saveNotifications] writes, [getNotifications] reads back: the
    entries of the list sorted newest first and cut to the first 50.  So the
    list read has at most 50 entries, is sorted, holds only saved entries,
    and holds all of them when no more than 50 were saved. *)
Theorem saveNotifications_read_back l w :
  window_defined w = true ->
  let r := (Notifications.saveNotifications l ;;; Notifications.getNotifications) w in
  exists kept,
    r.1 = Ok kept
    /\ kept = take Notifications.MAX_NOTIFICATIONS (Notifications.sort_desc l)
    /\ (length kept <= 50)%nat
    /\ desc_sorted kept
    /\ kept ⊆ l
    /\ ((length l <= 50)%nat -> kept ≡ₚ l).
Proof.
  intros Hwin r. subst r. unfold bind. rewrite saveNotifications_eq.
  rewrite saved_read by exact Hwin. eexists. split; [reflexivity|].
  split; [reflexivity|]. split; [rewrite length_take; unfold Notifications.MAX_NOTIFICATIONS; lia|].
  split; [apply desc_sorted_take, sort_desc_is_sorted|].
  split; [intros n; apply kept_subset|].
  intros Hlen. rewrite take_ge; [apply sort_desc_perm|].
  rewrite sort_desc_perm. exact Hlen.
Qed.

Lemma saveNotifications_read_back_witness :
  let a := Notifications.mkNotification "a" Notifications.info "t" "m" 10 false None in
  let b := Notifications.mkNotification "b" Notifications.error "t" "m" 20 true None in
  ((Notifications.saveNotifications [a; b] ;;; Notifications.getNotifications)
     (browser [] signed_out None None)).1 = Ok [b; a].
Proof.
  intros a b.
  destruct (saveNotifications_read_back [a; b] (browser [] signed_out None None) eq_refl)
    as (kept & Hr & Hk & _).
  rewrite Hr, Hk. reflexivity.
Defined.

(** X3: after [markAllAsRead] every entry [getNotifications] lists is read
    and [getUnreadCount] is 0, also when the text under the key could not
    be read and also outside the browser; on a store that holds [l0] the
    list read is [l0] with every entry marked, in the same order. *)
Theorem markAllAsRead_leaves_none_unread w :
  records_only w ->
  exists l,
    (Notifications.markAllAsRead ;;; Notifications.getNotifications) w
    = (Ok l, (Notifications.markAllAsRead w).2)
    /\ Forall (fun n => Notifications.read n = true) l
    /\ ((Notifications.markAllAsRead ;;; Notifications.getUnreadCount) w).1 = Ok 0%nat
    /\ (forall l0, holds w l0 -> l = map Notifications.mark_read l0).
Proof.
  intros _. destruct (getNotifications_total w) as [l0 Hget].
  pose proof (update_then_read (map Notifications.mark_read) w l0 Hget) as Hread.
  pose proof (update_world (map Notifications.mark_read) w l0 Hget) as Hworld.
  assert (Hall : Forall (fun n => Notifications.read n = true)
                        (map Notifications.mark_read l0)).
  { rewrite List.Forall_map. apply Forall_forall. intros n _. reflexivity. }
  assert (Hl : Forall (fun n => Notifications.read n = true)
                 (if window_defined w
                  then take Notifications.MAX_NOTIFICATIONS
                         (Notifications.sort_desc (map Notifications.mark_read l0))
                  else [])).
  { destruct (window_defined w); [apply Forall_kept, Hall | constructor]. }
  eexists. unfold Notifications.markAllAsRead.
  split; [rewrite Hworld; exact Hread|]. split; [exact Hl|]. split.
  - unfold bind at 1. rewrite Hworld.
    rewrite (getUnreadCount_eq _ _ (saved_read_any _ w)). cbn [fst].
    rewrite (unread_zero _ Hl). reflexivity.
  - intros l1 Hh. pose proof (holds_read w l1 Hh) as Hget1.
    destruct Hh as (Hwin & _ & Hs & Hlen).
    assert (l1 = l0) by congruence. subst l1. rewrite Hwin.
    apply kept_list; [|rewrite length_map; exact Hlen].
    apply desc_sorted_map; [reflexivity | exact Hs].
Qed.

Lemma markAllAsRead_leaves_none_unread_witness :
  let a := Notifications.mkNotification "a" Notifications.info "t" "m" 20 false None in
  let b := Notifications.mkNotification "b" Notifications.error "t" "m" 10 false None in
  let w := saved [a; b] (browser [] signed_out None None) in
  (Notifications.getUnreadCount w).1 = Ok 2%nat
  /\ ((Notifications.markAllAsRead ;;; Notifications.getNotifications) w).1
     = Ok [Notifications.mark_read a; Notifications.mark_read b]
  /\ ((Notifications.markAllAsRead ;;; Notifications.getUnreadCount) w).1 = Ok 0%nat.
Proof.
  intros a b w.
  assert (Hrecords : records_only w) by (vm_compute; discriminate).
  destruct (markAllAsRead_leaves_none_unread w Hrecords) as (l & Hread & _ & Hcount & Hl).
  split; [reflexivity|]. split; [|exact Hcount].
  rewrite Hread.
  rewrite (Hl [a; b] (saved_holds [a; b] (browser [] signed_out None None) eq_refl)).
  reflexivity.
Defined.

(** X4: on a store that holds [l], [markNotificationAsRead i] marks the
    entries whose id is [i] and nothing else: the list read afterwards is
    [l] in the same order with those entries read, so no entry is lost, the
    entries with another id are as they were, and the unread count does not
    grow. *)
Theorem markNotificationAsRead_marks_by_id w l i :
  holds w l ->
  let marked :=
    map (fun n => if String.eqb (Notifications.id n) i
                  then Notifications.mark_read n else n) l in
  let w' := (Notifications.markNotificationAsRead i w).2 in
  (Notifications.markNotificationAsRead i w).1 = Ok tt
  /\ holds w' marked
  /\ Forall (fun n => Notifications.id n = i -> Notifications.read n = true) marked
  /\ (unread marked <= unread l)%nat
  /\ (Forall (fun n => Notifications.id n <> i) l -> marked = l).
Proof.
  intros Hh marked w'. subst w'. pose proof (holds_read w l Hh) as Hget.
  destruct Hh as (Hwin & _ & Hs & Hlen).
  unfold Notifications.markNotificationAsRead.
  rewrite (update_world
             (map (fun n => if String.eqb (Notifications.id n) i
                            then Notifications.mark_read n else n)) w l Hget).
  cbn [fst snd]. fold marked.
  assert (Hk : take Notifications.MAX_NOTIFICATIONS (Notifications.sort_desc marked)
               = marked).
  { apply kept_list; [|unfold marked; rewrite length_map; exact Hlen].
    apply desc_sorted_map; [|exact Hs].
    intros n. destruct (String.eqb (Notifications.id n) i); reflexivity. }
  split; [reflexivity|]. split.
  { pose proof (saved_holds marked w Hwin) as H. rewrite Hk in H. exact H. }
  split.
  { unfold marked. rewrite List.Forall_map. apply Forall_forall. intros n _.
    destruct (String.eqb_spec (Notifications.id n) i) as [_ | Hne];
      [reflexivity | intros He; destruct (Hne He)]. }
  split.
  { unfold marked, unread. clear. induction l as [|n l IH]; simpl; [lia|].
    destruct (String.eqb (Notifications.id n) i); simpl;
      destruct (negb (Notifications.read n)); simpl; lia. }
  intros Hno. unfold marked. clear -Hno.
  induction Hno as [|n l Hn _ IH]; simpl; [reflexivity|].
  apply String.eqb_neq in Hn. rewrite Hn, IH. reflexivity.
Qed.

Lemma markNotificationAsRead_marks_by_id_witness :
  let a := Notifications.mkNotification "a" Notifications.info "t" "m" 20 false None in
  let b := Notifications.mkNotification "b" Notifications.error "t" "m" 10 false None in
  let w := saved [a; b] (browser [] signed_out None None) in
  holds (Notifications.markNotificationAsRead "b" w).2
        [a; Notifications.mark_read b].
Proof.
  intros a b w.
  refine (proj1 (proj2 (markNotificationAsRead_marks_by_id w [a; b] "b" _))).
  exact (saved_holds [a; b] (browser [] signed_out None None) eq_refl).
Defined.

(** X5: on a store that holds [l], [deleteNotification i] removes the
    entries whose id is [i] and nothing else: the list read afterwards is
    [l] without them, in the same order; no entry with that id is left, and
    deleting an id the store does not hold changes nothing in the list. *)
Theorem deleteNotification_removes_by_id w l i :
  holds w l ->
  let rest := List.filter (fun n => negb (String.eqb (Notifications.id n) i)) l in
  let w' := (Notifications.deleteNotification i w).2 in
  (Notifications.deleteNotification i w).1 = Ok tt
  /\ holds w' rest
  /\ Forall (fun n => Notifications.id n <> i) rest
  /\ (Forall (fun n => Notifications.id n <> i) l -> rest = l).
Proof.
  intros Hh rest w'. subst w'. pose proof (holds_read w l Hh) as Hget.
  destruct Hh as (Hwin & _ & Hs & Hlen).
  unfold Notifications.deleteNotification.
  rewrite (update_world
             (List.filter (fun n => negb (String.eqb (Notifications.id n) i)))
             w l Hget).
  cbn [fst snd]. fold rest.
  assert (Hk : take Notifications.MAX_NOTIFICATIONS (Notifications.sort_desc rest)
               = rest).
  { apply kept_list; [apply desc_sorted_filter, Hs|].
    unfold rest. etransitivity; [apply List.filter_length_le | exact Hlen]. }
  split; [reflexivity|]. split.
  { pose proof (saved_holds rest w Hwin) as H. rewrite Hk in H. exact H. }
  split.
  { unfold rest. clear. induction l as [|n l IH]; simpl; [constructor|].
    destruct (String.eqb_spec (Notifications.id n) i) as [He | Hne]; simpl;
      [exact IH | constructor; assumption]. }
  intros Hno. unfold rest. clear -Hno.
  induction Hno as [|n l Hn _ IH]; simpl; [reflexivity|].
  apply String.eqb_neq in Hn. rewrite Hn. simpl. rewrite IH. reflexivity.
Qed.

Lemma deleteNotification_removes_by_id_witness :
  let a := Notifications.mkNotification "a" Notifications.info "t" "m" 20 false None in
  let b := Notifications.mkNotification "b" Notifications.error "t" "m" 10 false None in
  let w := saved [a; b] (browser [] signed_out None None) in
  holds (Notifications.deleteNotification "a" w).2 [b].
Proof.
  intros a b w.
  refine (proj1 (proj2 (deleteNotification_removes_by_id w [a; b] "a" _))).
  exact (saved_holds [a; b] (browser [] signed_out None None) eq_refl).
Defined.

(** X6: [clearAllNotifications] empties the store for every reader: the
    list read afterwards is empty and the unread count is 0, whatever the
    store held.  In the browser the key is not removed: it holds the text
    of the empty array. *)
Theorem clearAllNotifications_empties w :
  let w' := (Notifications.clearAllNotifications w).2 in
  (Notifications.clearAllNotifications w).1 = Ok tt
  /\ Notifications.getNotifications w' = (Ok [], w')
  /\ Notifications.getUnreadCount w' = (Ok 0%nat, w')
  /\ localStorage w' !! "notifications"
     = if window_defined w then Some "[]" else localStorage w !! "notifications".
Proof.
  intros w'. subst w'. unfold Notifications.clearAllNotifications.
  rewrite saveNotifications_eq. cbn [fst snd].
  assert (Hget : Notifications.getNotifications (saved [] w) = (Ok [], saved [] w)).
  { rewrite saved_read_any. destruct (window_defined w); reflexivity. }
  split; [reflexivity|]. split; [exact Hget|].
  split; [apply (getUnreadCount_eq _ [] Hget)|].
  unfold saved. destruct (window_defined w); [|reflexivity].
  simpl. apply lookup_insert_eq.
Qed.

Lemma notification_step_saved w o : exists l, notification_step w o = saved l w.
Proof.
  destruct (getNotifications_total w) as [l Hget].
  destruct o as [c| i | i | |]; cbn [notification_step].
  - rewrite (create_eq c w l Hget). eexists. reflexivity.
  - unfold Notifications.markNotificationAsRead.
    rewrite (update_world _ w l Hget). eexists. reflexivity.
  - unfold Notifications.deleteNotification.
    rewrite (update_world _ w l Hget). eexists. reflexivity.
  - unfold Notifications.markAllAsRead.
    rewrite (update_world _ w l Hget). eexists. reflexivity.
  - unfold Notifications.clearAllNotifications. rewrite saveNotifications_eq.
    eexists. reflexivity.
Qed.

Lemma notification_run_window ops : forall w,
  window_defined (notification_run ops w) = window_defined w.
Proof.
  induction ops as [|o ops IH]; intros w; [reflexivity|].
  cbn [notification_run fold_left]. fold (notification_run ops (notification_step w o)).
  rewrite IH. destruct (notification_step_saved w o) as [l ->]. apply saved_window.
Qed.

(** X7: in the browser, after any sequence of calls of [createNotification],
    [markNotificationAsRead], [deleteNotification], [markAllAsRead] and
    [clearAllNotifications] that is not empty, the store holds a list of at
    most 50 entries, newest first, also when the text under the key could
    not be read before. *)
Theorem notification_store_bounded_and_sorted ops o w :
  window_defined w = true ->
  records_only w ->
  exists l, holds (notification_run (ops ++ [o]) w) l.
Proof.
  intros Hwin _. unfold notification_run. rewrite fold_left_app. cbn [fold_left].
  fold (notification_run ops w).
  destruct (notification_step_saved (notification_run ops w) o) as [l ->].
  eexists. apply saved_holds. rewrite notification_run_window. exact Hwin.
Qed.

Lemma notification_store_bounded_and_sorted_witness :
  exists l,
    holds (notification_run
             ([NCreate (mkCreation (Notifications.mkDraw 1 "a" 1) Notifications.info
                                   "t" "m" None)] ++ [NMarkAll])
             (browser [("notifications", "{bad")] signed_out None None)) l.
Proof. apply notification_store_bounded_and_sorted; [reflexivity | exact I]. Defined.

(** X8: the five operations of the notification store write the key
    [notifications] and nothing else: every other key of [localStorage],
    the session store, the registered accessors and the location are as
    they were, after any sequence of calls. *)
Theorem notifications_leave_the_rest_alone ops : forall w,
  let w' := notification_run ops w in
  (forall k, k <> "notifications" -> localStorage w' !! k = localStorage w !! k)
  /\ auth w' = auth w
  /\ getAuthToken w' = getAuthToken w
  /\ clearAuthToken w' = clearAuthToken w
  /\ pathname w' = pathname w
  /\ href_log w' = href_log w.
Proof.
  induction ops as [|o ops IH]; intros w; [cbn; auto 10|].
  cbn [notification_run fold_left]. fold (notification_run ops (notification_step w o)).
  destruct (IH (notification_step w o)) as (Hls & Ha & Hg & Hc & Hp & Hh).
  destruct (notification_step_saved w o) as [l Hl]. rewrite Hl in *.
  cbv zeta. rewrite Ha, Hg, Hc, Hp, Hh.
  assert (Hs : (forall k, k <> "notifications" ->
                          localStorage (saved l w) !! k = localStorage w !! k)
               /\ auth (saved l w) = auth w
               /\ getAuthToken (saved l w) = getAuthToken w
               /\ clearAuthToken (saved l w) = clearAuthToken w
               /\ pathname (saved l w) = pathname w
               /\ href_log (saved l w) = href_log w).
  { unfold saved. destruct (window_defined w); simpl; repeat split; try reflexivity.
    intros k Hk. apply lookup_insert_ne. congruence. }
  destruct Hs as (Hls' & Hrest). split; [|exact Hrest].
  intros k Hk. rewrite Hls by exact Hk. apply Hls', Hk.
Qed.

(** X9: on a store that holds [l] with fewer than 50 entries,
    [createNotification] adds its entry and loses none: the list read
    afterwards is a rearrangement of the new entry and [l], still newest
    first, the new entry is unread and the unread count is one more than
    before. *)
Theorem createNotification_adds_one_unread w l c :
  holds w l ->
  (length l < Notifications.MAX_NOTIFICATIONS)%nat ->
  let r := create c w in
  r.1 = Ok (notification_of c)
  /\ Notifications.read (notification_of c) = false
  /\ exists l',
       holds r.2 l'
       /\ l' ≡ₚ notification_of c :: l
       /\ Notifications.getUnreadCount r.2 = (Ok (S (unread l)), r.2).
Proof.
  intros Hh Hlt r. subst r. pose proof (holds_read w l Hh) as Hget.
  destruct Hh as (Hwin & _ & Hs & Hlen).
  rewrite (create_eq c w l Hget). cbn [fst snd].
  split; [reflexivity|]. split; [reflexivity|].
  pose proof (saved_holds (notification_of c :: l) w Hwin) as Hh.
  assert (Hp : take Notifications.MAX_NOTIFICATIONS
                 (Notifications.sort_desc (notification_of c :: l))
               ≡ₚ notification_of c :: l).
  { rewrite take_ge; [apply sort_desc_perm|].
    rewrite sort_desc_perm. cbn [length]. lia. }
  eexists. split; [exact Hh|]. split; [exact Hp|].
  rewrite (getUnreadCount_eq _ _ (holds_read _ _ Hh)), (unread_perm _ _ Hp).
  reflexivity.
Qed.

Lemma createNotification_adds_one_unread_witness :
  let c := mkCreation (Notifications.mkDraw 1700000000000 "k3x9q0a7b" 1700000000000)
                      Notifications.success "File Ingested" "3 entities" None in
  (create c (saved [] (browser [] signed_out None None))).1 = Ok (notification_of c).
Proof.
  intros c.
  refine (proj1 (createNotification_adds_one_unread _ [] c _ _)).
  - exact (saved_holds [] (browser [] signed_out None None) eq_refl).
  - unfold Notifications.MAX_NOTIFICATIONS. simpl. lia.
Defined.

(** ** The session under the store, the interceptors and [getToken] *)

Lemma with_storage_insert_id k v w :
  localStorage w !! k = Some v -> with_storage (insert k v) w = w.
Proof.
  intros H. unfold with_storage. rewrite (insert_id _ _ _ H). destruct w; reflexivity.
Qed.

Lemma setUser_eq u w :
  useAuthStore.setUser u w =
  (Ok tt,
   mkWorld (window_defined w)
     (if window_defined w
      then <["auth-storage" :=
              JSON_stringify
                (persisted (mkAuthState u (token (auth w)) (truthy u)))]>
             (localStorage w)
      else localStorage w)
     (pathname w) (href_log w)
     (mkAuthState u (token (auth w)) (truthy u))
     (getAuthToken w) (clearAuthToken w)).
Proof. reflexivity. Qed.

Lemma response_interceptor_login_view w r :
  String.prefix "/auth/login" (pathname w) = true ->
  ApiClient.response_interceptor r w = (Ok tt, w).
Proof.
  intros Hpath. unfold ApiClient.response_interceptor.
  destruct r as [|status]; [reflexivity|].
  destruct (ApiClient.is_401 status); [|reflexivity].
  unfold_m. rewrite Hpath, andb_false_r. reflexivity.
Qed.

(** The teardown of the response interceptor, with the accessors of the
    store registered. *)
Lemma teardown_registered w c :
  window_defined w = true ->
  String.prefix "/auth/login" (pathname w) = false ->
  clearAuthToken w = Some c ->
  exists ls,
    ApiClient.response_interceptor (ApiClient.Rejected (Some 401)) w
    = (Ok tt,
       mkWorld true ls (pathname w) ("/auth/login" :: href_log w) signed_out
               (getAuthToken w) (Some c))
    /\ ls !! "auth_token" = None
    /\ forall w', localStorage w' = ls ->
         record_member w' "token" = Ok (Some JNull)
         /\ record_member w' "user" = Ok (Some JNull).
Proof.
  intros Hwin Hpath Hc.
  rewrite (interceptor_401_eq w (Some 401) eq_refl Hwin Hpath).
  rewrite (clearToken_eq w Hwin), Hc. cbn [snd].
  set (w1 := with_storage (delete "auth_token") (run_clear c w).2).
  assert (Hleg1 : localStorage w1 !! "auth_token" = None).
  { unfold w1. simpl. apply lookup_delete_eq. }
  assert (Hrec1 : localStorage w1 !! "auth-storage"
                  = Some (JSON_stringify (persisted signed_out))).
  { unfold w1. rewrite run_clear_eq, Hwin. simpl.
    rewrite !lookup_delete_ne by done. apply lookup_insert_eq. }
  destruct (clear_persisted_session_after_logout w1 Hrec1) as [Htok Husr].
  destruct (clear_persisted_session_frame w1) as (ls & Hcps & Hleg).
  rewrite Hcps in Htok, Husr. rewrite Hcps. cbn [snd] in *.
  exists ls. split; [|split].
  - unfold w1. rewrite run_clear_eq, Hwin, Hc. reflexivity.
  - rewrite Hleg. exact Hleg1.
  - intros w' Hw'. unfold record_member in *. rewrite Hw'.
    simpl in Htok, Husr. split; assumption.
Qed.

Lemma consistent_of_persisted w :
  localStorage w !! "auth_token" = mirrored (token (auth w)) ->
  localStorage w !! "auth-storage" = Some (JSON_stringify (persisted (auth w))) ->
  consistent w.
Proof.
  intros Hleg Hrec. split; [exact Hleg|].
  rewrite !(record_member_persisted w (auth w)) by exact Hrec.
  split; reflexivity.
Qed.

Lemma store_step_frame w o :
  window_defined (store_step w o) = window_defined w
  /\ clearAuthToken (store_step w o) = clearAuthToken w
  /\ getAuthToken (store_step w o) = getAuthToken w
  /\ pathname (store_step w o) = pathname w.
Proof.
  destruct o as [t|u| |]; cbn [store_step].
  - rewrite setToken_eq. auto.
  - rewrite setUser_eq. auto.
  - rewrite logout_eq. auto.
  - destruct (String.prefix "/auth/login" (pathname w)) eqn:Hpath.
    { rewrite response_interceptor_login_view by exact Hpath. auto. }
    destruct (window_defined w) eqn:Hwin.
    + rewrite (interceptor_401_eq w (Some 401) eq_refl Hwin Hpath).
      rewrite (clearToken_eq w Hwin). cbn [snd].
      destruct (clear_persisted_session_frame
                  (with_storage (delete "auth_token")
                     match clearAuthToken w with
                     | Some c => (run_clear c w).2
                     | None => w
                     end)) as (ls & -> & _).
      cbn. destruct (clearAuthToken w) as [c|] eqn:Hc; [rewrite run_clear_eq|];
        cbn; auto.
    + unfold ApiClient.response_interceptor.
      change (ApiClient.is_401 (Some 401)) with true. unfold_m. cbv beta iota.
      rewrite Hwin. cbn [andb]. auto.
Qed.

Lemma store_step_consistent w o :
  window_defined w = true ->
  clearAuthToken w <> None ->
  consistent w ->
  consistent (store_step w o).
Proof.
  intros Hwin Hreg (Hleg & Htok & Husr).
  destruct o as [t|u| |]; cbn [store_step].
  - destruct (session_step_consistent w (SetToken t) Hwin eq_refl) as [H1 H2].
    apply consistent_of_persisted; assumption.
  - apply consistent_of_persisted; rewrite setUser_eq, Hwin; cbn.
    + rewrite lookup_insert_ne by done. exact Hleg.
    + apply lookup_insert_eq.
  - destruct (session_step_consistent w Logout Hwin eq_refl) as [H1 H2].
    apply consistent_of_persisted; assumption.
  - destruct (String.prefix "/auth/login" (pathname w)) eqn:Hpath.
    + rewrite response_interceptor_login_view by exact Hpath.
      repeat split; assumption.
    + destruct (clearAuthToken w) as [c|] eqn:Hc; [|done].
      destruct (teardown_registered w c Hwin Hpath Hc) as (ls & -> & Hl & Hrec).
      cbn [snd]. destruct (Hrec (mkWorld true ls (pathname w)
                                   ("/auth/login" :: href_log w) signed_out
                                   (getAuthToken w) (Some c)) eq_refl) as [H1 H2].
      repeat split; assumption.
Qed.

(** X10: [setUser] leaves the token alone: the token of the store and the
    legacy key are as they were; the user is the one given and
    [isAuthenticated] says whether there is one; in the browser the
    persisted record carries the new user and the token of the store. *)
Theorem setUser_keeps_the_token u w :
  let w' := (useAuthStore.setUser u w).2 in
  (useAuthStore.setUser u w).1 = Ok tt
  /\ user (auth w') = u
  /\ isAuthenticated (auth w') = truthy u
  /\ token (auth w') = token (auth w)
  /\ localStorage w' !! "auth_token" = localStorage w !! "auth_token"
  /\ (window_defined w = true ->
      record_member w' "user" = Ok (Some (json_of_user u))
      /\ record_member w' "token" = Ok (Some (json_of_token (token (auth w))))).
Proof.
  cbv zeta. rewrite setUser_eq. cbn [fst snd auth user token isAuthenticated localStorage].
  repeat split.
  - destruct (window_defined w); [|reflexivity]. apply lookup_insert_ne. done.
  - rewrite (record_member_persisted _
               (mkAuthState u (token (auth w)) (truthy u))); [reflexivity|].
    cbn. rewrite H. apply lookup_insert_eq.
  - rewrite (record_member_persisted _
               (mkAuthState u (token (auth w)) (truthy u))); [reflexivity|].
    cbn. rewrite H. apply lookup_insert_eq.
Qed.

(** X11: [setToken] of the store is idempotent, and it changes the token
    only: a second call with the same token leaves the world of the first,
    and the user and [isAuthenticated] are as before the first. *)
Theorem setToken_idempotent t w :
  let w1 := (useAuthStore.setToken t w).2 in
  useAuthStore.setToken t w1 = (Ok tt, w1)
  /\ token (auth w1) = t
  /\ user (auth w1) = user (auth w)
  /\ isAuthenticated (auth w1) = isAuthenticated (auth w).
Proof.
  cbv zeta. rewrite !setToken_eq. cbn.
  repeat split. f_equal. f_equal.
  destruct (window_defined w); [|reflexivity].
  destruct (mirrored t) as [t'|]; apply map_eq; intros k;
    destruct (decide (k = "auth_token")) as [Hk1|Hk1];
    destruct (decide (k = "auth-storage")) as [Hk2|Hk2];
    try congruence; subst;
    repeat (rewrite ?lookup_insert_eq, ?lookup_delete_eq;
            rewrite ?lookup_insert_ne, ?lookup_delete_ne by congruence);
    reflexivity.
Qed.

(** X12: the session stays consistent.  In the browser, with the accessors
    of the store registered, if the store, the legacy key and the persisted
    record tell the same session, they still do after any sequence of
    [setToken], [setUser], [logout] and responses with status 401: the
    legacy key holds the token of the store when that is not empty and is
    absent otherwise, and the record holds the token and the user of the
    store. *)
Theorem session_stays_consistent ops : forall w,
  window_defined w = true ->
  clearAuthToken w <> None ->
  consistent w ->
  consistent (store_run ops w).
Proof.
  induction ops as [|o ops IH]; intros w Hwin Hreg Hcons; [exact Hcons|].
  cbn [store_run fold_left]. fold (store_run ops (store_step w o)).
  destruct (store_step_frame w o) as (Hw & Hc & _ & _).
  apply IH; [congruence | congruence |].
  apply store_step_consistent; assumption.
Qed.

Lemma session_stays_consistent_witness :
  let w := (auth_store_init (browser [] signed_out None None)).2 in
  consistent
    (store_run [OSetToken (Some "abc"); OSetUser (Some (JObj [("username", JStr "u")]));
                OUnauthorized; OSetToken (Some "xyz")]
               (useAuthStore.logout w).2).
Proof.
  intros w. apply session_stays_consistent.
  - reflexivity.
  - discriminate.
  - vm_compute. repeat split.
Defined.

(** X13: in a consistent session, [getToken] is a pure read when the
    registered accessor has no token to offer: it returns the token of the
    store ([null] for an empty one) and writes nothing, and the request
    interceptor sets [Authorization] to [Bearer] and that token, or sets no
    header when there is none. *)
Theorem getToken_reads_consistent_session w :
  window_defined w = true ->
  consistent w ->
  (ApiClient.token_from_accessor w).1 = Ok None ->
  ApiClient.getToken w = (Ok (option_map JStr (mirrored (token (auth w)))), w)
  /\ ApiClient.request_interceptor true w
     = (Ok (option_map (fun t => "Bearer " +:+ t) (mirrored (token (auth w)))), w).
Proof.
  intros Hwin (Hleg & Htok & _) Hacc.
  assert (Hget : ApiClient.getToken w
                 = (Ok (option_map JStr (mirrored (token (auth w)))), w)).
  { rewrite getToken_eq, Hwin. cbn [negb].
    rewrite token_from_store_eq, Htok.
    destruct (token (auth w)) as [t|]; cbn [json_of_token mirrored] in *.
    - cbn [truthy truthy_str js_to_string] in *. destruct (negb (String.eqb t "")).
      + rewrite (with_storage_insert_id _ _ _ Hleg). reflexivity.
      + rewrite (stage_accessor_none w Hacc), token_from_legacy_eq, Hleg. reflexivity.
    - cbn [truthy].
      rewrite (stage_accessor_none w Hacc), token_from_legacy_eq, Hleg. reflexivity. }
  split; [exact Hget|].
  unfold ApiClient.request_interceptor, bind. rewrite Hget.
  destruct (token (auth w)) as [t|]; cbn [mirrored option_map]; [|reflexivity].
  cbn [truthy_str]. destruct (negb (String.eqb t "")) eqn:Ht; [|reflexivity].
  cbn [option_map truthy]. rewrite Ht. reflexivity.
Qed.

Lemma getToken_reads_consistent_session_witness :
  let w := (useAuthStore.setToken (Some "abc") (browser [] signed_out None None)).2 in
  ApiClient.getToken w = (Ok (Some (JStr "abc")), w).
Proof.
  intros w.
  refine (proj1 (getToken_reads_consistent_session w eq_refl _ eq_refl)).
  vm_compute. repeat split.
Defined.

Lemma getToken_store_hit w t :
  window_defined w = true ->
  consistent w ->
  token (auth w) = Some t ->
  truthy_str (Some t) = true ->
  ApiClient.getToken w = (Ok (Some (JStr t)), w)
  /\ ApiClient.request_interceptor true w = (Ok (Some ("Bearer " +:+ t)), w)
  /\ ApiClient.request_interceptor false w = (Ok None, w).
Proof.
  intros Hwin (Hleg & Htok & _) Ht Htruthy. rewrite Ht in Hleg, Htok.
  cbn [mirrored json_of_token] in *. rewrite Htruthy in Hleg.
  assert (Hget : ApiClient.getToken w = (Ok (Some (JStr t)), w)).
  { rewrite getToken_eq, Hwin. cbn [negb]. rewrite token_from_store_eq, Htok.
    cbn [truthy truthy_str js_to_string] in *. rewrite Htruthy.
    rewrite (with_storage_insert_id _ _ _ Hleg). reflexivity. }
  split; [exact Hget|].
  unfold ApiClient.request_interceptor, bind. rewrite Hget.
  cbn [truthy truthy_str js_to_string] in *. rewrite Htruthy. split; reflexivity.
Qed.

Lemma setToken_consistent t w :
  window_defined w = true -> consistent (useAuthStore.setToken t w).2.
Proof.
  intros Hwin. destruct (session_step_consistent w (SetToken t) Hwin eq_refl) as [H1 H2].
  apply consistent_of_persisted; assumption.
Qed.

Lemma logout_consistent w :
  window_defined w = true -> consistent (useAuthStore.logout w).2.
Proof.
  intros Hwin. destruct (session_step_consistent w Logout Hwin eq_refl) as [H1 H2].
  apply consistent_of_persisted; assumption.
Qed.

(** X14: signing in reaches the requests.  In the browser, after
    [setToken(t)] of the store with a token that is not empty, [getToken]
    returns [t] and writes nothing, and the request interceptor sets
    [Authorization] to [Bearer t] on a request that has headers and sets
    nothing on one that has none. *)
Theorem setToken_then_request t w :
  window_defined w = true ->
  truthy_str (Some t) = true ->
  let w1 := (useAuthStore.setToken (Some t) w).2 in
  ApiClient.getToken w1 = (Ok (Some (JStr t)), w1)
  /\ ApiClient.request_interceptor true w1 = (Ok (Some ("Bearer " +:+ t)), w1)
  /\ ApiClient.request_interceptor false w1 = (Ok None, w1).
Proof.
  intros Hwin Ht w1. subst w1. apply getToken_store_hit.
  - rewrite setToken_eq. exact Hwin.
  - apply setToken_consistent, Hwin.
  - rewrite setToken_eq. reflexivity.
  - exact Ht.
Qed.

Lemma setToken_then_request_witness :
  let w1 := (useAuthStore.setToken (Some "abc")
               (browser [("auth-storage", "{bad")] signed_out None None)).2 in
  ApiClient.request_interceptor true w1 = (Ok (Some "Bearer abc"), w1).
Proof.
  intros w1.
  exact (proj1 (proj2 (setToken_then_request "abc"
                         (browser [("auth-storage", "{bad")] signed_out None None)
                         eq_refl eq_refl))).
Defined.

(** X15: what [getToken] returns after [logout] of the store.  In the
    browser it returns [null] and writes nothing, unless the accessor that
    was registered still offers a token that is not empty (the token of the
    state object it closed over): then [getToken] returns that token and
    writes it back under the legacy key. *)
Theorem logout_then_getToken w :
  window_defined w = true ->
  let w1 := (useAuthStore.logout w).2 in
  ApiClient.getToken w1 =
  match getAuthToken w with
  | Some (Some a) =>
      if truthy_str (Some a)
      then (Ok (Some (JStr a)), with_storage (insert "auth_token" a) w1)
      else (Ok None, w1)
  | _ => (Ok None, w1)
  end.
Proof.
  intros Hwin w1.
  destruct (logout_consistent w Hwin) as (Hleg & Htok & _). fold w1 in Hleg, Htok.
  assert (Hw1 : window_defined w1 = true /\ getAuthToken w1 = getAuthToken w
                /\ token (auth w1) = None).
  { unfold w1. rewrite logout_eq. auto. }
  destruct Hw1 as (Hwin1 & Hg & Hnone). rewrite Hnone in Hleg, Htok.
  rewrite getToken_eq, Hwin1. cbn [negb]. rewrite token_from_store_eq, Htok.
  cbn [json_of_token truthy]. rewrite token_from_accessor_eq, Hg.
  destruct (getAuthToken w) as [[a|]|].
  - destruct (truthy_str (Some a)); [reflexivity|].
    rewrite token_from_legacy_eq, Hleg. reflexivity.
  - rewrite token_from_legacy_eq, Hleg. reflexivity.
  - rewrite token_from_legacy_eq, Hleg. reflexivity.
Qed.

Lemma logout_then_getToken_witness :
  let w1 := (useAuthStore.logout
               (browser [("auth_token", "abc")]
                        (mkAuthState None (Some "abc") true) None None)).2 in
  ApiClient.getToken w1 = (Ok None, w1).
Proof.
  intros w1.
  exact (logout_then_getToken
           (browser [("auth_token", "abc")]
                    (mkAuthState None (Some "abc") true) None None) eq_refl).
Defined.

(** X16: loading the store module establishes the session.  In the browser,
    when the record under [auth-storage] is the one the store persists for
    its state, the statements at the end of [auth-store.ts] register both
    accessors, leave the store and the record as they are, and write the
    token of the store under the legacy key when it is not empty; the
    session is consistent afterwards if the token is not empty or the legacy
    key was absent.  An empty token does not remove a legacy key that is
    there. *)
Theorem auth_store_init_establishes_session w :
  window_defined w = true ->
  localStorage w !! "auth-storage" = Some (JSON_stringify (persisted (auth w))) ->
  let w1 := (auth_store_init w).2 in
  (auth_store_init w).1 = Ok tt
  /\ getAuthToken w1 = Some (token (auth w))
  /\ clearAuthToken w1 = Some ClearByLogout
  /\ auth w1 = auth w
  /\ localStorage w1 =
     match mirrored (token (auth w)) with
     | Some t => <["auth_token" := t]> (localStorage w)
     | None => localStorage w
     end
  /\ (mirrored (token (auth w)) <> None \/ localStorage w !! "auth_token" = None ->
      consistent w1).
Proof.
  intros Hwin Hrec.
  assert (Heq : auth_store_init w =
                (Ok tt,
                 mkWorld true
                   match mirrored (token (auth w)) with
                   | Some t => <["auth_token" := t]> (localStorage w)
                   | None => localStorage w
                   end
                   (pathname w) (href_log w) (auth w)
                   (Some (token (auth w))) (Some ClearByLogout))).
  { unfold auth_store_init, registerAuthTokenAccessors, sync_legacy, mirrored.
    unfold_m. rewrite Hwin.
    destruct (token (auth w)) as [t|]; [|cbn; rewrite ?Hwin; reflexivity].
    destruct (truthy_str (Some t)); cbn; rewrite ?Hwin; reflexivity. }
  cbv zeta. rewrite Heq. cbn [fst snd].
  do 5 (split; [reflexivity|]).
  intros Hcase. apply consistent_of_persisted; cbn.
  - destruct (mirrored (token (auth w))) as [t|] eqn:Hm.
    + apply lookup_insert_eq.
    + destruct Hcase as [Hc | Hc]; [destruct (Hc eq_refl) | exact Hc].
  - destruct (mirrored (token (auth w))) as [t|];
      [rewrite lookup_insert_ne by done|]; exact Hrec.
Qed.

Lemma auth_store_init_establishes_session_witness :
  let session := mkAuthState None (Some "abc") false in
  let w := browser [("auth-storage", JSON_stringify (persisted session))]
                   session None None in
  consistent (auth_store_init w).2.
Proof.
  intros session w.
  refine (proj2 (proj2 (proj2 (proj2 (proj2
            (auth_store_init_establishes_session w eq_refl eq_refl))))) _).
  left. discriminate.
Defined.

(** [getToken] never throws and writes to [localStorage] only. *)
Lemma getToken_storage w :
  exists r ls, ApiClient.getToken w = (Ok r, with_storage (fun _ => ls) w).
Proof.
  assert (Hsame : with_storage (fun _ => localStorage w) w = w) by (destruct w; reflexivity).
  rewrite getToken_eq. destruct (negb (window_defined w)).
  { exists None, (localStorage w). rewrite Hsame. reflexivity. }
  rewrite token_from_store_eq.
  assert (Hrest : exists r ls,
             match ApiClient.token_from_accessor w with
             | (Ok (Some t), w2) => (Ok (Some t), w2)
             | (Ok None, w2) => ApiClient.token_from_legacy w2
             | (Throw e, w2) => (Throw e, w2)
             end = (Ok r, with_storage (fun _ => ls) w)).
  { rewrite token_from_accessor_eq.
    assert (Hleg : exists r ls,
               ApiClient.token_from_legacy w = (Ok r, with_storage (fun _ => ls) w)).
    { rewrite token_from_legacy_eq.
      destruct (localStorage w !! "auth_token") as [t|];
        [|exists None, (localStorage w); rewrite Hsame; reflexivity].
      destruct (truthy_str (Some t));
        [|exists None, (localStorage w); rewrite Hsame; reflexivity].
      rewrite migrate_eq.
      repeat (match goal with |- context [match ?x with _ => _ end] => destruct x end);
        try (exists (Some (JStr t)), (localStorage w); rewrite Hsame; reflexivity);
        eexists _, _; reflexivity. }
    destruct (getAuthToken w) as [[a|]|]; try exact Hleg.
    destruct (truthy_str (Some a)); [|exact Hleg].
    eexists _, _. reflexivity. }
  destruct (record_member w "token") as [[t|]|e]; try exact Hrest.
  destruct (truthy (Some t)); [|exact Hrest].
  eexists _, _. reflexivity.
Qed.

(** X17: [ApiClient.setToken] writes past the store.  In the browser, with
    the accessors registered and a record that is absent, empty, or parses
    to a value other than [null], it puts the token into the persisted
    record and touches neither the store nor the legacy key; the
    [getToken] that follows returns the token when it is not empty. *)
Theorem ApiClient_setToken_then_getToken w t :
  window_defined w = true ->
  getAuthToken w <> None ->
  migratable w = true ->
  let w1 := (ApiClient.setToken t w).2 in
  (ApiClient.setToken t w).1 = Ok tt
  /\ record_member w1 "token" = Ok (Some (JStr t))
  /\ localStorage w1 !! "auth_token" = localStorage w !! "auth_token"
  /\ auth w1 = auth w
  /\ (truthy_str (Some t) = true ->
      (ApiClient.getToken w1).1 = Ok (Some (JStr t))).
Proof.
  intros Hwin Hreg Hmig.
  destruct (ApiClient_setToken_record w t Hwin Hreg Hmig)
    as (ls & Heq & Hleg & Hrec).
  cbv zeta. rewrite Heq. cbn [fst snd].
  split; [reflexivity|]. split; [exact Hrec|]. split; [exact Hleg|].
  split; [reflexivity|]. intros Ht.
  apply getToken_from_store; [exact Hwin|].
  rewrite token_from_store_eq, Hrec. cbn [truthy]. cbn [truthy_str] in Ht.
  rewrite Ht. reflexivity.
Qed.

Lemma ApiClient_setToken_then_getToken_witness :
  let w := (auth_store_init (browser [] signed_out None None)).2 in
  (ApiClient.getToken (ApiClient.setToken "abc" w).2).1 = Ok (Some (JStr "abc")).
Proof.
  intros w.
  refine (proj2 (proj2 (proj2 (proj2
            (ApiClient_setToken_then_getToken w "abc" eq_refl _ eq_refl)))) eq_refl).
  discriminate.
Defined.

(** ** Signing in and out *)

Lemma authApi_logout_eq w :
  window_defined w = true ->
  exists ls,
    ApiClient.setToken "" w = (Ok tt, with_storage (fun _ => ls) w)
    /\ authApi.logout w
       = (Ok tt,
          mkWorld true ls (pathname w) ("/auth/login" :: href_log w) (auth w)
                  (getAuthToken w) (clearAuthToken w)).
Proof.
  intros Hwin. destruct (ApiClient_setToken_storage "" w) as [ls Hls].
  exists ls. split; [exact Hls|].
  unfold authApi.logout. unfold bind at 1. rewrite Hls.
  unfold_m. unfold with_storage. cbn. rewrite Hwin. reflexivity.
Qed.

(** X18: both logout handlers end signed out.  In the browser, whatever the
    storage held, [handleLogout] of the settings page ([authApi.logout]
    followed by [logout] of the store) and [handleLogout] of the side bar
    leave the store empty, the legacy key absent and the persisted record
    that of the empty state; the first asks for one navigation to
    [/auth/login] through [location.href], the second hands that route to
    the router. *)
Theorem handleLogout_signs_out w :
  window_defined w = true ->
  let r1 := SettingsPage.handleLogout w in
  let r2 := Sidebar.handleLogout w in
  r1.1 = Ok tt
  /\ logged_out r1.2
  /\ href_log r1.2 = "/auth/login" :: href_log w
  /\ r2.1 = Ok "/auth/login"
  /\ logged_out r2.2
  /\ href_log r2.2 = href_log w.
Proof.
  intros Hwin r1 r2. subst r1 r2.
  destruct (authApi_logout_eq w Hwin) as (ls & _ & Hout).
  unfold SettingsPage.handleLogout, Sidebar.handleLogout.
  unfold bind. rewrite Hout, !logout_eq. cbn [fst snd]. rewrite Hwin.
  unfold logged_out. cbn.
  repeat split; try (apply lookup_delete_eq);
    intros _; rewrite lookup_delete_ne by done; apply lookup_insert_eq.
Qed.

Lemma handleLogout_signs_out_witness :
  logged_out
    (SettingsPage.handleLogout
       (browser [("auth-storage", "{bad"); ("auth_token", "abc")]
                (mkAuthState None (Some "abc") true) None None)).2.
Proof.
  exact (proj1 (proj2 (handleLogout_signs_out
                         (browser [("auth-storage", "{bad"); ("auth_token", "abc")]
                                  (mkAuthState None (Some "abc") true) None None)
                         eq_refl))).
Defined.

(** X19: [authApi.logout] does not end a session by itself.  In the
    browser, with the accessors registered and a consistent session whose
    token [t] is not empty, it empties the token of the persisted record and
    asks for the navigation to [/auth/login], but the store and the legacy
    key still hold [t], and the [getToken] that follows returns a token: the
    one the registered accessor offers, or [t] from the legacy key. *)
Theorem authApi_logout_keeps_the_session w t g :
  window_defined w = true ->
  consistent w ->
  token (auth w) = Some t ->
  truthy_str (Some t) = true ->
  getAuthToken w = Some g ->
  let w1 := (authApi.logout w).2 in
  auth w1 = auth w
  /\ localStorage w1 !! "auth_token" = Some t
  /\ record_member w1 "token" = Ok (Some (JStr ""))
  /\ href_log w1 = "/auth/login" :: href_log w
  /\ (ApiClient.getToken w1).1
     = Ok (Some (JStr match mirrored g with Some a => a | None => t end)).
Proof.
  intros Hwin Hcons Ht Htruthy Hg w1.
  assert (Hmig : migratable w = true).
  { destruct Hcons as (_ & Hrec & _). unfold record_member in Hrec.
    unfold migratable.
    destruct (localStorage w !! "auth-storage") as [text|]; [|reflexivity].
    destruct (truthy_str (Some text)); [|reflexivity].
    destruct (JSON_parse text) as [[]|]; try reflexivity; discriminate. }
  assert (Hreg : getAuthToken w <> None) by congruence.
  destruct (ApiClient_setToken_record w "" Hwin Hreg Hmig)
    as (ls & Hset & Hleg & Hrec).
  destruct (authApi_logout_eq w Hwin) as (ls' & Hset' & Hout).
  assert (ls' = ls).
  { rewrite Hset in Hset'. injection Hset' as Hs. congruence. }
  subst ls'. subst w1. rewrite Hout. cbn [snd auth localStorage href_log].
  destruct Hcons as (Hmirror & _). rewrite Ht in Hmirror.
  cbn [mirrored] in Hmirror. rewrite Htruthy in Hmirror.
  split; [reflexivity|]. split; [congruence|]. split; [exact Hrec|].
  split; [reflexivity|].
  set (w1 := mkWorld true ls (pathname w) ("/auth/login" :: href_log w) (auth w)
                     (getAuthToken w) (clearAuthToken w)).
  assert (Hrec1 : record_member w1 "token" = Ok (Some (JStr ""))) by exact Hrec.
  rewrite getToken_eq. cbn [window_defined w1 negb].
  rewrite token_from_store_eq, Hrec1. cbn [truthy String.eqb negb].
  rewrite token_from_accessor_eq. cbn [getAuthToken w1]. rewrite Hg.
  assert (Hlegacy : (ApiClient.token_from_legacy w1).1 = Ok (Some (JStr t))).
  { rewrite token_from_legacy_eq. cbn [localStorage w1].
    rewrite Hleg, Hmirror, Htruthy. reflexivity. }
  destruct g as [a|]; cbn [mirrored].
  - destruct (truthy_str (Some a)); [reflexivity|].
    destruct (ApiClient.token_from_legacy w1) as [r w2]. exact Hlegacy.
  - destruct (ApiClient.token_from_legacy w1) as [r w2]. exact Hlegacy.
Qed.

Lemma authApi_logout_keeps_the_session_witness :
  let w0 := (auth_store_init (browser [] signed_out None None)).2 in
  let w := (useAuthStore.setToken (Some "abc") w0).2 in
  (ApiClient.getToken (authApi.logout w).2).1 = Ok (Some (JStr "abc")).
Proof.
  intros w0 w.
  refine (proj2 (proj2 (proj2 (proj2
            (authApi_logout_keeps_the_session w "abc" None eq_refl _ eq_refl eq_refl
                                              eq_refl))))).
  vm_compute. repeat split.
Defined.

(** X20: the two route guards never disagree.  For the same token,
    [isAuthenticated] and legacy key, either the guard of the dashboard
    lets the visitor in and the login page sends them to [/dashboard], or
    the guard of the dashboard sends them to [/auth/login] and the login
    page keeps them: no state of the session makes the two pages send the
    visitor back and forth, and none leaves them on the loading view of the
    dashboard without a redirect. *)
Theorem guards_agree tok authenticated legacy s p :
  let d := DashboardLayout.checkAuth tok authenticated legacy s in
  let l := LoginPage.checkAuth tok authenticated legacy p in
  (DashboardLayout.pushed d = DashboardLayout.pushed s
   /\ DashboardLayout.hasCheckedAuth d = true
   /\ l = "/dashboard" :: p)
  \/ (DashboardLayout.pushed d = "/auth/login" :: DashboardLayout.pushed s
      /\ DashboardLayout.hasCheckedAuth d = DashboardLayout.hasCheckedAuth s
      /\ l = p).
Proof.
  unfold DashboardLayout.checkAuth, LoginPage.checkAuth. cbv zeta.
  destruct (authenticated || truthy_str (if truthy_str tok then tok else legacy));
    [left | right]; repeat split.
Qed.

Lemma guard_lets_in w s p :
  (isAuthenticated (auth w) = true
   \/ truthy_str (token (auth w)) = true
   \/ truthy_str (localStorage w !! "auth_token") = true) ->
  DashboardLayout.pushed (guard_check w s) = DashboardLayout.pushed s
  /\ DashboardLayout.hasCheckedAuth (guard_check w s) = true
  /\ login_check w p = "/dashboard" :: p.
Proof.
  intros H. unfold guard_check, login_check, DashboardLayout.checkAuth,
              LoginPage.checkAuth. cbv zeta.
  assert (Hh : isAuthenticated (auth w)
               || truthy_str (if truthy_str (token (auth w))
                              then token (auth w)
                              else localStorage w !! "auth_token") = true).
  { destruct (isAuthenticated (auth w)); [reflexivity|]. cbn [orb].
    destruct (truthy_str (token (auth w))) eqn:Ht; [exact Ht|].
    destruct H as [H | [H | H]]; [discriminate | discriminate | exact H]. }
  rewrite Hh. repeat split.
Qed.

Lemma guard_sends_away w s p :
  auth w = signed_out ->
  localStorage w !! "auth_token" = None ->
  DashboardLayout.pushed (guard_check w s) = "/auth/login" :: DashboardLayout.pushed s
  /\ login_check w p = p.
Proof.
  intros Ha Hl. unfold guard_check, login_check, DashboardLayout.checkAuth,
                  LoginPage.checkAuth. rewrite Ha, Hl. split; reflexivity.
Qed.

(** X21: the guards follow the session.  In the browser, after [setToken]
    of the store with a token that is not empty the guard of the dashboard
    lets the visitor in and the login page sends them to [/dashboard];
    after [logout] of the store, and after a response with status 401 off
    the login view with the accessors registered, the guard of the
    dashboard sends them to [/auth/login] and the login page keeps them. *)
Theorem guards_follow_the_session w s p :
  window_defined w = true ->
  (forall t, truthy_str (Some t) = true ->
     let w1 := (useAuthStore.setToken (Some t) w).2 in
     DashboardLayout.pushed (guard_check w1 s) = DashboardLayout.pushed s
     /\ DashboardLayout.hasCheckedAuth (guard_check w1 s) = true
     /\ login_check w1 p = "/dashboard" :: p)
  /\ (let w1 := (useAuthStore.logout w).2 in
      DashboardLayout.pushed (guard_check w1 s)
      = "/auth/login" :: DashboardLayout.pushed s
      /\ login_check w1 p = p)
  /\ (String.prefix "/auth/login" (pathname w) = false ->
      clearAuthToken w <> None ->
      let w1 := (ApiClient.response_interceptor (ApiClient.Rejected (Some 401)) w).2 in
      DashboardLayout.pushed (guard_check w1 s)
      = "/auth/login" :: DashboardLayout.pushed s
      /\ login_check w1 p = p).
Proof.
  intros Hwin. split; [|split].
  - intros t Ht w1. apply guard_lets_in. right. left.
    unfold w1. rewrite setToken_eq. exact Ht.
  - intros w1. apply guard_sends_away; unfold w1; rewrite logout_eq; [reflexivity|].
    cbn. rewrite Hwin. apply lookup_delete_eq.
  - intros Hpath Hreg w1. destruct (clearAuthToken w) as [c|] eqn:Hc; [|done].
    destruct (teardown_registered w c Hwin Hpath Hc) as (ls & Heq & Hleg & _).
    apply guard_sends_away; unfold w1; rewrite Heq; [reflexivity | exact Hleg].
Qed.

Lemma guards_follow_the_session_witness :
  let w1 := (useAuthStore.logout
               (browser [("auth_token", "abc")]
                        (mkAuthState None (Some "abc") true) None None)).2 in
  login_check w1 [] = [].
Proof.
  intros w1.
  exact (proj2 (proj1 (proj2 (guards_follow_the_session
                                (browser [("auth_token", "abc")]
                                         (mkAuthState None (Some "abc") true) None None)
                                DashboardLayout.mount [] eq_refl)))).
Defined.

Lemma request_interceptor_storage b w :
  exists h ls,
    ApiClient.request_interceptor b w = (Ok h, with_storage (fun _ => ls) w).
Proof.
  destruct (getToken_storage w) as (r & ls & Hget).
  unfold ApiClient.request_interceptor, bind. rewrite Hget.
  destruct r as [t|]; [|eexists _, _; reflexivity].
  destruct (truthy (Some t) && b); eexists _, _; reflexivity.
Qed.

Lemma axios_request_login_view {A} (r : reply A) w :
  String.prefix "/auth/login" (pathname w) = true ->
  exists h ls, axios_request r w = (Ok h, with_storage (fun _ => ls) w).
Proof.
  intros Hpath. destruct (request_interceptor_storage true w) as (h & ls & Hreq).
  exists h, ls. unfold axios_request. unfold bind at 1. rewrite Hreq.
  unfold bind at 1. rewrite response_interceptor_login_view by exact Hpath.
  reflexivity.
Qed.

Lemma login_login_view (r : reply string) w :
  String.prefix "/auth/login" (pathname w) = true ->
  exists ls,
    authApi.login r w
    = (Ok match r with Response t => Some t | Failure _ => None end,
       with_storage (fun _ => ls) w).
Proof.
  intros Hpath. destruct (axios_request_login_view r w Hpath) as (h & ls & Hreq).
  unfold authApi.login. unfold bind at 1. rewrite Hreq.
  destruct r as [t|st]; [|exists ls; reflexivity].
  destruct (truthy_str (Some t)).
  - destruct (ApiClient_setToken_storage t (with_storage (fun _ => ls) w))
      as [ls' Hset].
    exists ls'. unfold bind at 1. rewrite Hset. reflexivity.
  - exists ls. reflexivity.
Qed.

(** X22: signing in on the login page.  When the server answers the login
    request with a token [t] that is not empty, [handleSubmit] leaves [t]
    in the store, under the legacy key and in the persisted record, sends
    the profile request with [Authorization: Bearer t], and asks for the
    navigation to [/dashboard]; the guard of the dashboard then lets the
    visitor in.  The profile is stored when the server sends one; when the
    profile request fails, with whatever status, the token stays (on the
    login view a 401 tears nothing down) and the user is as before.  When
    the login request itself fails, the store is as it was and no
    navigation is asked for. *)
Theorem handleSubmit_signs_in w t me :
  window_defined w = true ->
  String.prefix "/auth/login" (pathname w) = true ->
  truthy_str (Some t) = true ->
  let r := LoginPage.handleSubmit (Response t) me w in
  r.1 = Ok (Some ("Bearer " +:+ t))
  /\ token (auth r.2) = Some t
  /\ localStorage r.2 !! "auth_token" = Some t
  /\ record_member r.2 "token" = Ok (Some (JStr t))
  /\ href_log r.2 = "/dashboard" :: href_log w
  /\ match me with
     | Response profile =>
         user (auth r.2) = Some profile
         /\ isAuthenticated (auth r.2) = truthy (Some profile)
     | Failure _ =>
         user (auth r.2) = user (auth w)
         /\ isAuthenticated (auth r.2) = isAuthenticated (auth w)
     end
  /\ (forall s, DashboardLayout.pushed (guard_check r.2 s) = DashboardLayout.pushed s)
  /\ (forall status,
        let r' := LoginPage.handleSubmit (Failure status) me w in
        r'.1 = Ok None /\ auth r'.2 = auth w /\ href_log r'.2 = href_log w).
Proof.
  intros Hwin Hpath Ht r.
  assert (Hfail : forall status,
            let r' := LoginPage.handleSubmit (Failure status) me w in
            r'.1 = Ok None /\ auth r'.2 = auth w /\ href_log r'.2 = href_log w).
  { intros status r'.
    destruct (login_login_view (Failure status) w Hpath) as (ls & Hl).
    assert (E : r' = (Ok None, with_storage (fun _ => ls) w)).
    { unfold r', LoginPage.handleSubmit, bind. rewrite Hl. reflexivity. }
    rewrite E. repeat split. }
  destruct (login_login_view (Response t) w Hpath) as (ls & Hl).
  set (wb := with_storage (fun _ => ls) w) in *.
  set (wc := (useAuthStore.setToken (Some t) wb).2).
  assert (Hwc : useAuthStore.setToken (Some t) wb = (Ok tt, wc)).
  { unfold wc. rewrite setToken_eq. reflexivity. }
  assert (Hc : consistent wc) by (apply setToken_consistent; exact Hwin).
  assert (Hfacts : window_defined wc = true
                   /\ auth wc = mkAuthState (user (auth w)) (Some t)
                                            (isAuthenticated (auth w))
                   /\ href_log wc = href_log w
                   /\ pathname wc = pathname w).
  { unfold wc. rewrite setToken_eq. cbn. auto. }
  destruct Hfacts as (Hwinc & Hauth & Hhref & Hpathc).
  assert (Htokc : token (auth wc) = Some t) by (rewrite Hauth; reflexivity).
  destruct (getToken_store_hit wc t Hwinc Hc Htokc Ht) as (_ & Hreq & _).
  assert (Hme : authApi.getCurrentUser me wc
                = (Ok (Some ("Bearer " +:+ t),
                       match me with Response u => Some u | Failure _ => None end),
                   wc)).
  { unfold authApi.getCurrentUser, axios_request. unfold bind at 1.
    unfold bind at 1. rewrite Hreq. unfold bind at 1.
    rewrite response_interceptor_login_view by (rewrite Hpathc; exact Hpath).
    destruct me; reflexivity. }
  assert (Hr : r = (Ok (Some ("Bearer " +:+ t)),
                    (assign_href "/dashboard"
                       match me with
                       | Response u => (useAuthStore.setUser (Some u) wc).2
                       | Failure _ => wc
                       end).2)).
  { unfold r, LoginPage.handleSubmit. unfold bind at 1. rewrite Hl.
    unfold bind at 1. fold wb. rewrite Hwc. unfold bind at 1. rewrite Hme.
    cbn [fst snd]. destruct me; [unfold bind at 1; rewrite setUser_eq|]; reflexivity. }
  clearbody r. subst r. cbn [fst snd]. unfold assign_href. cbn [snd].
  destruct Hc as (Hleg & Htok & _). rewrite Htokc in Hleg, Htok.
  cbn [mirrored json_of_token] in Hleg, Htok. rewrite Ht in Hleg.
  split; [reflexivity|].
  assert (Hin : forall w', token (auth w') = Some t ->
                  forall s, DashboardLayout.pushed (guard_check w' s)
                            = DashboardLayout.pushed s).
  { intros w' Hw' s. apply guard_lets_in with (p := []). right. left.
    rewrite Hw'. exact Ht. }
  destruct me as [profile|status].
  - rewrite setUser_eq. cbn [fst snd auth token user isAuthenticated localStorage
                             href_log window_defined].
    rewrite Hwinc, Htokc, Hhref.
    split; [reflexivity|].
    split; [rewrite lookup_insert_ne by done; exact Hleg|].
    split.
    { rewrite (record_member_persisted _
                 (mkAuthState (Some profile) (Some t) (truthy (Some profile))));
        [reflexivity|].
      cbn. apply lookup_insert_eq. }
    split; [reflexivity|]. split; [split; reflexivity|].
    split; [|exact Hfail]. apply Hin. reflexivity.
  - cbn [fst snd auth token user isAuthenticated localStorage
         href_log window_defined].
    rewrite Hhref, Hauth. cbn [token user isAuthenticated].
    split; [reflexivity|]. split; [exact Hleg|]. split; [exact Htok|].
    split; [reflexivity|]. split; [split; reflexivity|].
    split; [|exact Hfail]. apply Hin. cbn. rewrite ?Hauth. reflexivity.
Qed.

Lemma handleSubmit_signs_in_witness :
  let w := (auth_store_init (login_view [] signed_out None None)).2 in
  (LoginPage.handleSubmit (Response "abc") (Failure (Some 401)) w).1
  = Ok (Some "Bearer abc").
Proof.
  intros w.
  exact (proj1 (handleSubmit_signs_in w "abc" (Failure (Some 401))
                  eq_refl eq_refl eq_refl)).
Defined.

(** ** The token of the file preview *)

Lemma openFilePreview_eq w :
  vaultApi.openFilePreview w =
  (Ok match (if window_defined w then
               match record_member w "token" with
               | Ok (Some t) =>
                   if truthy (Some t) then Some t
                   else option_map JStr (localStorage w !! "auth_token")
               | _ => option_map JStr (localStorage w !! "auth_token")
               end
             else None) with
      | Some t =>
          if truthy (Some t) then vaultApi.Fetch ("Bearer " +:+ js_to_string t)
          else vaultApi.TokenNotFound
      | None => vaultApi.TokenNotFound
      end, w).
Proof.
  unfold vaultApi.openFilePreview, vaultApi.legacy_item, record_member. unfold_m.
  destruct (window_defined w); [|reflexivity].
  assert (Hout : forall v : option json,
            match v with
            | Some t =>
                if negb (truthy v)
                then fun w0 : World => (Ok vaultApi.TokenNotFound, w0)
                else fun w0 : World =>
                       (Ok (vaultApi.Fetch ("Bearer " +:+ js_to_string t)), w0)
            | None => fun w0 : World => (Ok vaultApi.TokenNotFound, w0)
            end w
            = (Ok match v with
                  | Some t =>
                      if truthy (Some t)
                      then vaultApi.Fetch ("Bearer " +:+ js_to_string t)
                      else vaultApi.TokenNotFound
                  | None => vaultApi.TokenNotFound
                  end, w)).
  { intros [t|]; [|reflexivity]. destruct (truthy (Some t)); reflexivity. }
  destruct (localStorage w !! "auth-storage") as [text|]; [|apply Hout].
  destruct (truthy_str (Some text)); [|apply Hout].
  destruct (JSON_parse text) as [parsed|]; [|apply Hout].
  unfold_m. destruct (js_get parsed "state") as [st|e]; [|apply Hout].
  destruct (js_get_opt st "token") as [t|]; [|apply Hout].
  cbv beta iota. destruct (truthy (Some t)) eqn:Htr; cbn [negb]; [|apply Hout].
  cbv beta iota. rewrite Htr. reflexivity.
Qed.

Lemma getToken_result w :
  (ApiClient.token_from_accessor w).1 = Ok None ->
  (ApiClient.getToken w).1 =
  Ok (if window_defined w then
        match record_member w "token" with
        | Ok (Some t) => if truthy (Some t) then Some t else legacy_token w
        | _ => legacy_token w
        end
      else None).
Proof.
  intros Hacc. rewrite getToken_eq.
  destruct (window_defined w); cbn [negb]; [|reflexivity].
  assert (Hleg : (ApiClient.token_from_legacy w).1 = Ok (legacy_token w)).
  { rewrite token_from_legacy_eq. unfold legacy_token.
    destruct (localStorage w !! "auth_token") as [t|]; [|reflexivity].
    destruct (truthy_str (Some t)); reflexivity. }
  rewrite token_from_store_eq.
  destruct (record_member w "token") as [[t|]|e];
    try (rewrite (stage_accessor_none w Hacc);
         destruct (ApiClient.token_from_legacy w) as [[r|e'] w']; exact Hleg).
  destruct (truthy (Some t)); [reflexivity|].
  rewrite (stage_accessor_none w Hacc).
  destruct (ApiClient.token_from_legacy w) as [[r|e'] w']; exact Hleg.
Qed.

Lemma request_interceptor_result b w :
  (ApiClient.request_interceptor b w).1 =
  match (ApiClient.getToken w).1 with
  | Ok (Some t) =>
      Ok (if truthy (Some t) && b then Some ("Bearer " +:+ js_to_string t) else None)
  | Ok None => Ok None
  | Throw e => Throw e
  end.
Proof.
  unfold ApiClient.request_interceptor, bind.
  destruct (ApiClient.getToken w) as [[[t|]|e] w']; try reflexivity.
  cbn [fst]. destruct (truthy (Some t) && b); reflexivity.
Qed.

(** X23: [openFilePreview] finds the token the requests carry.  It reads
    the persisted record and the legacy key and writes nothing.  When the
    registered accessor has no token to offer, it calls [fetch] with the
    very [Authorization] header the request interceptor would set, and it
    throws "Authentication token not found" exactly when the interceptor
    would set none. *)
Theorem openFilePreview_sends_the_request_token w :
  (ApiClient.token_from_accessor w).1 = Ok None ->
  vaultApi.openFilePreview w =
  (Ok match (ApiClient.request_interceptor true w).1 with
      | Ok (Some authorization) => vaultApi.Fetch authorization
      | _ => vaultApi.TokenNotFound
      end, w).
Proof.
  intros Hacc. rewrite openFilePreview_eq, request_interceptor_result.
  rewrite (getToken_result w Hacc). f_equal. f_equal.
  destruct (window_defined w); [|reflexivity].
  assert (Hleg :
    match option_map JStr (localStorage w !! "auth_token") with
    | Some t =>
        if truthy (Some t) then vaultApi.Fetch ("Bearer " +:+ js_to_string t)
        else vaultApi.TokenNotFound
    | None => vaultApi.TokenNotFound
    end
    = match match legacy_token w with
            | Some t =>
                Ok (if truthy (Some t) && true
                    then Some ("Bearer " +:+ js_to_string t) else None)
            | None => Ok None
            end with
      | Ok (Some authorization) => vaultApi.Fetch authorization
      | _ => vaultApi.TokenNotFound
      end).
  { unfold legacy_token.
    destruct (localStorage w !! "auth_token") as [t|]; [|reflexivity].
    cbn [option_map truthy truthy_str].
    destruct (negb (String.eqb t "")) eqn:Ht; [|reflexivity].
    cbn [truthy andb]. rewrite Ht. reflexivity. }
  destruct (record_member w "token") as [[t|]|e]; try exact Hleg.
  destruct (truthy (Some t)) eqn:Ht; [|exact Hleg].
  rewrite Ht. reflexivity.
Qed.

Lemma openFilePreview_sends_the_request_token_witness :
  let w := browser [("auth-storage", "{bad"); ("auth_token", "abc")]
                   signed_out None None in
  vaultApi.openFilePreview w = (Ok (vaultApi.Fetch "Bearer abc"), w).
Proof.
  intros w. exact (openFilePreview_sends_the_request_token w eq_refl).
Defined.

(** ** What the API layer checks before a request *)

Lemma trimStart_head s :
  match trimStart s with
  | String c _ => is_white_space c = false
  | EmptyString => True
  end.
Proof.
  induction s as [|c s IH]; [exact I|].
  cbn [trimStart]. destruct (is_white_space c) eqn:Hc; [exact IH | exact Hc].
Qed.

Lemma trimEnd_head c s :
  is_white_space c = false -> exists r, trimEnd (String c s) = String c r.
Proof.
  intros Hc. cbn [trimEnd]. rewrite Hc.
  destruct (trimEnd s); eexists; reflexivity.
Qed.

Lemma trimEnd_last s :
  match last (list_ascii_of_string (trimEnd s)) with
  | Some d => is_white_space d = false
  | None => True
  end.
Proof.
  induction s as [|c s IH]; [exact I|].
  cbn [trimEnd]. destruct (trimEnd s) as [|c' r].
  - destruct (is_white_space c) eqn:Hc; [exact I | exact Hc].
  - exact IH.
Qed.

Lemma trimEnd_fixed s :
  match last (list_ascii_of_string s) with
  | Some d => is_white_space d = false
  | None => True
  end ->
  trimEnd s = s.
Proof.
  induction s as [|c s IH]; [reflexivity|].
  intros Hlast. cbn [trimEnd]. destruct s as [|c' s'].
  - cbn in Hlast. cbn [trimEnd]. rewrite Hlast. reflexivity.
  - rewrite IH by exact Hlast. reflexivity.
Qed.

Lemma trim_trimmed s : trimmed (trim s).
Proof.
  unfold trim. pose proof (trimStart_head s) as Hh.
  destruct (trimStart s) as [|c r]; [exact I|].
  destruct (trimEnd_head c r Hh) as [r' Hr']. pose proof (trimEnd_last (String c r)) as Hl.
  rewrite Hr' in *. split; [exact Hh | exact Hl].
Qed.

Lemma trimmed_fixed s : trimmed s -> trim s = s.
Proof.
  destruct s as [|c s]; [reflexivity|]. intros [Hc Hl].
  unfold trim. cbn [trimStart]. rewrite Hc. apply trimEnd_fixed, Hl.
Qed.

Lemma trim_idempotent s : trim (trim s) = trim s.
Proof. apply trimmed_fixed, trim_trimmed. Qed.

Lemma trim_empty_falsy s : truthy_str (Some s) = false -> trim s = "".
Proof.
  cbn. destruct (String.eqb_spec s "") as [-> | _]; [reflexivity | discriminate].
Qed.

Lemma checked_query_eq url query topK :
  checked_query url query topK =
  if (String.length (trim query) <? 3)%nat
  then Rejects "Query must be at least 3 characters long"
  else if (topK <? 1) || (50 <? topK)
  then Rejects "top_k must be between 1 and 50"
  else Posts url (JObj [("query", JStr (trim query)); ("top_k", JNum topK)]).
Proof.
  unfold checked_query.
  destruct (truthy_str (Some query)) eqn:Hq; [reflexivity|].
  rewrite (trim_empty_falsy query Hq). reflexivity.
Qed.

(** X24: [search] and [deepSearch] post exactly the queries that pass the
    checks.  A request is made if and only if the query has at least 3
    characters once trimmed and [topK] lies between 1 and 50; the body then
    carries the trimmed query, which has no white space at either end, and
    [topK] as given.  A query that is too short is rejected whatever [topK]
    is, and passing the trimmed query again gives the same call. *)
Theorem search_posts_checked_queries query topK :
  let sent := JObj [("query", JStr (trim query)); ("top_k", JNum topK)] in
  (((3 <= String.length (trim query))%nat /\ 1 <= topK <= 50) ->
   search query topK = Posts "/api/v1/search/" sent
   /\ deepSearch query topK = Posts "/api/v1/deepsearch/" sent)
  /\ (forall url body,
        search query topK = Posts url body \/ deepSearch query topK = Posts url body ->
        body = sent /\ (3 <= String.length (trim query))%nat /\ 1 <= topK <= 50)
  /\ ((String.length (trim query) < 3)%nat ->
      search query topK = Rejects "Query must be at least 3 characters long"
      /\ deepSearch query topK = Rejects "Query must be at least 3 characters long")
  /\ trimmed (trim query)
  /\ search (trim query) topK = search query topK
  /\ deepSearch (trim query) topK = deepSearch query topK.
Proof.
  intros sent. unfold search, deepSearch. rewrite !checked_query_eq.
  rewrite !trim_idempotent. fold sent.
  destruct (Nat.ltb_spec (String.length (trim query)) 3) as [Hshort | Hlong].
  - split; [intros [H _]; lia|].
    split; [intros url body [H | H]; discriminate|].
    split; [intros _; split; reflexivity|].
    split; [apply trim_trimmed|]. split; reflexivity.
  - destruct (Z.ltb_spec topK 1) as [Hlow | Hlow]; cbn [orb].
    + split; [intros [_ H]; lia|].
      split; [intros url body [H | H]; discriminate|].
      split; [intros H; lia|].
      split; [apply trim_trimmed|]. split; reflexivity.
    + destruct (Z.ltb_spec 50 topK) as [Hhigh | Hhigh].
      * split; [intros [_ H]; lia|].
        split; [intros url body [H | H]; discriminate|].
        split; [intros H; lia|].
        split; [apply trim_trimmed|]. split; reflexivity.
      * split; [intros _; split; reflexivity|].
        split.
        { intros url body [H | H]; injection H as _ <-;
            (split; [reflexivity | split; [exact Hlong | lia]]). }
        split; [intros H; lia|].
        split; [apply trim_trimmed|]. split; reflexivity.
Qed.

(** X25: [ingestFile] posts normalized ids only.  A request is made if and
    only if the id is a string whose trimmed form is neither empty nor the
    text [undefined] nor the text [null]; the body then carries the trimmed
    id, which has no white space at either end, and [extractGraph] as
    given.  A value that is not a string is rejected with the first
    message. *)
Theorem ingestFile_posts_normalized_ids fileId extractGraph :
  (forall url body,
      ingestFile fileId extractGraph = Posts url body ->
      exists s,
        fileId = Some (JStr s)
        /\ url = "/api/v1/ingest/file"
        /\ body = JObj [("file_id", JStr (trim s));
                        ("extract_graph", JBool extractGraph)]
        /\ trim s <> "" /\ trim s <> "undefined" /\ trim s <> "null"
        /\ trimmed (trim s))
  /\ (forall s,
        fileId = Some (JStr s) ->
        trim s <> "" -> trim s <> "undefined" -> trim s <> "null" ->
        ingestFile fileId extractGraph
        = Posts "/api/v1/ingest/file"
                (JObj [("file_id", JStr (trim s));
                       ("extract_graph", JBool extractGraph)]))
  /\ (is_string fileId = false ->
      ingestFile fileId extractGraph = Rejects "file_id must be a non-empty string").
Proof.
  split; [|split].
  - intros url body H. unfold ingestFile in H.
    destruct fileId as [v|]; [|discriminate].
    destruct (negb (truthy (Some v)) || negb (is_string (Some v))) eqn:Hfirst;
      [discriminate|].
    destruct v as [| | |s| |]; try (rewrite orb_true_r in Hfirst; discriminate).
    cbn [js_to_string] in H.
    destruct (String.eqb_spec (trim s) "") as [He | He].
    { rewrite He in H. discriminate. }
    assert (Ht : truthy_str (Some (trim s)) = true).
    { cbn. apply String.eqb_neq in He. rewrite He. reflexivity. }
    rewrite Ht in H. cbn [negb orb] in H.
    destruct (String.eqb_spec (trim s) "undefined") as [Hu | Hu]; [discriminate|].
    destruct (String.eqb_spec (trim s) "null") as [Hn | Hn]; [discriminate|].
    injection H as <- <-. exists s.
    repeat (split; [reflexivity || assumption|]). apply trim_trimmed.
  - intros s -> He Hu Hn. unfold ingestFile. cbn [js_to_string].
    assert (Hs : truthy (Some (JStr s)) = true).
    { cbn. destruct (String.eqb_spec s "") as [-> | _]; [destruct (He eq_refl) | reflexivity]. }
    rewrite Hs. cbn [negb orb is_string].
    apply String.eqb_neq in He, Hu, Hn. cbn [truthy_str]. rewrite He, Hu, Hn.
    reflexivity.
  - intros Hns. unfold ingestFile. destruct fileId as [v|]; [|reflexivity].
    rewrite Hns. cbn [negb]. rewrite orb_true_r. reflexivity.
Qed.

(** ** Ages *)

Lemma floor_bounds d k :
  0 < k -> k * (d / k) <= d < k * (d / k + 1).
Proof.
  intros Hk. pose proof (Z.mul_div_le d k Hk).
  pose proof (Z.mul_succ_div_gt d k Hk). lia.
Qed.

Lemma unit_text (n : Z) unit :
  1 <= n ->
  pretty n +:+ unit +:+ plural n +:+ " ago"
  = pretty n +:+ unit +:+ (if n =? 1 then " ago" else "s ago").
Proof.
  intros Hn. unfold plural.
  destruct (Z.eqb_spec n 1) as [-> | Hne]; [reflexivity|].
  destruct (Z.ltb_spec 1 n); [reflexivity | lia].
Qed.

(** X26: the age the requests page prints never overstates.  With [d]
    the milliseconds between [past] and [now]: below one minute, and for a
    time still to come, it prints [Just now]; below one hour it prints the
    whole minutes elapsed, between 1 and 59; below one day the whole hours,
    between 1 and 23; from one day on the whole days; the unit has its [s]
    exactly when the count is not 1.  The vault page prints the same text
    from one hour on, and [Just now] below one hour. *)
Theorem formatTimeAgo_counts_whole_units now past :
  let d := now - past in
  let shown := RequestsPage.formatTimeAgo now past in
  (d < 60000 -> shown = "Just now")
  /\ (60000 <= d < 3600000 ->
      exists m, 1 <= m <= 59 /\ 60000 * m <= d < 60000 * (m + 1)
                /\ shown = pretty m +:+ " minute" +:+ (if m =? 1 then " ago" else "s ago"))
  /\ (3600000 <= d < 86400000 ->
      exists h, 1 <= h <= 23 /\ 3600000 * h <= d < 3600000 * (h + 1)
                /\ shown = pretty h +:+ " hour" +:+ (if h =? 1 then " ago" else "s ago"))
  /\ (86400000 <= d ->
      exists n, 1 <= n /\ 86400000 * n <= d < 86400000 * (n + 1)
                /\ shown = pretty n +:+ " day" +:+ (if n =? 1 then " ago" else "s ago"))
  /\ (3600000 <= d -> VaultPage.formatTimeAgo now past = shown)
  /\ (d < 3600000 -> VaultPage.formatTimeAgo now past = "Just now").
Proof.
  intros d shown. subst shown.
  unfold RequestsPage.formatTimeAgo, VaultPage.formatTimeAgo. cbv zeta. fold d.
  change (1000 * 60 * 60) with 3600000. change (1000 * 60) with 60000.
  pose proof (floor_bounds d 60000 eq_refl) as Hm.
  pose proof (floor_bounds d 3600000 eq_refl) as Hh.
  pose proof (floor_bounds (d / 3600000) 24 eq_refl) as Hd.
  set (m := d / 60000) in *. set (h := d / 3600000) in *. set (n := h / 24) in *.
  split; [|split; [|split; [|split; [|split]]]].
  - intros Hlt. destruct (Z.ltb_spec m 1); [reflexivity | lia].
  - intros Hr. exists m.
    destruct (Z.ltb_spec m 1); [lia|]. destruct (Z.ltb_spec m 60); [|lia].
    split; [lia|]. split; [lia|]. apply unit_text. lia.
  - intros Hr. exists h.
    destruct (Z.ltb_spec m 1); [lia|]. destruct (Z.ltb_spec m 60); [lia|].
    destruct (Z.ltb_spec h 24); [|lia].
    split; [lia|]. split; [lia|]. apply unit_text. lia.
  - intros Hr. exists n.
    destruct (Z.ltb_spec m 1); [lia|]. destruct (Z.ltb_spec m 60); [lia|].
    destruct (Z.ltb_spec h 24); [lia|].
    split; [lia|]. split; [lia|]. apply unit_text. lia.
  - intros Hr.
    destruct (Z.ltb_spec m 1); [lia|]. destruct (Z.ltb_spec m 60); [lia|].
    destruct (Z.ltb_spec h 1); [lia|]. reflexivity.
  - intros Hr. destruct (Z.ltb_spec h 1); [reflexivity | lia].
Qed.

(** ** Sizes *)

(** X27: the size the pages print is the nearest tenth.  Below 1024 bytes
    the count is printed as it is; from there below 1024 * 1024 the size
    is printed in KB and from there on (below 2^53 bytes, the whole numbers
    that are exact) in MB, as the number of tenths [n]
    nearest to the true size, a half rounding up, so the text is off by at
    most 0.05 of the unit.  The sizes from 1048525 to 1048575 bytes round
    up to [1024.0 KB]. *)
Theorem formatFileSize_nearest_tenth bytes :
  (bytes < 1024 -> formatFileSize bytes = pretty bytes +:+ " B")
  /\ (1024 <= bytes < 1048576 ->
      exists n, 10 <= n <= 10240
                /\ 1024 * n - 512 <= 10 * bytes < 1024 * n + 512
                /\ formatFileSize bytes
                   = (pretty (n / 10) +:+ "." +:+ pretty (n mod 10)) +:+ " KB")
  /\ (1048576 <= bytes < 2 ^ 53 ->
      exists n, 10 <= n
                /\ 1048576 * n - 524288 <= 10 * bytes < 1048576 * n + 524288
                /\ formatFileSize bytes
                   = (pretty (n / 10) +:+ "." +:+ pretty (n mod 10)) +:+ " MB")
  /\ (1048525 <= bytes < 1048576 -> formatFileSize bytes = "1024.0 KB").
Proof.
  unfold formatFileSize, toFixed1. change (1024 * 1024) with 1048576. cbv zeta.
  pose proof (floor_bounds (2 * 10 * bytes + 1024) (2 * 1024) eq_refl) as Hk.
  pose proof (floor_bounds (2 * 10 * bytes + 1048576) (2 * 1048576) eq_refl) as Hm.
  split; [|split; [|split]].
  - intros Hlt. destruct (Z.ltb_spec bytes 1024); [reflexivity | lia].
  - intros Hr. destruct (Z.ltb_spec bytes 1024); [lia|].
    destruct (Z.ltb_spec bytes 1048576); [|lia].
    eexists. split; [|split; [|reflexivity]]; lia.
  - intros Hr. destruct (Z.ltb_spec bytes 1024); [lia|].
    destruct (Z.ltb_spec bytes 1048576); [lia|].
    eexists. split; [|split; [|reflexivity]]; lia.
  - intros Hr. destruct (Z.ltb_spec bytes 1024); [lia|].
    destruct (Z.ltb_spec bytes 1048576); [|lia].
    assert (Hn : (2 * 10 * bytes + 1024) / (2 * 1024) = 10240) by lia.
    rewrite Hn. reflexivity.
Qed.

(** ** Message ids, and the callers of [search] and [deepSearch] *)

Lemma lacks_app c s1 s2 : lacks c s1 -> lacks c s2 -> lacks c (s1 +:+ s2).
Proof.
  induction s1 as [|c1 s1 IH]; intros H1 H2; [exact H2|].
  destruct H1 as [Hc H1]. split; [exact Hc | apply IH; assumption].
Qed.

Lemma pretty_N_go_lacks_underscore x : forall s,
  lacks "_" s -> lacks "_" (pretty_N_go x s).
Proof.
  induction (N.lt_wf_0 x) as [x _ IH]; intros s Hs.
  assert (x = 0 \/ 0 < x)%N as [-> | Hx] by lia.
  - rewrite pretty_N_go_0. exact Hs.
  - rewrite pretty_N_go_step by done.
    apply IH; [apply N.div_lt; lia|].
    split; [|exact Hs]. unfold pretty_N_char. repeat case_match; discriminate.
Qed.

Lemma pretty_Z_lacks_underscore (z : Z) : lacks "_" (pretty z).
Proof.
  destruct z as [|p|p].
  - split; [discriminate | exact I].
  - apply (pretty_N_go_lacks_underscore (N.pos p) ""). exact I.
  - change (pretty (Z.neg p)) with ("-" +:+ pretty_N_go (N.pos p) "").
    split; [discriminate|].
    apply (pretty_N_go_lacks_underscore (N.pos p) ""). exact I.
Qed.

Lemma split_at c d1 : forall d2 s1 s2,
  lacks c d1 -> lacks c d2 ->
  d1 +:+ String c s1 = d2 +:+ String c s2 ->
  d1 = d2 /\ s1 = s2.
Proof.
  induction d1 as [|c1 d1 IH]; intros [|c2 d2] s1 s2 H1 H2 Heq.
  - injection Heq as ->. done.
  - injection Heq as <- _. destruct H2 as [H2 _]. done.
  - injection Heq as -> _. destruct H1 as [H1 _]. done.
  - injection Heq as -> Heq. destruct H1 as [_ H1], H2 as [_ H2].
    destruct (IH d2 s1 s2 H1 H2 Heq) as [-> ->]. done.
Qed.

(** X28: two message ids of the chat are equal exactly when they were made
    in the same millisecond with the same random suffix, and no message id
    is a notification id. *)
Theorem generateMessageId_collisions (n1 : Z) s1 (n2 : Z) s2 :
  (generateMessageId n1 s1 = generateMessageId n2 s2 <-> n1 = n2 /\ s1 = s2)
  /\ generateMessageId n1 s1 <> Notifications.generateNotificationId n2 s2.
Proof.
  split; [split|].
  - unfold generateMessageId. intros Heq.
    apply (inj (String.app "msg_")) in Heq.
    destruct (split_at "_" (pretty n1) (pretty n2) s1 s2
                (pretty_Z_lacks_underscore n1) (pretty_Z_lacks_underscore n2) Heq)
      as [Hn ->].
    split; [apply (inj pretty), Hn | reflexivity].
  - intros [-> ->]. reflexivity.
  - discriminate.
Qed.

(** X29: the search box never lets [search] throw.  [handleSearch] does
    nothing while a search is running or when the trimmed input is empty;
    it shows "Query must be at least 3 characters long", the message
    [search] would throw, for a trimmed input of 1 or 2 characters; in
    every other case it calls [search], and that call passes the checks of
    [search] and posts the trimmed input with [top_k] 5. *)
Theorem handleSearch_calls_only_valid_searches query isSearching :
  match SearchInterface.handleSearch query isSearching with
  | SearchInterface.Calls c =>
      c = Posts "/api/v1/search/"
                (JObj [("query", JStr (trim query)); ("top_k", JNum 5)])
      /\ isSearching = false
      /\ (3 <= String.length (trim query))%nat
  | SearchInterface.ShowsError m =>
      search query 5 = Rejects m
      /\ isSearching = false
      /\ (1 <= String.length (trim query) < 3)%nat
  | SearchInterface.Ignored => isSearching = true \/ trim query = ""
  end.
Proof.
  unfold SearchInterface.handleSearch, search. rewrite checked_query_eq.
  destruct (String.eqb_spec (trim query) "") as [He | He].
  { rewrite He. cbn. right. reflexivity. }
  assert (Ht : truthy_str (Some (trim query)) = true).
  { cbn. apply String.eqb_neq in He. rewrite He. reflexivity. }
  rewrite Ht. cbn [negb orb].
  destruct isSearching; [left; reflexivity|].
  destruct (Nat.ltb_spec (String.length (trim query)) 3) as [Hs | Hl].
  - split; [reflexivity|]. split; [reflexivity|].
    destruct (trim query); [destruct (He eq_refl) | cbn in *; lia].
  - cbn. split; [reflexivity|]. split; [reflexivity | exact Hl].
Qed.

(** X30: the chat sends short messages on.  [sendMessage] returns at once
    while a reply is loading or when the trimmed input is empty; in every
    other case it calls [deepSearch] with the trimmed input, also when that
    has 1 or 2 characters: [deepSearch] then throws "Query must be at least
    3 characters long" and makes no request, and with 3 characters or more
    it posts the trimmed input with [top_k] 5. *)
Theorem sendMessage_leaves_the_check_to_deepSearch input isLoading :
  match RAGChatbot.sendMessage None input isLoading with
  | Some c =>
      isLoading = false
      /\ trim input <> ""
      /\ c = if (String.length (trim input) <? 3)%nat
             then Rejects "Query must be at least 3 characters long"
             else Posts "/api/v1/deepsearch/"
                        (JObj [("query", JStr (trim input)); ("top_k", JNum 5)])
  | None => isLoading = true \/ trim input = ""
  end.
Proof.
  unfold RAGChatbot.sendMessage, deepSearch. cbv zeta.
  rewrite checked_query_eq, trim_idempotent.
  destruct (String.eqb_spec (trim input) "") as [He | He].
  { rewrite He. cbn. right. reflexivity. }
  assert (Ht : truthy_str (Some (trim input)) = true).
  { cbn. apply String.eqb_neq in He. rewrite He. reflexivity. }
  rewrite Ht. cbn [negb orb].
  destruct isLoading; [left; reflexivity|].
  split; [reflexivity|]. split; [exact He|].
  destruct (String.length (trim input) <? 3)%nat; reflexivity.
Qed.
